(** * sidcode: generative composition engine and animation loop

    A shallow embedding of the TypeScript sources

      - [src/lib/random.ts]     (mulberry32 and the sampling helpers),
      - [src/lib/palettes.ts]   ([varyColor]),
      - [src/lib/shapes.ts]     (the five shape constructors),
      - [src/lib/fontPaths.ts]  ([getTextPathPoints], as emitted by
                                 [scripts/extract-font-paths.js]),
      - [src/lib/generator.ts]  ([generateComposition] and its phases),
      - [src/lib/animation.ts]  ([addAnimationProperties],
                                 [updateAnimatedShapes]; in the source tree
                                 its text follows that of [palettes.ts]),
      - [src/components/Canvas.tsx] (the call that wires the two together),

    followed by the properties of the specification.

    Conventions of the embedding.

      - A JavaScript [number] that carries a measure is a rational ([Q]):
        [+], [-], [*], [/], [Math.min], [Math.max], [Math.floor] and
        [Math.round] are exact.  Rounding of IEEE doubles, [NaN] and the
        infinities are outside the model, except where a [NaN] is the
        observable result of [parseInt]; there it is [None].
      - A [number] that the code uses as an integer (seeds, loop counters,
        32-bit generator state, colour channels) is a [Z]; the 32-bit
        coercions of the bit operators are written out.
      - [Math.sqrt], [Math.log], [Math.sin], [Math.cos], [Math.atan2] and
        [Math.PI] are the fields of the class [JsMath]; every definition and
        theorem is generic in the instance.
      - [undefined] is [None].  A [TypeError] raised by the code is the [None]
        of the generator monad [Gen].
      - The state of a generator is threaded through the code that draws
        from it.  Where a property is about what outlives a call, the
        variables that the closures capture are kept in a store
        ([closures]).
      - A string is a [string] of 8-bit code units. *)

From Stdlib Require Import ZArith QArith Qround Qminmax Qabs.
From Stdlib Require Import List String Ascii Bool Lia Lqa.
From Stdlib Require Import Permutation.
Import ListNotations.

Local Open Scope Q_scope.

(* ================================================================== *)
(** * Part I: the program *)
(* ================================================================== *)

(** ** JavaScript primitives *)

Module js.

(** [ToInt32] and [ToUint32] of ECMAScript, on integers. *)
Definition toInt32 (z : Z) : Z :=
  ((z + 2147483648) mod 4294967296 - 2147483648)%Z.

Definition toUint32 (z : Z) : Z := (z mod 4294967296)%Z.

(** [a >>> k] *)
Definition ushr (a : Z) (k : Z) : Z := Z.shiftr (toUint32 a) k.

(** [a ^ b] and [a | b] *)
Definition xor (a b : Z) : Z := toInt32 (Z.lxor (toInt32 a) (toInt32 b)).
Definition bor (a b : Z) : Z := toInt32 (Z.lor (toInt32 a) (toInt32 b)).

(** [Math.imul(a, b)] *)
Definition imul (a b : Z) : Z := toInt32 (toInt32 a * toInt32 b).

(** [a % b] on integers: the sign follows the dividend. *)
Definition rem (a b : Z) : Z := Z.rem a b.

(** [Math.floor], [Math.ceil], [Math.round] (halves go up). *)
Definition floor (q : Q) : Z := Qfloor q.
Definition ceil (q : Q) : Z := Qceiling q.
Definition round (q : Q) : Z := Qfloor (q + (1 # 2)).

(** [a < b] on numbers. *)
Definition ltb (a b : Q) : bool := negb (Qle_bool b a).
Definition gtb (a b : Q) : bool := ltb b a.

(** Truthiness of a number: everything but [0] (and [NaN]). *)
Definition truthy (q : Q) : bool := negb (Qeq_bool q 0).

(** The values that reach a parameter declared [boolean] once the types
    are erased: the callers of this repository pass a boolean, a string
    or nothing. *)
Inductive value :=
| VBool (b : bool)
| VString (s : string)
| VUndefined.

Definition to_boolean (v : value) : bool :=
  match v with
  | VBool b => b
  | VString s => negb (String.eqb s "")
  | VUndefined => false
  end.

(** [String.prototype.slice(i, j)] for [0 <= i <= j]. *)
Definition slice (i j : nat) (s : string) : string := substring i (j - i) s.

(** White space of [trim] and [parseInt] among 8-bit code units. *)
Definition isWhiteSpace (c : ascii) : bool :=
  let n := nat_of_ascii c in
  ((9 <=? n) && (n <=? 13) || (n =? 32) || (n =? 160))%nat.

Fixpoint trimStart (s : string) : string :=
  match s with
  | String c r => if isWhiteSpace c then trimStart r else s
  | EmptyString => EmptyString
  end.

Fixpoint rev_string (s acc : string) : string :=
  match s with
  | String c r => rev_string r (String c acc)
  | EmptyString => acc
  end.

Definition trim (s : string) : string :=
  rev_string (trimStart (rev_string (trimStart s) "")) "".

(** [toUpperCase]: exact on ASCII text, where only the letters a-z
    change. *)
Definition upperChar (c : ascii) : ascii :=
  let n := nat_of_ascii c in
  if ((97 <=? n) && (n <=? 122))%nat then ascii_of_nat (n - 32) else c.

Fixpoint toUpperCase (s : string) : string :=
  match s with
  | String c r => String (upperChar c) (toUpperCase r)
  | EmptyString => EmptyString
  end.

(** [parseInt(s, 16)]: leading white space, a sign, an optional [0x],
    then the longest run of hexadecimal digits; [None] is [NaN]. *)
Definition hexDigitValue (c : ascii) : option Z :=
  let n := nat_of_ascii c in
  if ((48 <=? n) && (n <=? 57))%nat then Some (Z.of_nat (n - 48))
  else if ((97 <=? n) && (n <=? 102))%nat then Some (Z.of_nat (n - 87))
  else if ((65 <=? n) && (n <=? 70))%nat then Some (Z.of_nat (n - 55))
  else None.

Fixpoint parseHexDigits (s : string) (acc : option Z) : option Z :=
  match s with
  | String c r =>
      match hexDigitValue c with
      | Some d =>
          parseHexDigits r
            (Some (16 * (match acc with Some a => a | None => 0 end) + d)%Z)
      | None => acc
      end
  | EmptyString => acc
  end.

Definition stripSign (s : string) : bool * string :=
  match s with
  | String "-" r => (true, r)
  | String "+" r => (false, r)
  | _ => (false, s)
  end.

Definition stripHexPrefix (s : string) : string :=
  match s with
  | String "0" (String "x" r) => r
  | String "0" (String "X" r) => r
  | _ => s
  end.

Definition parseInt16 (s : string) : option Z :=
  let (neg, body) := stripSign (trimStart s) in
  match parseHexDigits (stripHexPrefix body) None with
  | Some v => Some (if neg then (- v)%Z else v)
  | None => None
  end.

(** [n.toString(16)] on integers, lower-case digits. *)
Definition hexDigit (d : Z) : ascii :=
  if (d <? 10)%Z then ascii_of_nat (48 + Z.to_nat d)
  else ascii_of_nat (87 + Z.to_nat d).

Fixpoint hexDigits (fuel : nat) (n : Z) (acc : string) : string :=
  match fuel with
  | O => acc
  | S fuel' =>
      let acc' := String (hexDigit (n mod 16)%Z) acc in
      if (n <? 16)%Z then acc' else hexDigits fuel' (n / 16)%Z acc'
  end.

Definition toString16 (n : Z) : string :=
  if (n <? 0)%Z
  then String "-" (hexDigits (S (Z.to_nat (Z.log2 (- n)))) (- n)%Z "")
  else hexDigits (S (Z.to_nat (Z.log2 n))) n "".

(** [NaN.toString(16)] is ["NaN"]. *)
Definition numToString16 (n : option Z) : string :=
  match n with Some z => toString16 z | None => "NaN"%string end.

(** [s.padStart(n, c)] for a one-character filler. *)
Fixpoint fill (n : nat) (c : ascii) (s : string) : string :=
  match n with O => s | S n' => String c (fill n' c s) end.

Definition padStart (n : nat) (c : ascii) (s : string) : string :=
  fill (n - String.length s) c s.

(** The part of [Math] that is not rational arithmetic. *)
Class JsMath : Type := {
  PI : Q;
  sqrt : Q -> Q;
  log : Q -> Q;
  sin : Q -> Q;
  cos : Q -> Q;
  atan2 : Q -> Q -> Q
}.

End js.

(** ** [src/lib/random.ts] *)

Module random.

(** Computations that draw from the mulberry32 stream: the state is the
    closure variable [t]; [None] is an exception thrown on the way. *)
Definition Gen (A : Type) : Type := Z -> option (A * Z).

Definition ret {A} (a : A) : Gen A := fun t => Some (a, t).

Definition bind {A B} (m : Gen A) (k : A -> Gen B) : Gen B :=
  fun t => match m t with
           | Some (a, t') => k a t'
           | None => None
           end.

Definition throw {A} : Gen A := fun _ => None.

(** [for (let i = start; i < start + n; i++) { ...; shapes.push(body i) }] *)
Fixpoint forLoop {A} (n : nat) (i : Z) (body : Z -> Gen A) : Gen (list A) :=
  match n with
  | O => ret []
  | S n' =>
      bind (body i) (fun a =>
      bind (forLoop n' (i + 1)%Z body) (fun rest =>
      ret (a :: rest)))
  end.

(** [createRandom(seed)]: the initial value of [t]. *)
Definition createRandom (seed : Z) : Z := (seed + 0x6d2b79f5)%Z.

(** One call of the closure returned by [createRandom]. *)
Definition next (t : Z) : Q * Z :=
  let t1 := js.imul (js.xor t (js.ushr t 15)) (js.bor t 1) in
  let t2 :=
    js.xor t1 (t1 + js.imul (js.xor t1 (js.ushr t1 7)) (js.bor t1 61))%Z in
  (inject_Z (js.ushr (js.xor t2 (js.ushr t2 14)) 0) / 4294967296, t2).

Definition random : Gen Q := fun t => Some (next t).

End random.

Declare Scope gen_scope.
Delimit Scope gen_scope with gen.
Notation "x <- m ;; k" := (random.bind m (fun x => k))
  (at level 61, m at next level, right associativity) : gen_scope.
Notation "' pat <- m ;; k" :=
  (random.bind m (fun x => match x with pat => k end))
  (at level 61, pat pattern, m at next level, right associativity) : gen_scope.

Module randomUtils.
Import random.
Local Open Scope gen_scope.

Section WithMath.
Context {M : js.JsMath}.

(** [range(min, max)] *)
Definition range (min max : Q) : Gen Q :=
  u <- random ;; ret (min + u * (max - min)).

(** [int(min, max)] *)
Definition int (min max : Q) : Gen Z :=
  u <- random ;; ret (js.floor (min + u * (max - min + 1))).

(** [pick(arr)]: [arr[Math.floor(random() * arr.length)]], which is
    [undefined] out of range. *)
Definition pick {T} (arr : list T) : Gen (option T) :=
  u <- random ;;
  let k := js.floor (u * inject_Z (Z.of_nat (List.length arr))) in
  ret (if (k <? 0)%Z then None else nth_error arr (Z.to_nat k)).

(** [chance(probability)] *)
Definition chance (probability : Q) : Gen bool :=
  u <- random ;; ret (js.ltb u probability).

(** [gaussian()]: Box-Muller on two draws. *)
Definition gaussian : Gen Q :=
  u1 <- random ;;
  u2 <- random ;;
  ret (js.sqrt (-2 * js.log u1) * js.cos (2 * js.PI * u2)).

End WithMath.
End randomUtils.

(** ** [src/lib/palettes.ts] *)

Module palettes.

(** The stateless hash of [varyColor]: [(seed * 9301 + 49297) % 233280]. *)
Definition hash (seed : Z) : Z := js.rem (seed * 9301 + 49297) 233280.

Definition rnd (seed : Z) : Q := inject_Z (hash seed) / 233280.

Definition variationAmount (variation : Q) : Q := (variation / 100) * 0.3.

Definition adjust (variation : Q) (seed : Z) : Q :=
  (rnd seed - 0.5) * 2 * variationAmount variation.

(** [Math.min(255, Math.max(0, Math.round(c * (1 + adjust))))]; a [NaN]
    channel stays [NaN]. *)
Definition newChannel (c : option Z) (adj : Q) : option Z :=
  match c with
  | Some v => Some (Z.min 255 (Z.max 0 (js.round (inject_Z v * (1 + adj)))))
  | None => None
  end.

Definition hex2 (c : option Z) : string :=
  js.padStart 2 "0" (js.numToString16 c).

Definition varyColor (baseColor : string) (variation : Q) (seed : Z)
  : string :=
  let r := js.parseInt16 (js.slice 1 3 baseColor) in
  let g := js.parseInt16 (js.slice 3 5 baseColor) in
  let b := js.parseInt16 (js.slice 5 7 baseColor) in
  let adj := adjust variation seed in
  let newR := newChannel r adj in
  let newG := newChannel g adj in
  let newB := newChannel b adj in
  String "#" (hex2 newR ++ hex2 newG ++ hex2 newB).

End palettes.

(** ** [src/lib/types.ts] *)

Module types.

Inductive ShapeType := circle | rectangle | line | semicircle | triangle.

(** [PathShapeType] is the same five names. *)
Definition PathShapeType := ShapeType.

Inductive AnimationMode := full | stationary | drift | pulse.

(** The string that an [AnimationMode] is at run time. *)
Definition AnimationMode_string (m : AnimationMode) : string :=
  match m with
  | full => "full"
  | stationary => "stationary"
  | drift => "drift"
  | pulse => "pulse"
  end.

(** The fields that depend on the [type] tag. *)
Inductive Geometry :=
| Circle (radius : Q)
| Rectangle (width height : Q) (cornerRadius : option Q)
| Line (x2 y2 : Q)
| Semicircle (radius : Q)
| Triangle (size : Q).

Record Shape := mkShape {
  x : Q;
  y : Q;
  rotation : Q;
  fill : option string;
  stroke : option string;
  strokeWidth : option Q;
  geometry : Geometry
}.

Definition type (s : Shape) : ShapeType :=
  match geometry s with
  | Circle _ => circle
  | Rectangle _ _ _ => rectangle
  | Line _ _ => line
  | Semicircle _ => semicircle
  | Triangle _ => triangle
  end.

Inductive Role := anchor | accent | texture.

Record RoleShape := mkRoleShape {
  shape : Shape;
  role : Role
}.

Record Controls := mkControls {
  structure : Q;
  density : Q;
  scale : Q;
  chaos : Q;
  motion : Q;
  paletteVariation : Q;
  pathShape : PathShapeType;
  animationMode : AnimationMode;
  flowAngle : Q
}.

Record Palette := mkPalette {
  name : string;
  background : string;
  anchors : list string;   (* the field [anchor] *)
  accents : list string;   (* the field [accent] *)
  textures : list string   (* the field [texture] *)
}.

Definition Role_eqb (a b : Role) : bool :=
  match a, b with
  | anchor, anchor | accent, accent | texture, texture => true
  | _, _ => false
  end.

End types.

(** ** [src/lib/shapes.ts] *)

Module shapes.
Import types.

(** The [options] argument of the constructors, restricted to the keys
    that the callers pass; [None] is an absent (or [undefined]) key. *)
Record Options := mkOptions {
  o_fill : option string;
  o_stroke : option string;
  o_strokeWidth : option Q;
  o_rotation : option Q;
  o_cornerRadius : option Q
}.

Definition noOptions : Options := mkOptions None None None None None.

(** [{ type, x, y, ..., rotation: 0, ...options }] *)
Definition build (x y : Q) (g : Geometry) (o : Options) : Shape :=
  mkShape x y
    (match o_rotation o with Some r => r | None => 0 end)
    (o_fill o) (o_stroke o) (o_strokeWidth o) g.

Definition createCircle (x y radius : Q) (options : Options) : Shape :=
  build x y (Circle radius) options.

Definition createRectangle (x y width height : Q) (options : Options)
  : Shape :=
  build x y (Rectangle width height (o_cornerRadius options)) options.

Definition createLine (x y x2 y2 : Q) (options : Options) : Shape :=
  build x y (Line x2 y2) options.

Definition createSemicircle (x y radius : Q) (options : Options) : Shape :=
  build x y (Semicircle radius) options.

Definition createTriangle (x y size : Q) (options : Options) : Shape :=
  build x y (Triangle size) options.

End shapes.

(** ** [src/lib/fontPaths.ts] *)

Module fontPaths.

Record PathPoint := mkPoint { px : Q; py : Q }.

Record LetterBound := mkBound { bx : Q; bwidth : Q }.

(** The glyph table [fontPaths] is generated data that is not part of the
    sources; it is a parameter.  [None] is a character without an entry. *)
Class FontTable : Type := fontPaths : ascii -> option (list PathPoint).

(** [for (let j = 0; j < path.length; j += sampleRate)]: the elements at
    the multiples of [sampleRate]; [skip] counts down to the next one. *)
Fixpoint sample {A} (sampleRate skip : nat) (path : list A) : list A :=
  match path with
  | [] => []
  | p :: rest =>
      match skip with
      | O => p :: sample sampleRate (sampleRate - 1) rest
      | S k => sample sampleRate k rest
      end
  end.

Section WithTable.
Context {F : FontTable}.

(** The body of the loop over the letters, from letter [i] on. *)
Fixpoint letters (upperText : string) (i : Z)
  (startX startY letterWidth letterHeight letterSpacing : Q)
  (sampleRate : nat) : list PathPoint * list LetterBound :=
  match upperText with
  | EmptyString => ([], [])
  | String char rest =>
      let letterX := startX + inject_Z i * (letterWidth + letterSpacing) in
      let here :=
        match fontPaths char with
        | Some letterPath =>
            map (fun point =>
                   mkPoint (letterX + px point * letterWidth)
                           (startY + py point * letterHeight))
                (sample sampleRate 0 letterPath)
        | None => []
        end in
      let (points, bounds) :=
        letters rest (i + 1)%Z startX startY letterWidth letterHeight
          letterSpacing sampleRate in
      (here ++ points, mkBound letterX letterWidth :: bounds)
  end.

Definition getTextPathPoints (text : string)
  (canvasWidth canvasHeight density : Q)
  : list PathPoint * list LetterBound :=
  let upperText := js.toUpperCase text in
  let len := inject_Z (Z.of_nat (String.length upperText)) in
  if (String.length upperText =? 0)%nat then ([], [])
  else
    let padding := canvasWidth * 0.08 in
    let availableWidth := canvasWidth - padding * 2 in
    let letterWidth := Qmin (availableWidth / len) (canvasHeight * 0.6) in
    let letterHeight := letterWidth * 1.2 in
    let letterSpacing := letterWidth * 0.1 in
    let totalWidth := len * letterWidth + (len - 1) * letterSpacing in
    let startX := (canvasWidth - totalWidth) / 2 in
    let startY := (canvasHeight - letterHeight) / 2 in
    let sampleRate :=
      Z.max 1 (js.floor ((100 - density) / 15) + 1)%Z in
    letters upperText 0 startX startY letterWidth letterHeight
      letterSpacing (Z.to_nat sampleRate).

End WithTable.
End fontPaths.

(** ** [src/lib/generator.ts] *)

Module generator.
Import types shapes fontPaths random randomUtils.
Local Open Scope gen_scope.

Record GeneratorConfig := mkConfig {
  width : Q;
  height : Q;
  controls : Controls;
  palette : Palette;
  seed : Z;
  text : option string
}.

(** [varyColor(c, ...)] where [c] may be [undefined]: reading [c.slice]
    throws. *)
Definition varyColor_opt (c : option string) (variation : Q) (seed : Z)
  : Gen string :=
  match c with
  | Some baseColor => ret (palettes.varyColor baseColor variation seed)
  | None => throw
  end.

Section WithMath.
Context {M : js.JsMath} {F : FontTable}.

Definition createShapeAtPoint (x y size : Q) (shapeType : PathShapeType)
  (color : string) (rotation : Q) (nextPoint : option PathPoint)
  (flowAngle : option Q) : Shape :=
  let flowRad :=
    match flowAngle with
    | Some a => Some ((a * js.PI) / 180)
    | None => None
    end in
  match shapeType with
  | circle =>
      createCircle x y size
        (mkOptions (Some color) None None (Some rotation) None)
  | semicircle =>
      let semiRotation :=
        match flowRad, flowAngle with
        | Some _, Some a => a
        | _, _ => rotation
        end in
      createSemicircle x y size
        (mkOptions (Some color) None None (Some semiRotation) None)
  | triangle =>
      let triRotation :=
        match flowRad, flowAngle with
        | Some _, Some a => a
        | _, _ => rotation
        end in
      createTriangle x y (size * 2)
        (mkOptions (Some color) None None (Some triRotation) None)
  | rectangle =>
      createRectangle x y (size * 1.8) (size * 1.8)
        (mkOptions (Some color) None None (Some rotation) None)
  | line =>
      let angle :=
        match flowRad with
        | Some r => r
        | None =>
            match nextPoint with
            | Some n => js.atan2 (py n - y) (px n - x)
            | None => rotation * (js.PI / 180)
            end
        end in
      let length := size * 2.5 in
      createLine x y (x + js.cos angle * length) (y + js.sin angle * length)
        (mkOptions None (Some color) (Some (Qmax 2 (size * 0.3))) None None)
  end.

(** The loop of [generateTextComposition], from point [i] on;
    [points] is the rest of the path, so its head is [points[i]] and the
    head of its tail is [points[i + 1]]. *)
Fixpoint textShapes (config : GeneratorConfig) (size chaosOffset : Q)
  (i : Z) (points : list PathPoint) : Gen (list RoleShape) :=
  match points with
  | [] => ret []
  | point :: rest =>
      let c := controls config in
      let p := palette config in
      g1 <- gaussian ;;
      let offsetX := g1 * chaosOffset in
      g2 <- gaussian ;;
      let offsetY := g2 * chaosOffset in
      let x := px point + offsetX in
      let y := py point + offsetY in
      r <- range (-30) 30 ;;
      let rotation := r * (chaos c / 100) in
      let colorIndex := js.rem i (Z.of_nat (List.length (anchors p))) in
      color <- varyColor_opt
                 (if (List.length (anchors p) =? 0)%nat then None
                  else nth_error (anchors p) (Z.to_nat colorIndex))
                 (paletteVariation c) (seed config + i) ;;
      let nextPoint := hd_error rest in
      let orientFlowAngle :=
        match animationMode c with
        | drift => Some (flowAngle c)
        | _ => None
        end in
      let s := createShapeAtPoint x y size (pathShape c) color rotation
                 nextPoint orientFlowAngle in
      more <- textShapes config size chaosOffset (i + 1) rest ;;
      ret (mkRoleShape s anchor :: more)
  end.

Definition generateTextComposition (config : GeneratorConfig)
  : option (list RoleShape) :=
  let rng := createRandom (seed config) in
  match text config with
  | None => Some []
  | Some EmptyString => Some []
  | Some txt =>
      let (points, _) :=
        getTextPathPoints txt (width config) (height config)
          (density (controls config)) in
      if (List.length points =? 0)%nat then Some []
      else
        let baseSize := Qmin (width config) (height config) * 0.025 in
        let size := baseSize * (0.1 + (scale (controls config) / 100) * 2.0) in
        let chaosOffset := (chaos (controls config) / 100) * size * 2 in
        option_map fst (textShapes config size chaosOffset 0 points rng)
  end.

Definition anchorCount (c : Controls) : Z :=
  Z.max 1 (js.floor (1 + (density c / 100) * 3)).

Definition generateAnchors (width height : Q) (c : Controls) (p : Palette)
  (seed : Z) : Gen (list RoleShape) :=
  let count := anchorCount c in
  let baseSize := Qmin width height * 0.15 in
  let sizeMultiplier := 0.5 + (scale c / 100) * 1.5 in
  let size := baseSize * sizeMultiplier in
  let useGrid := js.gtb (structure c) 50 in
  let gridSize := js.ceil (js.sqrt (inject_Z (count + 2))) in
  forLoop (Z.to_nat count) 0 (fun i =>
    '(x, y) <-
      (if useGrid then
         let col := js.rem i gridSize in
         let row := js.floor (inject_Z i / inject_Z gridSize) in
         let cellW := width / inject_Z gridSize in
         let cellH := height / inject_Z gridSize in
         let x := cellW * (inject_Z col + 0.5) in
         let y := cellH * (inject_Z row + 0.5) in
         let chaosAmount := (chaos c / 100) * cellW * 0.4 in
         g1 <- gaussian ;;
         g2 <- gaussian ;;
         ret (x + g1 * chaosAmount, y + g2 * chaosAmount)
       else
         let margin := size in
         x <- range margin (width - margin) ;;
         y <- range margin (height - margin) ;;
         ret (x, y)) ;;
    shapeType <- pick [circle; rectangle; circle] ;;
    base <- pick (anchors p) ;;
    color <- varyColor_opt base (paletteVariation c) (seed + i) ;;
    rotation <-
      (if js.gtb (chaos c) 30
       then r <- range (-45) 45 ;; ret (r * (chaos c / 100))
       else ret 0) ;;
    s <-
      (match shapeType with
       | Some circle =>
           r <- range 0.6 1.0 ;;
           let radius := size * r in
           ret (createCircle x y radius
                  (mkOptions (Some color) None None (Some rotation) None))
       | _ =>
           rw <- range 0.8 1.5 ;;
           let w := size * rw in
           rh <- range 0.8 1.5 ;;
           let h := size * rh in
           round <- chance 0.6 ;;
           ret (createRectangle x y w h
                  (mkOptions (Some color) None None (Some rotation)
                     (Some (if round then size * 0.1 else 0))))
       end) ;;
    ret (mkRoleShape s anchor)).

Definition accentCount (c : Controls) : Z :=
  js.floor ((density c / 100) * 15).

Definition generateAccents (width height : Q) (c : Controls) (p : Palette)
  (anchorShapes : list RoleShape) (seed : Z) : Gen (list RoleShape) :=
  let count := accentCount c in
  let baseSize := Qmin width height * 0.06 in
  let sizeMultiplier := 0.5 + (scale c / 100) * 1.0 in
  let size := baseSize * sizeMultiplier in
  forLoop (Z.to_nat count) 0 (fun i =>
    '(x0, y0) <-
      (if js.gtb (structure c) 60
          && (0 <? List.length anchorShapes)%nat
       then
         picked <- pick anchorShapes ;;
         match picked with
         | None => throw
         | Some a =>
             angle <- range 0 (js.PI * 2) ;;
             d <- range 2 5 ;;
             let distance := size * d in
             ret (x (shape a) + js.cos angle * distance,
                  y (shape a) + js.sin angle * distance)
         end
       else
         x <- range size (width - size) ;;
         y <- range size (height - size) ;;
         ret (x, y)) ;;
    '(x, y) <-
      (if js.gtb (chaos c) 20
       then
         let drift := size * (chaos c / 100) * 2 in
         g1 <- gaussian ;;
         g2 <- gaussian ;;
         ret (x0 + g1 * drift, y0 + g2 * drift)
       else ret (x0, y0)) ;;
    base <- pick (accents p) ;;
    color <- varyColor_opt base (paletteVariation c) (seed + i + 100) ;;
    r <- range (-30) 30 ;;
    let rotation := r * (chaos c / 100) in
    shapeType <- pick [circle; rectangle; line] ;;
    s <-
      (match shapeType with
       | Some circle =>
           k <- range 0.4 0.8 ;;
           hasFill <- chance 0.7 ;;
           hasStroke <- chance 0.5 ;;
           ret (createCircle x y (size * k)
                  (mkOptions (if hasFill then Some color else None)
                     (if hasStroke then Some color else None)
                     (Some 2) (Some rotation) None))
       | Some rectangle =>
           kw <- range 0.5 1.5 ;;
           kh <- range 0.5 1.5 ;;
           hasFill <- chance 0.6 ;;
           hasStroke <- chance 0.4 ;;
           round <- chance 0.5 ;;
           ret (createRectangle x y (size * kw) (size * kh)
                  (mkOptions (if hasFill then Some color else None)
                     (if hasStroke then Some color else None)
                     (Some 2) (Some rotation)
                     (Some (if round then size * 0.15 else 0))))
       | _ =>
           k <- range 1 3 ;;
           let length := size * k in
           angle <- range 0 (js.PI * 2) ;;
           sw <- range 1 3 ;;
           ret (createLine x y (x + js.cos angle * length)
                  (y + js.sin angle * length)
                  (mkOptions None (Some color) (Some sw) None None))
       end) ;;
    ret (mkRoleShape s accent)).

Definition textureCount (c : Controls) : Z :=
  js.floor (((density c - 40) / 60) * 50).

Definition generateTexture (width height : Q) (c : Controls) (p : Palette)
  : Gen (list RoleShape) :=
  if js.ltb (density c) 40 then ret []
  else
    let count := textureCount c in
    let baseSize := Qmin width height * 0.015 in
    let size := baseSize * (0.5 + (scale c / 100) * 0.5) in
    forLoop (Z.to_nat count) 0 (fun i =>
      x <- range 0 width ;;
      y <- range 0 height ;;
      color <- pick (textures p) ;;
      shapeType <- pick [circle; line; circle] ;;
      s <-
        (match shapeType with
         | Some circle =>
             k <- range 0.3 1.0 ;;
             ret (createCircle x y (size * k)
                    (mkOptions color None None None None))
         | _ =>
             k <- range 2 6 ;;
             let length := size * k in
             angle <-
               (if js.gtb (structure c) 50
                then
                  a <- pick [0; js.PI / 2; js.PI / 4; - js.PI / 4] ;;
                  ret (match a with Some v => v | None => 0 end)
                else range 0 (js.PI * 2)) ;;
             ret (createLine x y (x + js.cos angle * length)
                    (y + js.sin angle * length)
                    (mkOptions None color (Some 1) None None))
         end) ;;
      ret (mkRoleShape s texture)).

(** The free-form branch of [generateComposition]: one stream, three
    phases in order. *)
Definition freeForm (config : GeneratorConfig) : Gen (list RoleShape) :=
  let c := controls config in
  let p := palette config in
  a <- generateAnchors (width config) (height config) c p (seed config) ;;
  b <- generateAccents (width config) (height config) c p a
         (seed config) ;;
  t <- generateTexture (width config) (height config) c p ;;
  ret (a ++ b ++ t).

(** [text && text.trim().length > 0] *)
Definition textMode (config : GeneratorConfig) : bool :=
  match text config with
  | None => false
  | Some txt =>
      negb (String.eqb txt "")
      && (0 <? String.length (js.trim txt))%nat
  end.

Definition generateComposition (config : GeneratorConfig)
  : option (list RoleShape) :=
  if textMode config then generateTextComposition config
  else option_map fst (freeForm config (createRandom (seed config))).

End WithMath.
End generator.

(** ** [src/lib/animation.ts] *)

Module animation.
Import types.

Record AnimatedShape := mkAnimated {
  base : RoleShape;
  vx : Q;
  vy : Q;
  vRotation : Q;
  pulsePhase : Q;
  pulseSpeed : Q;
  originalRadius : option Q;
  originalWidth : option Q;
  originalHeight : option Q;
  originalSize : option Q;
  wobblePhase : Q;
  wobbleSpeed : Q;
  wobbleAmount : Q;
  wobbleX : option Q;
  wobbleY : option Q
}.

(** The closure [random] of [addAnimationProperties]: the state is the
    variable [s]. *)
Definition random (s : Z) : Q * Z :=
  let s' := js.rem (s * 9301 + 49297) 233280 in
  (inject_Z s' / 233280, s').

(** [for (let j = 0; j < i; j++) random();] *)
Fixpoint advance (i : nat) (s : Z) : Z :=
  match i with
  | O => s
  | S j => advance j (snd (random s))
  end.

Definition roleMultiplier (r : Role) : Q :=
  match r with
  | anchor => 0.3
  | accent => 0.7
  | texture => 1.0
  end.

Section WithMath.
Context {M : js.JsMath}.

(** The callback of [shapes.map]: shape [sh] at index [i], entered with
    state [s]. *)
Definition animate (chaos motion : Q) (stationaryMode : bool)
  (sh : RoleShape) (i : nat) (s : Z) : AnimatedShape * Z :=
  let motionMultiplier := motion / 100 in
  let s0 := advance i s in
  let chaosMultiplier := chaos / 100 in
  let roleMul := roleMultiplier (role sh) in
  let velocityScale := if stationaryMode then 0 else 1 in
  let (r1, s1) := random s0 in
  let (r2, s2) := random s1 in
  let (r3, s3) := random s2 in
  let (r4, s4) := random s3 in
  let (r5, s5) := random s4 in
  let (r6, s6) := random s5 in
  let (r7, s7) := random s6 in
  let (r8, s8) := random s7 in
  let g := geometry (shape sh) in
  (mkAnimated sh
     ((r1 - 0.5) * 3 * chaosMultiplier * roleMul * motionMultiplier
      * velocityScale)
     ((r2 - 0.5) * 3 * chaosMultiplier * roleMul * motionMultiplier
      * velocityScale)
     ((r3 - 0.5) * 3 * chaosMultiplier * roleMul * motionMultiplier
      * (if stationaryMode then 0.3 else 1))
     (r4 * js.PI * 2)
     ((0.02 + r5 * 0.04) * motionMultiplier)
     (match g with
      | Circle radius | Semicircle radius => Some radius
      | _ => None
      end)
     (match g with Rectangle w _ _ => Some w | _ => None end)
     (match g with Rectangle _ h _ => Some h | _ => None end)
     (match g with Triangle size => Some size | _ => None end)
     (r6 * js.PI * 2)
     ((0.015 + r7 * 0.03) * motionMultiplier)
     ((if stationaryMode then 4 else 8)
      + r8 * (if stationaryMode then 8 else 15) * chaosMultiplier
        * motionMultiplier)
     None None,
   s8).

Fixpoint animateFrom (chaos motion : Q) (stationaryMode : bool)
  (shapes : list RoleShape) (i : nat) (s : Z) : list AnimatedShape :=
  match shapes with
  | [] => []
  | sh :: rest =>
      let (a, s') := animate chaos motion stationaryMode sh i s in
      a :: animateFrom chaos motion stationaryMode rest (S i) s'
  end.

(** [stationaryMode] is declared [boolean = false]; what is tested is the
    truthiness of whatever the caller passed. *)
Definition addAnimationProperties (shapes : list RoleShape)
  (chaos motion : Q) (seed : Z) (stationaryMode : js.value)
  : list AnimatedShape :=
  animateFrom chaos motion (js.to_boolean stationaryMode) shapes 0 seed.

Definition setPosition (sh : Shape) (x' y' rotation' : Q) (g : Geometry)
  : Shape :=
  mkShape x' y' rotation' (fill sh) (stroke sh) (strokeWidth sh) g.

(** The pulse applied to the size fields of the shape's kind. *)
Definition pulseGeometry (a : AnimatedShape) (pulseFactor : Q)
  : Geometry :=
  match geometry (shape (base a)) with
  | Circle radius =>
      match originalRadius a with
      | Some o => if js.truthy o then Circle (o * pulseFactor)
                  else Circle radius
      | None => Circle radius
      end
  | Semicircle radius =>
      match originalRadius a with
      | Some o => if js.truthy o then Semicircle (o * pulseFactor)
                  else Semicircle radius
      | None => Semicircle radius
      end
  | Rectangle w h cr =>
      match originalWidth a, originalHeight a with
      | Some ow, Some oh =>
          if js.truthy ow && js.truthy oh
          then Rectangle (ow * pulseFactor) (oh * pulseFactor) cr
          else Rectangle w h cr
      | _, _ => Rectangle w h cr
      end
  | Triangle size =>
      match originalSize a with
      | Some o => if js.truthy o then Triangle (o * pulseFactor)
                  else Triangle size
      | None => Triangle size
      end
  | Line x2 y2 => Line x2 y2
  end.

(** The body of the loop of [updateAnimatedShapes] on one shape. *)
Definition updateShape (width height dt : Q) (a : AnimatedShape)
  : AnimatedShape :=
  let sh := shape (base a) in
  let x1 := x sh + vx a * dt in
  let y1 := y sh + vy a * dt in
  let wobblePhase' := wobblePhase a + wobbleSpeed a * dt in
  let wobbleX' := js.sin wobblePhase' * wobbleAmount a in
  let wobbleY' := js.cos (wobblePhase' * 1.3) * wobbleAmount a in
  let padding := 50 in
  let hitX := js.ltb x1 padding || js.gtb x1 (width - padding) in
  let vx' := if hitX then vx a * -1 else vx a in
  let x2 := if hitX then Qmax padding (Qmin (width - padding) x1) else x1 in
  let hitY := js.ltb y1 padding || js.gtb y1 (height - padding) in
  let vy' := if hitY then vy a * -1 else vy a in
  let y2 := if hitY then Qmax padding (Qmin (height - padding) y1) else y1 in
  let rotation' := rotation sh + vRotation a * dt in
  let pulsePhase' := pulsePhase a + pulseSpeed a * dt in
  let pulseFactor := 1 + js.sin pulsePhase' * 0.15 in
  mkAnimated
    (mkRoleShape (setPosition sh x2 y2 rotation'
                    (pulseGeometry a pulseFactor))
       (role (base a)))
    vx' vy' (vRotation a) pulsePhase' (pulseSpeed a)
    (originalRadius a) (originalWidth a) (originalHeight a)
    (originalSize a)
    wobblePhase' (wobbleSpeed a) (wobbleAmount a)
    (Some wobbleX') (Some wobbleY').

(** [updateAnimatedShapes] mutates every element of [shapes] in place;
    the elements are distinct objects, so the effect is a map. *)
Definition updateAnimatedShapes (shapes : list AnimatedShape)
  (width height deltaTime : Q) : list AnimatedShape :=
  let dt := deltaTime * 0.06 in
  map (updateShape width height dt) shapes.

(** The shape after the ticks [ticks], each a triple
    [(width, height, deltaTime)], oldest first. *)
Fixpoint ticks (ts : list (Q * Q * Q)) (shapes : list AnimatedShape)
  : list AnimatedShape :=
  match ts with
  | [] => shapes
  | (w, h, deltaTime) :: rest =>
      ticks rest (updateAnimatedShapes shapes w h deltaTime)
  end.

End WithMath.
End animation.

(** ** [src/components/Canvas.tsx] *)

Module Canvas.
Import types fontPaths generator animation.

Section WithMath.
Context {M : js.JsMath} {F : FontTable}.

(** The effect that regenerates [shapesRef.current]: the fifth argument
    of [addAnimationProperties] is [controls.animationMode] (the sixth,
    [controls.flowAngle], has no parameter to land in). *)
Definition regenerate (c : Controls) (p : Palette)
  (canvasWidth canvasHeight : Q) (seed : Z) (text : string)
  : option (list AnimatedShape) :=
  match generateComposition
          (mkConfig canvasWidth canvasHeight c p seed (Some text)) with
  | Some baseShapes =>
      Some (addAnimationProperties baseShapes (chaos c) (motion c) seed
              (js.VString (AnimationMode_string (animationMode c))))
  | None => None
  end.

End WithMath.
End Canvas.

(** ** Instances for running the program

    Coarse rational stand-ins for the transcendental part of [Math] and a
    two-letter glyph table.  No theorem depends on their accuracy: they only
    make the definitions above run on concrete inputs. *)

Module reference.
Import fontPaths.

Definition newton (q g : Q) : Q := Qred ((g + q / g) / 2).

Definition approxSqrt (q : Q) : Q :=
  if Qle_bool q 0 then 0
  else newton q (newton q (newton q ((q + 1) / 2))).

Definition approxLog (q : Q) : Q :=
  if Qle_bool q 0 then 0 else Qred (2 * ((q - 1) / (q + 1))).

Definition clamp1 (q : Q) : Q := Qmax (-1) (Qmin 1 q).

Definition approxSin (q : Q) : Q := clamp1 (Qred (q - q * q * q / 6)).

Definition approxCos (q : Q) : Q := clamp1 (Qred (1 - q * q / 2)).

Definition approxAtan2 (b a : Q) : Q := Qred (b / (1 + Qabs a + Qabs b)).

#[export] Instance approxMath : js.JsMath := {|
  js.PI := 355 # 113;
  js.sqrt := approxSqrt;
  js.log := approxLog;
  js.sin := approxSin;
  js.cos := approxCos;
  js.atan2 := approxAtan2
|}.

(** A bar for [I], two bars and a bridge for [H], nothing for the space. *)
Definition glyphI : list PathPoint :=
  [mkPoint 0 0; mkPoint 0 0.25; mkPoint 0 0.5; mkPoint 0 0.75; mkPoint 0 1].

Definition glyphH : list PathPoint :=
  [mkPoint 0 0; mkPoint 0 0.5; mkPoint 0 1; mkPoint 0.4 0.5;
   mkPoint 0.8 0; mkPoint 0.8 0.5; mkPoint 0.8 1].

#[export] Instance sampleTable : FontTable := fun c =>
  if Ascii.eqb c "I" then Some glyphI
  else if Ascii.eqb c "H" then Some glyphH
  else if Ascii.eqb c " " then Some []
  else None.

(** [palettes[0]] of [palettes.ts] and [defaultControls] of [page.tsx]. *)
Definition aurora : types.Palette :=
  types.mkPalette "Aurora" "#0d1117"
    ["#58a6ff"; "#39d353"; "#a371f7"]%string
    ["#388bfd"; "#2ea043"; "#8b5cf6"]%string
    ["#1f6feb33"; "#23863533"; "#6e40c933"]%string.

Definition defaultControls : types.Controls :=
  types.mkControls 50 60 50 30 60 30 types.circle types.full 0.

(** The default controls at another density, path shape and mode. *)
Definition controlsAt (d : Q) (k : types.PathShapeType)
  (m : types.AnimationMode) : types.Controls :=
  types.mkControls 50 d 50 30 60 30 k m 90.

(** The 800 by 800 canvas with the first palette and seed 1. *)
Definition configAt (c : types.Controls) (text : option string)
  : generator.GeneratorConfig :=
  generator.mkConfig 800 800 c aurora 1 text.

End reference.

(** ** Vocabulary of the specification *)

Module spec.
Import types animation.

(** A colour of the form [#rrggbb]. *)
Definition isHexDigit (c : ascii) : bool :=
  match js.hexDigitValue c with Some _ => true | None => false end.

Definition isLowerHexDigit (c : ascii) : bool :=
  let n := nat_of_ascii c in
  ((48 <=? n) && (n <=? 57) || (97 <=? n) && (n <=? 102))%nat.

Fixpoint allChars (f : ascii -> bool) (s : string) : bool :=
  match s with
  | String c r => f c && allChars f r
  | EmptyString => true
  end.

Definition isHexColor (s : string) : bool :=
  match s with
  | String "#" r => (String.length r =? 6)%nat && allChars isHexDigit r
  | _ => false
  end.

Definition isLowerHexColor (s : string) : bool :=
  match s with
  | String "#" r => (String.length r =? 6)%nat && allChars isLowerHexDigit r
  | _ => false
  end.

(** [toLowerCase] on the letters A-Z. *)
Definition lowerChar (c : ascii) : ascii :=
  let n := nat_of_ascii c in
  if ((65 <=? n) && (n <=? 90))%nat then ascii_of_nat (n + 32) else c.

Fixpoint toLowerCase (s : string) : string :=
  match s with
  | String c r => String (lowerChar c) (toLowerCase r)
  | EmptyString => EmptyString
  end.

(** Text made of white space only (the empty text included). *)
Definition whitespaceOnly (s : string) : bool := allChars js.isWhiteSpace s.

(** Number of shapes of a role. *)
Definition countRole (r : Role) (l : list RoleShape) : nat :=
  List.length (filter (fun s => Role_eqb (role s) r) l).

Definition hasRole (r : Role) (l : list RoleShape) : Prop :=
  exists s, In s l /\ role s = r.

(** The inset box of [updateAnimatedShapes]. *)
Definition inBox (w h : Q) (a : AnimatedShape) : Prop :=
  50 <= x (shape (base a)) <= w - 50 /\
  50 <= y (shape (base a)) <= h - 50.


(** [lo * o <= v <= hi * o] with the pulse factors. *)
Definition within (o v : Q) : Prop := 0.85 * o <= v <= 1.15 * o.

(** The size fields of a shape with a positive baseline are in the pulse
    band of that baseline. *)
Definition pulseBounded (a : AnimatedShape) : Prop :=
  match geometry (shape (base a)) with
  | Circle r | Semicircle r =>
      forall o, originalRadius a = Some o -> 0 < o -> within o r
  | Rectangle w h _ =>
      forall ow oh, originalWidth a = Some ow -> originalHeight a = Some oh ->
                    0 < ow -> 0 < oh -> within ow w /\ within oh h
  | Triangle s =>
      forall o, originalSize a = Some o -> 0 < o -> within o s
  | Line _ _ => True
  end.

Definition isLine (a : AnimatedShape) : Prop :=
  type (shape (base a)) = line.

(** *** Finite tables behind the colour proofs *)

Definition hexChars : list ascii :=
  list_ascii_of_string "0123456789abcdefABCDEF".

Definition digitValue (c : ascii) : Z :=
  match js.hexDigitValue c with Some d => d | None => 0 end.

Definition byteOf (a b : ascii) : Z := (16 * digitValue a + digitValue b)%Z.

Definition pairOk (a b : ascii) : bool :=
  match js.parseInt16 (String a (String b "")) with
  | Some v =>
      (v =? byteOf a b)%Z && (0 <=? v)%Z && (v <=? 255)%Z
      && String.eqb (palettes.hex2 (Some v)) (String (lowerChar a) (String (lowerChar b) ""))
  | None => false
  end.

Definition bytes : list Z := map Z.of_nat (seq 0 256).

Definition byteOk (n : Z) : bool :=
  match palettes.hex2 (Some n) with
  | String a (String b EmptyString) => isLowerHexDigit a && isLowerHexDigit b
  | _ => false
  end.

(** *** Assertions on generator computations *)

(** [m] returns from every state, with a result that satisfies [P]. *)
Definition always {A} (P : A -> Prop) (m : random.Gen A) : Prop :=
  forall t, exists a t', m t = Some (a, t') /\ P a.

(** Whenever [m] returns, its result satisfies [P]. *)
Definition ensures {A} (P : A -> Prop) (m : random.Gen A) : Prop :=
  forall t a t', m t = Some (a, t') -> P a.

End spec.


(** ** More vocabulary: shapes of the text mode *)

Module textspec.
Import types shapes fontPaths generator.

Definition isRole (r : Role) (s : RoleShape) : Prop := role s = r.

(** The flow angle that [generateTextComposition] hands to
    [createShapeAtPoint]. *)
Definition orientFlowAngle (c : Controls) : option Q :=
  match animationMode c with
  | drift => Some (flowAngle c)
  | _ => None
  end.

(** The rotation jitter of the text mode for the draw [u]. *)
Definition jitter (c : Controls) (u : Q) : Q :=
  (-30 + u * (30 - -30)) * (chaos c / 100).

(** [s] is a shape that the text loop builds with size [size]. *)
Definition textShapeAt {M : js.JsMath} (config : GeneratorConfig) (size : Q)
  (s : RoleShape) : Prop :=
  exists x y color u next,
    0 <= u /\ u < 1 /\
    s = mkRoleShape
          (createShapeAtPoint x y size (pathShape (controls config)) color
             (jitter (controls config) u) next
             (orientFlowAngle (controls config)))
          anchor.

Definition textSize (config : GeneratorConfig) : Q :=
  Qmin (width config) (height config) * 0.025
  * (0.1 + (scale (controls config) / 100) * 2.0).

(** The table has no point for a white-space character. *)
Definition blankWhiteSpace (F : FontTable) : Prop :=
  forall c, js.isWhiteSpace c = true ->
            fontPaths c = None \/ fontPaths c = Some [].

End textspec.


(** ** More vocabulary: one shape through a run of ticks *)

Module tickspec.
Import types animation.

(** What [ticks] does to one element of the array. *)
Fixpoint tickShape {M : js.JsMath} (ts : list (Q * Q * Q)) (a : AnimatedShape)
  : AnimatedShape :=
  match ts with
  | [] => a
  | (w, h, deltaTime) :: rest =>
      tickShape rest (updateShape w h (deltaTime * 0.06) a)
  end.


(** A line keeps its kind and its second end point. *)
Definition lineKept (a a' : AnimatedShape) : Prop :=
  spec.isLine a ->
  spec.isLine a' /\ geometry (shape (base a')) = geometry (shape (base a)).

End tickspec.


(** ** [src/lib/palettes.ts]: the palette and preset tables *)

Module paletteTable.
Import types.

Definition palettes : list Palette :=
  [ mkPalette "Aurora" "#0d1117"
      ["#58a6ff"; "#39d353"; "#a371f7"]%string
      ["#388bfd"; "#2ea043"; "#8b5cf6"]%string
      ["#1f6feb33"; "#23863533"; "#6e40c933"]%string;
    mkPalette "Sunset" "#1a1a2e"
      ["#ff6b6b"; "#feca57"; "#ff9ff3"]%string
      ["#ee5a5a"; "#f8b739"; "#f368e0"]%string
      ["#ff6b6b33"; "#feca5733"; "#ff9ff333"]%string;
    mkPalette "Ocean" "#0c1821"
      ["#00b4d8"; "#0077b6"; "#90e0ef"]%string
      ["#0096c7"; "#005f73"; "#48cae4"]%string
      ["#00b4d833"; "#0077b633"; "#90e0ef33"]%string;
    mkPalette "Forest" "#1b2e1b"
      ["#95d5b2"; "#40916c"; "#74c69d"]%string
      ["#52b788"; "#2d6a4f"; "#b7e4c7"]%string
      ["#95d5b233"; "#40916c33"; "#74c69d33"]%string;
    mkPalette "Mono" "#111111"
      ["#ffffff"; "#e0e0e0"; "#c0c0c0"]%string
      ["#a0a0a0"; "#808080"; "#d0d0d0"]%string
      ["#ffffff22"; "#e0e0e022"; "#c0c0c022"]%string ].

(** [CanvasPreset] of [types.ts]. *)
Record CanvasPreset := mkPreset {
  presetName : string;   (* the field [name] *)
  presetWidth : Q;       (* the field [width] *)
  presetHeight : Q;      (* the field [height] *)
  ratio : string
}.

Definition canvasPresets : list CanvasPreset :=
  [ mkPreset "Square" 800 800 "1:1";
    mkPreset "Landscape" 1200 675 "16:9";
    mkPreset "Portrait" 675 1200 "9:16";
    mkPreset "Classic" 1000 750 "4:3";
    mkPreset "Wide" 1200 500 "12:5" ].

(** [palettes.find((p) => p.name === name) || palettes[0]]; [None] would be
    [undefined]. *)
Definition getPalette (n : string) : option Palette :=
  match find (fun p => String.eqb (name p) n) palettes with
  | Some p => Some p
  | None => nth_error palettes 0
  end.

End paletteTable.

(** ** [scripts/extract-font-paths.js] *)

Module extractFontPaths.
Import fontPaths.

Definition CURVE_SAMPLES : Z := 8.

Definition MIN_POINT_DISTANCE : Q := 50.

(** The path commands of a glyph outline; a command of another type has no
    case in the switch and is [Other]. *)
Inductive Command :=
| MoveTo (x y : Q)
| LineTo (x y : Q)
| QuadTo (x1 y1 x y : Q)
| CubicTo (x1 y1 x2 y2 x y : Q)
| ClosePath
| Other.

(** [for (let i = 0; i <= n; i++) points.push(f(i))] *)
Definition pushUpTo {A} (n : Z) (f : Z -> A) : list A :=
  if (n <? 0)%Z then []
  else map (fun i => f (Z.of_nat i)) (seq 0 (S (Z.to_nat n))).

Definition sampleQuadratic (x0 y0 x1 y1 x2 y2 : Q) (samples : Z)
  : list PathPoint :=
  pushUpTo samples (fun i =>
    let t := inject_Z i / inject_Z samples in
    let mt := 1 - t in
    mkPoint (mt * mt * x0 + 2 * mt * t * x1 + t * t * x2)
            (mt * mt * y0 + 2 * mt * t * y1 + t * t * y2)).

Definition sampleCubic (x0 y0 x1 y1 x2 y2 x3 y3 : Q) (samples : Z)
  : list PathPoint :=
  pushUpTo samples (fun i =>
    let t := inject_Z i / inject_Z samples in
    let mt := 1 - t in
    mkPoint (mt * mt * mt * x0 + 3 * mt * mt * t * x1 + 3 * mt * t * t * x2
             + t * t * t * x3)
            (mt * mt * mt * y0 + 3 * mt * mt * t * y1 + 3 * mt * t * t * y2
             + t * t * t * y3)).

(** [Math.min] and [Math.max] into an accumulator that starts at an
    infinity: [None] is the infinity. *)
Definition minInto (acc : option Q) (v : Q) : option Q :=
  Some (match acc with Some m => Qmin m v | None => v end).

Definition maxInto (acc : option Q) (v : Q) : option Q :=
  Some (match acc with Some m => Qmax m v | None => v end).

(** The four accumulators after the loop over the points. *)
Definition bounds (points : list PathPoint)
  : option Q * option Q * option Q * option Q :=
  fold_left
    (fun '(minX, maxX, minY, maxY) p =>
       (minInto minX (px p), maxInto maxX (px p),
        minInto minY (py p), maxInto maxY (py p)))
    points (None, None, None, None).

(** [a || 1] on numbers. *)
Definition orOne (a : Q) : Q := if js.truthy a then a else 1.

Definition normalizePoints (points : list PathPoint) : list PathPoint :=
  if (List.length points =? 0)%nat then points
  else
    match bounds points with
    | (Some minX, Some maxX, Some minY, Some maxY) =>
        let width := orOne (maxX - minX) in
        let height := orOne (maxY - minY) in
        let scale := Qmax width height in
        map (fun p => mkPoint ((px p - minX) / scale) ((py p - minY) / scale))
          points
    | _ => points
    end.

(** The rounding of [main]: [Math.round(v * 10000) / 10000]. *)
Definition round4 (v : Q) : Q := inject_Z (js.round (v * 10000)) / 10000.

Section WithMath.
Context {M : js.JsMath}.

Definition interpolateLine (x0 y0 x1 y1 minDistance : Q) : list PathPoint :=
  let dx := x1 - x0 in
  let dy := y1 - y0 in
  let distance := js.sqrt (dx * dx + dy * dy) in
  let numPoints := Z.max 1 (js.ceil (distance / minDistance)) in
  pushUpTo numPoints (fun i =>
    let t := inject_Z i / inject_Z numPoints in
    mkPoint (x0 + dx * t) (y0 + dy * t)).

(** The points pushed for a sampled segment: all but the first, in font
    units divided by [unitsPerEm], the vertical axis flipped. *)
Definition pushScaled (unitsPerEm : Q) (segment : list PathPoint)
  : list PathPoint :=
  map (fun p => mkPoint (px p / unitsPerEm) (1 - py p / unitsPerEm))
    (tl segment).

(** One turn of the loop of [pathToPoints] on the state
    [(currentX, currentY, points)]. *)
Definition pathStep (unitsPerEm : Q) (st : Q * Q * list PathPoint)
  (cmd : Command) : Q * Q * list PathPoint :=
  let '(currentX, currentY, points) := st in
  match cmd with
  | MoveTo x y =>
      (x, y, points ++ [mkPoint (x / unitsPerEm) (1 - y / unitsPerEm)])
  | LineTo x y =>
      (x, y,
       points ++ pushScaled unitsPerEm
                   (interpolateLine currentX currentY x y MIN_POINT_DISTANCE))
  | QuadTo x1 y1 x y =>
      (x, y,
       points ++ pushScaled unitsPerEm
                   (sampleQuadratic currentX currentY x1 y1 x y CURVE_SAMPLES))
  | CubicTo x1 y1 x2 y2 x y =>
      (x, y,
       points ++ pushScaled unitsPerEm
                   (sampleCubic currentX currentY x1 y1 x2 y2 x y
                      CURVE_SAMPLES))
  | ClosePath => st
  | Other => st
  end.

Definition pathToPoints (pathCommands : list Command) (unitsPerEm : Q)
  : list PathPoint :=
  snd (fold_left (pathStep unitsPerEm) pathCommands (0, 0, [])).

(** The entry that [main] stores for a glyph with these commands. *)
Definition glyphEntry (pathCommands : list Command) (unitsPerEm : Q)
  : list PathPoint :=
  map (fun p => mkPoint (round4 (px p)) (round4 (py p)))
    (normalizePoints (pathToPoints pathCommands unitsPerEm)).

End WithMath.
End extractFontPaths.


(** ** The 2D context, as the calls made on it *)

Module ctx.

(** A method call or a property assignment on [CanvasRenderingContext2D],
    in the order the code makes them. *)
Inductive call :=
| save
| restore
| translate (x y : Q)
| rotate (angle : Q)
| beginPath
| closePath
| arc (x y radius startAngle endAngle : Q)
| moveTo (x y : Q)
| lineTo (x y : Q)
| quadraticCurveTo (cpx cpy x y : Q)
| rect (x y w h : Q)
| fill
| stroke
| fillRect (x y w h : Q)
| fillStyle (v : string)
| strokeStyle (v : string)
| lineWidth (v : Q)
| lineCap (v : string)
| shadowColor (v : string)
| shadowBlur (v : Q)
| globalAlpha (v : Q).

(** Truthiness of an optional string: [undefined] and [""] are falsy. *)
Definition truthy (o : option string) : bool :=
  match o with
  | Some s => negb (String.eqb s "")
  | None => false
  end.

(** [o || d] on optional numbers: [undefined] and [0] give [d]. *)
Definition orNumber (o : option Q) (d : Q) : Q :=
  match o with
  | Some q => if js.truthy q then q else d
  | None => d
  end.

(** [o || d] on optional strings. *)
Definition orString (o : option string) (d : string) : string :=
  match o with
  | Some s => if String.eqb s "" then d else s
  | None => d
  end.

(** [if (fill) { fillStyle = fill; fill() }] *)
Definition fillIf (o : option string) : list call :=
  match o with
  | Some s => if String.eqb s "" then [] else [fillStyle s; fill]
  | None => []
  end.

(** [if (stroke) { strokeStyle = stroke; lineWidth = strokeWidth || 2;
    (lineCap = "round";) stroke() }] *)
Definition strokeIf (o : option string) (w : option Q) (cap : bool)
  : list call :=
  match o with
  | Some s =>
      if String.eqb s "" then []
      else [strokeStyle s; lineWidth (orNumber w 2)]
           ++ (if cap then [lineCap "round"] else [])
           ++ [stroke]
  | None => []
  end.

End ctx.

(** ** [src/lib/shapes.ts] and [src/lib/animation.ts]: rendering *)

Module render.
Import types animation.

Section WithMath.
Context {M : js.JsMath}.

Definition renderCircle (sh : Shape) (radius : Q) : list ctx.call :=
  [ctx.beginPath; ctx.arc 0 0 radius 0 (js.PI * 2)]
  ++ ctx.fillIf (fill sh)
  ++ ctx.strokeIf (stroke sh) (strokeWidth sh) true.

Definition renderRectangle (sh : Shape) (width height : Q)
  (cornerRadius : option Q) : list ctx.call :=
  let x := - width / 2 in
  let y := - height / 2 in
  let r := ctx.orNumber cornerRadius 0 in
  [ctx.beginPath]
  ++ (if js.gtb r 0 then
        [ctx.moveTo (x + r) y;
         ctx.lineTo (x + width - r) y;
         ctx.quadraticCurveTo (x + width) y (x + width) (y + r);
         ctx.lineTo (x + width) (y + height - r);
         ctx.quadraticCurveTo (x + width) (y + height) (x + width - r)
           (y + height);
         ctx.lineTo (x + r) (y + height);
         ctx.quadraticCurveTo x (y + height) x (y + height - r);
         ctx.lineTo x (y + r);
         ctx.quadraticCurveTo x y (x + r) y]
      else [ctx.rect x y width height])
  ++ [ctx.closePath]
  ++ ctx.fillIf (fill sh)
  ++ ctx.strokeIf (stroke sh) (strokeWidth sh) true.

Definition renderLine (sh : Shape) (x2 y2 : Q) : list ctx.call :=
  [ctx.beginPath; ctx.moveTo 0 0; ctx.lineTo (x2 - x sh) (y2 - y sh);
   ctx.strokeStyle (ctx.orString (stroke sh) "#ffffff");
   ctx.lineWidth (ctx.orNumber (strokeWidth sh) 2);
   ctx.lineCap "round"; ctx.stroke].

Definition renderSemicircle (sh : Shape) (radius : Q) : list ctx.call :=
  [ctx.beginPath; ctx.arc 0 0 radius 0 js.PI; ctx.closePath]
  ++ ctx.fillIf (fill sh)
  ++ ctx.strokeIf (stroke sh) (strokeWidth sh) false.

Definition renderTriangle (sh : Shape) (size : Q) : list ctx.call :=
  let height := (size * js.sqrt 3) / 2 in
  [ctx.beginPath; ctx.moveTo 0 (- height / 2);
   ctx.lineTo (- size / 2) (height / 2); ctx.lineTo (size / 2) (height / 2);
   ctx.closePath]
  ++ ctx.fillIf (fill sh)
  ++ ctx.strokeIf (stroke sh) (strokeWidth sh) false.

(** [renderShape] of [shapes.ts]: its switch has the cases circle,
    rectangle and line only. *)
Definition renderShape (sh : Shape) : list ctx.call :=
  [ctx.save; ctx.translate (x sh) (y sh);
   ctx.rotate ((rotation sh * js.PI) / 180)]
  ++ match geometry sh with
     | Circle radius => renderCircle sh radius
     | Rectangle w h cr => renderRectangle sh w h cr
     | Line x2 y2 => renderLine sh x2 y2
     | Semicircle _ => []
     | Triangle _ => []
     end
  ++ [ctx.restore].

(** The primitive that [renderAnimatedShape] draws between [rotate] and
    [restore]. *)
Definition primitive (sh : Shape) : list ctx.call :=
  match geometry sh with
  | Circle radius => renderCircle sh radius
  | Rectangle w h cr => renderRectangle sh w h cr
  | Line x2 y2 => renderLine sh x2 y2
  | Semicircle radius => renderSemicircle sh radius
  | Triangle size => renderTriangle sh size
  end.

(** [if (shape.role === "anchor" && shape.fill) { shadowColor; shadowBlur }] *)
Definition glow (a : AnimatedShape) : list ctx.call :=
  match role (base a), fill (shape (base a)) with
  | anchor, Some s =>
      if String.eqb s "" then []
      else [ctx.shadowColor s;
            ctx.shadowBlur (20 + js.sin (pulsePhase a) * 10)]
  | _, _ => []
  end.

(** [renderAnimatedShape] of [animation.ts]. *)
Definition renderAnimatedShape (a : AnimatedShape) : list ctx.call :=
  let sh := shape (base a) in
  let wx := ctx.orNumber (wobbleX a) 0 in
  let wy := ctx.orNumber (wobbleY a) 0 in
  [ctx.save; ctx.translate (x sh + wx) (y sh + wy);
   ctx.rotate ((rotation sh * js.PI) / 180)]
  ++ glow a
  ++ primitive sh
  ++ [ctx.restore].

End WithMath.
End render.

(** ** [src/components/Canvas.tsx]: the animation frame and the display
    size *)

Module CanvasLoop.
Import types animation render.

(** What a frame leaves behind: the shapes after the tick, the new
    [lastTimeRef.current], the calls made on the context, and whether the
    next frame was requested. *)
Record Frame := mkFrame {
  shapesAfter : list AnimatedShape;
  lastTime : Q;
  calls : list ctx.call;
  requested : bool
}.

Definition hasRole (r : Role) (a : AnimatedShape) : bool :=
  Role_eqb (role (base a)) r.

Section WithMath.
Context {M : js.JsMath}.

(** The shapes in the order in which a frame renders them. *)
Definition renderOrder (shapes : list AnimatedShape) : list AnimatedShape :=
  let anchorShapes := filter (hasRole anchor) shapes in
  let accentShapes := filter (hasRole accent) shapes in
  let textureShapes := filter (hasRole texture) shapes in
  textureShapes ++ accentShapes ++ anchorShapes.

(** The callback [animate], with the canvas and its context present. *)
Definition animate (shapes : list AnimatedShape) (canvasWidth canvasHeight : Q)
  (background : string) (motion : Q) (isAnimating : bool)
  (lastTimeRef time : Q) : Frame :=
  let deltaTime := if js.truthy lastTimeRef then time - lastTimeRef else 16 in
  let updated := updateAnimatedShapes shapes canvasWidth canvasHeight
                   deltaTime in
  mkFrame updated time
    ([ctx.fillStyle background;
      ctx.globalAlpha (0.15 + (1 - motion / 100) * 0.3);
      ctx.fillRect 0 0 canvasWidth canvasHeight;
      ctx.globalAlpha 1]
     ++ flat_map renderAnimatedShape (renderOrder updated))
    isAnimating.

End WithMath.

(** The size at which the canvas is displayed:
    [(displayWidth, displayHeight)]. *)
Definition displaySize (presetWidth presetHeight : Q) : Q * Q :=
  let aspectRatio := presetWidth / presetHeight in
  let maxWidth := 800 in
  let maxHeight := 800 in
  let displayWidth := maxWidth in
  let displayHeight := maxWidth / aspectRatio in
  if js.gtb displayHeight maxHeight
  then (maxHeight * aspectRatio, maxHeight)
  else (displayWidth, displayHeight).

End CanvasLoop.


(** ** More vocabulary: text layout, glyph data, context calls *)

Module layoutspec.
Import fontPaths.

(** The number of points that the table holds for the characters of a
    text. *)
Fixpoint glyphCount {F : FontTable} (upperText : string) : nat :=
  match upperText with
  | EmptyString => 0
  | String c rest =>
      (match fontPaths c with Some path => List.length path | None => 0 end
       + glyphCount rest)%nat
  end.

(** A point of the unit square. *)
Definition inUnitSquare (p : PathPoint) : Prop :=
  0 <= px p <= 1 /\ 0 <= py p <= 1.

(** Every point of the table is in the unit square. *)
Definition unitGlyphs (F : FontTable) : Prop :=
  forall c path, fontPaths c = Some path -> Forall inUnitSquare path.

(** The cell width and the left edge of the first cell, as
    [getTextPathPoints] computes them for a text of [n] characters. *)
Definition cellWidth (w h : Q) (n : nat) : Q :=
  Qmin ((w - w * 0.08 * 2) / inject_Z (Z.of_nat n)) (h * 0.6).

Definition firstCell (w h : Q) (n : nat) : Q :=
  let len := inject_Z (Z.of_nat n) in
  let lw := cellWidth w h n in
  (w - (len * lw + (len - 1) * (lw * 0.1))) / 2.

End layoutspec.

Module renderspec.

(** The calls that put ink on the canvas. *)
Definition paints (c : ctx.call) : bool :=
  match c with
  | ctx.fill | ctx.stroke | ctx.fillRect _ _ _ _ => true
  | _ => false
  end.

(** The calls that push or pop the state stack of the context. *)
Definition stacks (c : ctx.call) : bool :=
  match c with
  | ctx.save | ctx.restore => true
  | _ => false
  end.

(** The calls that build a path. *)
Definition traces (c : ctx.call) : bool :=
  match c with
  | ctx.beginPath | ctx.closePath | ctx.arc _ _ _ _ _ | ctx.moveTo _ _
  | ctx.lineTo _ _ | ctx.quadraticCurveTo _ _ _ _ | ctx.rect _ _ _ _ => true
  | _ => false
  end.

End renderspec.


(** ** More vocabulary: the glyph extraction *)

Module extractspec.
Import fontPaths.

(** [minX], [maxX], [minY], [maxY] are the bounding box of [points], each
    side reached by a point. *)
Definition boxed (points : list PathPoint) (minX maxX minY maxY : Q) : Prop :=
  (forall p, In p points ->
             minX <= px p <= maxX /\ minY <= py p <= maxY)
  /\ (exists p, In p points /\ px p == minX)
  /\ (exists p, In p points /\ px p == maxX)
  /\ (exists p, In p points /\ py p == minY)
  /\ (exists p, In p points /\ py p == maxY).

(** A number with at most four decimals. *)
Definition fourDecimals (v : Q) : Prop :=
  exists k : Z, v = inject_Z k / 10000.

End extractspec.


(** ** More vocabulary: what a tick keeps *)

Module animspec.
Import types animation.

(** What a tick never touches: the role, the kind, the styling, the
    angular velocity, the speeds and amplitude of the oscillations, the
    pulse baseline, and the magnitude of each velocity component. *)
Definition kept (a a' : AnimatedShape) : Prop :=
  role (base a') = role (base a)
  /\ type (shape (base a')) = type (shape (base a))
  /\ fill (shape (base a')) = fill (shape (base a))
  /\ stroke (shape (base a')) = stroke (shape (base a))
  /\ strokeWidth (shape (base a')) = strokeWidth (shape (base a))
  /\ vRotation a' = vRotation a
  /\ pulseSpeed a' = pulseSpeed a
  /\ wobbleSpeed a' = wobbleSpeed a
  /\ wobbleAmount a' = wobbleAmount a
  /\ originalRadius a' = originalRadius a
  /\ originalWidth a' = originalWidth a
  /\ originalHeight a' = originalHeight a
  /\ originalSize a' = originalSize a
  /\ Qabs (vx a') == Qabs (vx a)
  /\ Qabs (vy a') == Qabs (vy a).

(** A shape without velocity, inside the inset box. *)
Definition still (w h : Q) (a : AnimatedShape) : Prop :=
  vx a == 0 /\ vy a == 0 /\ spec.inBox w h a.

Definition samePlace (a a' : AnimatedShape) : Prop :=
  x (shape (base a')) == x (shape (base a))
  /\ y (shape (base a')) == y (shape (base a)).

(** The pulse baseline of a freshly decorated shape is its own size, and
    no wobble offset has been computed yet. *)
Definition fresh (a : AnimatedShape) : Prop :=
  wobbleX a = None /\ wobbleY a = None
  /\ match geometry (shape (base a)) with
     | Circle r | Semicircle r =>
         originalRadius a = Some r /\ originalWidth a = None
         /\ originalHeight a = None /\ originalSize a = None
     | Rectangle w h _ =>
         originalRadius a = None /\ originalWidth a = Some w
         /\ originalHeight a = Some h /\ originalSize a = None
     | Triangle s =>
         originalRadius a = None /\ originalWidth a = None
         /\ originalHeight a = None /\ originalSize a = Some s
     | Line _ _ =>
         originalRadius a = None /\ originalWidth a = None
         /\ originalHeight a = None /\ originalSize a = None
     end.

(** The ranges of the kinematic fields for a seed that is not negative and
    sliders in [[0, 100]]. *)
Definition inRanges (a : AnimatedShape) : Prop :=
  let m := 1.5 * roleMultiplier (role (base a)) in
  - m <= vx a <= m /\ - m <= vy a <= m /\ - m <= vRotation a <= m
  /\ 0 <= pulseSpeed a <= 0.06
  /\ 0 <= wobbleSpeed a <= 0.045
  /\ 4 <= wobbleAmount a <= 23.

End animspec.


(** ** The closures of [random.ts] and [animation.ts], in a store *)

Module closures.
Import types fontPaths generator animation.

(** [createRandom] returns a closure over a variable [t] of its own, and
    [addAnimationProperties] makes a closure [random] over its variable
    [s].  The store holds the variables of all the closures made so far,
    oldest first; a closure is known by the place of its variable. *)
Definition Store : Type := list Z.

Definition Closure : Type := nat.

(** Code that makes and calls closures; [None] is an exception. *)
Definition Run (A : Type) : Type := Store -> option (A * Store).

Definition ret {A} (a : A) : Run A := fun st => Some (a, st).

Definition bind {A B} (m : Run A) (k : A -> Run B) : Run B :=
  fun st => match m st with
            | Some (a, st') => k a st'
            | None => None
            end.

(** A new closure, over a variable that starts as [v]. *)
Definition create (v : Z) : Run Closure :=
  fun st => Some (List.length st, st ++ [v]).

(** The store with the variable of closure [r] set to [v]. *)
Fixpoint assign (r : Closure) (v : Z) (st : Store) : Store :=
  match st, r with
  | [], _ => []
  | _ :: rest, O => v :: rest
  | x :: rest, S r' => x :: assign r' v rest
  end.

(** Code whose draws are calls of closure [r]: it reads and writes the
    variable of [r], and no other.  A computation of several draws is the
    sequence of its draws on the store (lemma [drawFrom_bind]). *)
Definition drawFrom {A} (r : Closure) (body : random.Gen A) : Run A :=
  fun st =>
    match nth_error st r with
    | Some t =>
        match body t with
        | Some (a, t') => Some (a, assign r t' st)
        | None => None
        end
    | None => None
    end.

(** The variable [s] of [addAnimationProperties] when [shapes.map] is
    through, from index [i] and state [s] on. *)
Fixpoint mapEnd {M : js.JsMath} (chaos motion : Q) (stationaryMode : bool)
  (shapes : list RoleShape) (i : nat) (s : Z) : Z :=
  match shapes with
  | [] => s
  | sh :: rest =>
      mapEnd chaos motion stationaryMode rest (S i)
        (snd (animate chaos motion stationaryMode sh i s))
  end.

Section WithMath.
Context {M : js.JsMath} {F : FontTable}.

(** [generateTextComposition]: [createRandomUtils(seed)] is its first
    statement, before the early returns. *)
Definition generateTextComposition (config : GeneratorConfig)
  : Run (list RoleShape) :=
  bind (create (random.createRandom (seed config))) (fun rng =>
    match text config with
    | None => ret []
    | Some EmptyString => ret []
    | Some txt =>
        let (points, _) :=
          getTextPathPoints txt (width config) (height config)
            (density (controls config)) in
        if (List.length points =? 0)%nat then ret []
        else
          let baseSize := Qmin (width config) (height config) * 0.025 in
          let size :=
            baseSize * (0.1 + (scale (controls config) / 100) * 2.0) in
          let chaosOffset := (chaos (controls config) / 100) * size * 2 in
          drawFrom rng (textShapes config size chaosOffset 0 points)
    end).

(** [generateComposition]: the free-form branch makes its own
    [createRandomUtils(seed)] and hands it to the three phases. *)
Definition generateComposition (config : GeneratorConfig)
  : Run (list RoleShape) :=
  if textMode config then generateTextComposition config
  else
    bind (create (random.createRandom (seed config))) (fun rng =>
      drawFrom rng (freeForm config)).

(** [addAnimationProperties]: [let s = seed], and [random] is called by
    the callback of [shapes.map] only. *)
Definition addAnimationProperties (shapes : list RoleShape)
  (chaos motion : Q) (seed : Z) (stationaryMode : js.value)
  : Run (list AnimatedShape) :=
  let st := js.to_boolean stationaryMode in
  bind (create seed) (fun random =>
    drawFrom random (fun s =>
      Some (animateFrom chaos motion st shapes 0 s,
            mapEnd chaos motion st shapes 0 s))).

(** [generateComposition(config)], then [addAnimationProperties] on what
    it returned. *)
Definition pipeline (config : GeneratorConfig) (chaos motion : Q) (seed : Z)
  (stationaryMode : js.value) : Run (list AnimatedShape) :=
  bind (generateComposition config) (fun shapes =>
    addAnimationProperties shapes chaos motion seed stationaryMode).

End WithMath.
End closures.

Module streamspec.

(** The first [n] draws from state [t] are all above 0: [Math.log] of each
    of them is a number. *)
Fixpoint positiveDraws (n : nat) (t : Z) : bool :=
  match n with
  | O => true
  | S n' =>
      let (u, t') := random.next t in
      js.gtb u 0 && positiveDraws n' t'
  end.

End streamspec.


(* ================================================================== *)
(** * Part II: properties *)
(* ================================================================== *)

Import types shapes fontPaths random randomUtils generator animation.
Import spec textspec tickspec.

(** ** Arithmetic helpers *)

Lemma Qfloor_unique (z : Z) (q : Q) :
  inject_Z z <= q -> q < inject_Z (z + 1) -> Qfloor q = z.
Proof.
  intros Hlo Hhi.
  pose proof (Qfloor_le q) as H1.
  pose proof (Qlt_floor q) as H2.
  assert (inject_Z z < inject_Z (Qfloor q + 1)) as A by lra.
  assert (inject_Z (Qfloor q) < inject_Z (z + 1)) as B by lra.
  rewrite <- Zlt_Qlt in A, B. lia.
Qed.

Lemma Qfloor_nonneg (q : Q) : 0 <= q -> (0 <= Qfloor q)%Z.
Proof.
  intros H. change 0%Z with (Qfloor 0). now apply Qfloor_resp_le.
Qed.

Lemma Qfloor_below (q : Q) (z : Z) : q < inject_Z z -> (Qfloor q < z)%Z.
Proof.
  intros H. pose proof (Qfloor_le q) as H1.
  rewrite Zlt_Qlt. lra.
Qed.

Lemma Qfloor_at_least (q : Q) (z : Z) : inject_Z z <= q -> (z <= Qfloor q)%Z.
Proof.
  intros H. rewrite <- (Qfloor_Z z). now apply Qfloor_resp_le.
Qed.

Lemma ratio_unit (z : Z) (d : positive) :
  (0 <= z < Z.pos d)%Z ->
  0 <= inject_Z z / inject_Z (Z.pos d) /\ inject_Z z / inject_Z (Z.pos d) < 1.
Proof.
  intros [Hlo Hhi].
  rewrite <- Qmake_Qdiv. unfold Qle, Qlt. simpl. lia.
Qed.

Lemma ltb_true (a b : Q) : js.ltb a b = true <-> a < b.
Proof.
  unfold js.ltb. rewrite negb_true_iff.
  destruct (Qle_bool b a) eqn:E.
  - apply Qle_bool_iff in E. split; [discriminate | intros H; lra].
  - split; [intros _ | reflexivity].
    destruct (Qlt_le_dec a b) as [H | H]; [exact H |].
    apply Qle_bool_iff in H. congruence.
Qed.

Lemma ltb_false (a b : Q) : js.ltb a b = false <-> b <= a.
Proof.
  unfold js.ltb. rewrite negb_false_iff. apply Qle_bool_iff.
Qed.

Lemma truthy_pos (q : Q) : 0 < q -> js.truthy q = true.
Proof.
  intros H. unfold js.truthy. rewrite negb_true_iff.
  destruct (Qeq_bool q 0) eqn:E; [| reflexivity].
  apply Qeq_bool_iff in E. lra.
Qed.

(** ** [varyColor] *)

Section VaryColor.
Import palettes.

Lemma hash_range_nonneg (seed : Z) :
  (0 <= seed)%Z -> (0 <= hash seed < 233280)%Z.
Proof.
  intros H. unfold hash, js.rem. apply Z.rem_bound_pos; lia.
Qed.

Lemma rnd_unit_nonneg (seed : Z) :
  (0 <= seed)%Z -> 0 <= rnd seed /\ rnd seed < 1.
Proof.
  intros H. unfold rnd.
  apply (ratio_unit (hash seed) 233280), hash_range_nonneg, H.
Qed.

(** For seeds that are not negative the hash is in [[0, 1)] and the
    adjustment stays within 30 percent, scaled by the variation. *)
Lemma adjust_bound_nonneg (variation : Q) (seed : Z) :
  (0 <= seed)%Z -> 0 <= variation <= 100 ->
  - (0.3) <= adjust variation seed /\ adjust variation seed <= 0.3.
Proof.
  intros Hs [Hv0 Hv1].
  destruct (rnd_unit_nonneg seed Hs) as [H0 H1].
  unfold adjust, variationAmount.
  set (r := rnd seed) in *.
  assert (0 <= variation / 100 <= 1) as [Ha Hb].
  { split.
    - apply Qle_shift_div_l; lra.
    - apply Qle_shift_div_r; lra. }
  set (v := variation / 100) in *.
  split; nra.
Qed.

(** *** Channels are bytes, printed on two lower-case digits *)

Lemma isHexDigit_In (c : ascii) : isHexDigit c = true -> In c hexChars.
Proof.
  destruct c as [[] [] [] [] [] [] [] []]; vm_compute; intros H;
    try discriminate H; tauto.
Qed.

Lemma pairs_ok :
  forallb (fun a => forallb (pairOk a) hexChars) hexChars = true.
Proof. vm_compute. reflexivity. Qed.

Lemma parse_pair (a b : ascii) :
  isHexDigit a = true -> isHexDigit b = true ->
  js.parseInt16 (String a (String b "")) = Some (byteOf a b)
  /\ (0 <= byteOf a b <= 255)%Z
  /\ hex2 (Some (byteOf a b)) = String (lowerChar a) (String (lowerChar b) "").
Proof.
  intros Ha Hb.
  apply isHexDigit_In in Ha. apply isHexDigit_In in Hb.
  pose proof pairs_ok as P.
  rewrite forallb_forall in P. specialize (P a Ha).
  rewrite forallb_forall in P. specialize (P b Hb).
  unfold pairOk in P.
  destruct (js.parseInt16 (String a (String b ""))) as [v |];
    [| discriminate P].
  repeat rewrite andb_true_iff in P.
  destruct P as [[[P1 P2] P3] P4].
  apply Z.eqb_eq in P1. apply Z.leb_le in P2, P3.
  apply String.eqb_eq in P4. subst v. auto.
Qed.

Lemma bytes_ok : forallb byteOk bytes = true.
Proof. vm_compute. reflexivity. Qed.

Lemma hex2_byte (n : Z) :
  (0 <= n <= 255)%Z ->
  exists a b, hex2 (Some n) = String a (String b "")
              /\ isLowerHexDigit a = true /\ isLowerHexDigit b = true.
Proof.
  intros H.
  assert (In n bytes) as Hin.
  { unfold bytes. rewrite <- (Z2Nat.id n) by lia.
    apply in_map, in_seq. lia. }
  pose proof bytes_ok as P. rewrite forallb_forall in P.
  specialize (P n Hin). unfold byteOk in P.
  destruct (hex2 (Some n)) as [| a [| b [| ? ?]]]; try discriminate P.
  apply andb_true_iff in P. destruct P. eauto.
Qed.

Lemma newChannel_byte (v : Z) (adj : Q) :
  exists n, newChannel (Some v) adj = Some n /\ (0 <= n <= 255)%Z.
Proof.
  unfold newChannel. eexists. split; [reflexivity | lia].
Qed.

Lemma adjust_zero (seed : Z) : adjust 0 seed == 0.
Proof.
  unfold adjust, variationAmount.
  assert ((0 / 100) * 0.3 == 0) as -> by reflexivity.
  apply Qmult_0_r.
Qed.

Lemma round_integer (v : Z) (q : Q) : q == inject_Z v -> js.round q = v.
Proof.
  intros H. unfold js.round. apply Qfloor_unique.
  - lra.
  - rewrite inject_Z_plus. change (inject_Z 1) with 1. lra.
Qed.

Lemma newChannel_fixed (v : Z) (seed : Z) :
  (0 <= v <= 255)%Z -> newChannel (Some v) (adjust 0 seed) = Some v.
Proof.
  intros H. unfold newChannel. f_equal.
  rewrite (round_integer v).
  - lia.
  - rewrite adjust_zero. ring.
Qed.

Lemma hexColor_shape (c : string) :
  isHexColor c = true ->
  exists a1 a2 a3 a4 a5 a6,
    c = String "#" (String a1 (String a2 (String a3 (String a4
          (String a5 (String a6 ""))))))
    /\ isHexDigit a1 = true /\ isHexDigit a2 = true
    /\ isHexDigit a3 = true /\ isHexDigit a4 = true
    /\ isHexDigit a5 = true /\ isHexDigit a6 = true.
Proof.
  unfold isHexColor. intros H.
  destruct c as [| h r]; [discriminate H |].
  destruct (Ascii.eqb h "#") eqn:Eh.
  2:{ destruct h as [[] [] [] [] [] [] [] []]; try discriminate H;
      discriminate Eh. }
  apply Ascii.eqb_eq in Eh. subst h.
  apply andb_true_iff in H. destruct H as [L A].
  destruct r as [| a1 [| a2 [| a3 [| a4 [| a5 [| a6 [| ? ?]]]]]]];
    try discriminate L.
  simpl in A. repeat rewrite andb_true_iff in A.
  exists a1, a2, a3, a4, a5, a6. intuition.
Qed.

End VaryColor.

Section VaryColorClaims.
Import palettes.

Lemma varyColor_unfold (a1 a2 a3 a4 a5 a6 : ascii) (variation : Q)
  (seed : Z) :
  varyColor (String "#" (String a1 (String a2 (String a3 (String a4
               (String a5 (String a6 "")))))))
    variation seed
  = String "#"
      (hex2 (newChannel (js.parseInt16 (String a1 (String a2 "")))
               (adjust variation seed))
       ++ hex2 (newChannel (js.parseInt16 (String a3 (String a4 "")))
                  (adjust variation seed))
       ++ hex2 (newChannel (js.parseInt16 (String a5 (String a6 "")))
                  (adjust variation seed))).
Proof. reflexivity. Qed.

(** C8, as the code has it: for every colour [c] of the form [#rrggbb]
    (hexadecimal digits of either case), every variation and every integer
    seed, [varyColor c variation seed] is ["#"] followed by three channels
    in [[0, 255]], each printed on two lower-case hexadecimal digits; and
    for [variation = 0] the result is [c] with its digits in lower case,
    hence [c] itself when [c] has no upper-case digit. *)
Theorem varyColor_valid_and_fixed_at_zero (c : string) (variation : Q)
  (seed : Z) :
  isHexColor c = true ->
  (exists r g b,
      (0 <= r <= 255)%Z /\ (0 <= g <= 255)%Z /\ (0 <= b <= 255)%Z /\
      varyColor c variation seed
      = String "#" (hex2 (Some r) ++ hex2 (Some g) ++ hex2 (Some b)))
  /\ isLowerHexColor (varyColor c variation seed) = true
  /\ varyColor c 0 seed = toLowerCase c
  /\ (toLowerCase c = c -> varyColor c 0 seed = c).
Proof.
  intros H.
  destruct (hexColor_shape c H)
    as (a1 & a2 & a3 & a4 & a5 & a6 & -> & H1 & H2 & H3 & H4 & H5 & H6).
  destruct (parse_pair a1 a2 H1 H2) as (Pr & Rr & Lr).
  destruct (parse_pair a3 a4 H3 H4) as (Pg & Rg & Lg).
  destruct (parse_pair a5 a6 H5 H6) as (Pb & Rb & Lb).
  assert (varyColor (String "#" (String a1 (String a2 (String a3
              (String a4 (String a5 (String a6 "")))))))
            0 seed
          = String "#" (String (lowerChar a1) (String (lowerChar a2)
              (String (lowerChar a3) (String (lowerChar a4)
              (String (lowerChar a5) (String (lowerChar a6) ""))))))) as Z0.
  { rewrite varyColor_unfold, Pr, Pg, Pb.
    rewrite !newChannel_fixed by assumption.
    rewrite Lr, Lg, Lb. reflexivity. }
  rewrite !varyColor_unfold, Pr, Pg, Pb.
  destruct (newChannel_byte (byteOf a1 a2) (adjust variation seed))
    as (r & Er & Br).
  destruct (newChannel_byte (byteOf a3 a4) (adjust variation seed))
    as (g & Eg & Bg).
  destruct (newChannel_byte (byteOf a5 a6) (adjust variation seed))
    as (b & Eb & Bb).
  rewrite Er, Eg, Eb.
  split; [| split; [| split]].
  - exists r, g, b. auto.
  - destruct (hex2_byte r Br) as (x1 & x2 & -> & X1 & X2).
    destruct (hex2_byte g Bg) as (x3 & x4 & -> & X3 & X4).
    destruct (hex2_byte b Bb) as (x5 & x6 & -> & X5 & X6).
    simpl. now rewrite X1, X2, X3, X4, X5, X6.
  - rewrite varyColor_unfold, Pr, Pg, Pb in Z0. exact Z0.
  - intros E. rewrite varyColor_unfold, Pr, Pg, Pb in Z0.
    rewrite Z0. exact E.
Qed.

Lemma varyColor_valid_and_fixed_at_zero_witness :
  isLowerHexColor (varyColor "#58a6ff" 30 7) = true
  /\ varyColor "#58A6FF" 0 7 = "#58a6ff"%string.
Proof.
  destruct (varyColor_valid_and_fixed_at_zero "#58a6ff" 30 7 eq_refl)
    as (_ & V & _).
  destruct (varyColor_valid_and_fixed_at_zero "#58A6FF" 0 7 eq_refl)
    as (_ & _ & L & _).
  split; [exact V | exact L].
Defined.

(** C8 as stated fails: an upper-case colour is a colour of six
    hexadecimal digits, and at variation 0 it comes back in lower case. *)
Lemma varyColor_zero_changes_uppercase :
  isHexColor "#FF0000" = true
  /\ varyColor "#FF0000" 0 0 = "#ff0000"%string
  /\ varyColor "#FF0000" 0 0 <> "#FF0000"%string.
Proof.
  split; [reflexivity |]. split; [vm_compute; reflexivity |].
  vm_compute. discriminate.
Qed.

(** C9: at the seed [-30] the hash of [varyColor] is negative (the
    remainder takes the sign of the dividend), the adjustment at variation
    100 is below -30 percent, and a channel of 100 becomes 11. *)
Theorem varyColor_hash_negative_seed :
  hash (-30) = (-229733)%Z
  /\ rnd (-30) < 0
  /\ adjust 100 (-30) < - (0.3)
  /\ varyColor "#646464" 100 (-30) = "#0b0b0b"%string.
Proof.
  split; [reflexivity |].
  split; [reflexivity |].
  split; [reflexivity |].
  vm_compute. reflexivity.
Qed.

End VaryColorClaims.

(** ** The random stream *)

Section Stream.
Context {M : js.JsMath}.

Lemma toUint32_range (z : Z) : (0 <= js.toUint32 z < 4294967296)%Z.
Proof. unfold js.toUint32. apply Z.mod_pos_bound. lia. Qed.

(** Every draw of mulberry32 is in [[0, 1)]. *)
Lemma next_unit (t : Z) : 0 <= fst (next t) /\ fst (next t) < 1.
Proof.
  unfold next. cbn [fst]. unfold js.ushr at 1. rewrite Z.shiftr_0_r.
  apply (ratio_unit _ 4294967296), toUint32_range.
Qed.

Lemma always_ret {A} (P : A -> Prop) (a : A) : P a -> always P (ret a).
Proof. intros H t. exists a, t. auto. Qed.

Lemma always_bind {A B} (P : A -> Prop) (Q : B -> Prop) (m : Gen A)
  (k : A -> Gen B) :
  always P m -> (forall a, P a -> always Q (k a)) -> always Q (bind m k).
Proof.
  intros Hm Hk t. destruct (Hm t) as (a & t1 & E & Pa).
  destruct (Hk a Pa t1) as (b & t2 & E2 & Qb).
  exists b, t2. unfold bind. rewrite E. auto.
Qed.

Lemma always_weaken {A} (P Q : A -> Prop) (m : Gen A) :
  always P m -> (forall a, P a -> Q a) -> always Q m.
Proof.
  intros H W t. destruct (H t) as (a & t' & E & Pa). exists a, t'. auto.
Qed.

Lemma ensures_ret {A} (P : A -> Prop) (a : A) : P a -> ensures P (ret a).
Proof. intros H t a' t' E. inversion E. subst. exact H. Qed.

Lemma ensures_throw {A} (P : A -> Prop) : ensures P (@throw A).
Proof. intros t a t' E. discriminate E. Qed.

Lemma ensures_bind {A B} (P : A -> Prop) (Q : B -> Prop) (m : Gen A)
  (k : A -> Gen B) :
  ensures P m -> (forall a, P a -> ensures Q (k a)) -> ensures Q (bind m k).
Proof.
  intros Hm Hk t b t2 E. unfold bind in E.
  destruct (m t) as [[a t1] |] eqn:Em; [| discriminate E].
  exact (Hk a (Hm t a t1 Em) t1 b t2 E).
Qed.

Lemma ensures_any {A} (m : Gen A) : ensures (fun _ => True) m.
Proof. intros t a t' _. exact I. Qed.

Lemma always_ensures {A} (P : A -> Prop) (m : Gen A) :
  always P m -> ensures P m.
Proof.
  intros H t a t' E. destruct (H t) as (a0 & t0 & E0 & Pa).
  rewrite E in E0. inversion E0. subst. exact Pa.
Qed.

Lemma random_always : always (fun u => 0 <= u /\ u < 1) random.random.
Proof.
  intros t. exists (fst (next t)), (snd (next t)). split.
  - unfold random.random. now destruct (next t).
  - apply next_unit.
Qed.

Lemma range_always (lo hi : Q) :
  always (fun r => exists u, 0 <= u /\ u < 1 /\ r = lo + u * (hi - lo))
    (range lo hi).
Proof.
  unfold range. eapply always_bind; [apply random_always |].
  intros u [H0 H1]. apply always_ret. exists u. auto.
Qed.

Lemma range_total (lo hi : Q) : always (fun _ => True) (range lo hi).
Proof. eapply always_weaken; [apply range_always | auto]. Qed.

Lemma gaussian_total : always (fun _ => True) gaussian.
Proof.
  unfold gaussian.
  eapply always_bind; [apply random_always | intros u1 _].
  eapply always_bind; [apply random_always | intros u2 _].
  now apply always_ret.
Qed.

Lemma chance_total (p : Q) : always (fun _ => True) (chance p).
Proof.
  unfold chance. eapply always_bind; [apply random_always | intros u _].
  now apply always_ret.
Qed.

Lemma pick_total {T} (arr : list T) : always (fun _ => True) (pick arr).
Proof.
  unfold pick. eapply always_bind; [apply random_always | intros u _].
  now apply always_ret.
Qed.

(** On a list that is not empty [pick] returns one of its elements. *)
Lemma pick_defined {T} (arr : list T) :
  arr <> [] -> always (fun o => exists v, o = Some v /\ In v arr) (pick arr).
Proof.
  intros Hne. unfold pick.
  eapply always_bind; [apply random_always | intros u [H0 H1]].
  apply always_ret.
  set (n := Z.of_nat (List.length arr)).
  assert (0 < n)%Z as Hn.
  { subst n. destruct arr; [congruence | simpl; lia]. }
  assert (0 < inject_Z n) as Hq.
  { change 0 with (inject_Z 0). now rewrite <- Zlt_Qlt. }
  assert (0 <= js.floor (u * inject_Z n))%Z as K0.
  { apply Qfloor_nonneg. nra. }
  assert (js.floor (u * inject_Z n) < n)%Z as K1.
  { apply Qfloor_below. nra. }
  destruct (js.floor (u * inject_Z n) <? 0)%Z eqn:E;
    [apply Z.ltb_lt in E; lia |].
  destruct (nth_error arr (Z.to_nat (js.floor (u * inject_Z n)))) eqn:N.
  - exists t. split; [reflexivity |]. eapply nth_error_In, N.
  - apply nth_error_None in N. subst n. lia.
Qed.

Lemma forLoop_always {A} (P : A -> Prop) (body : Z -> Gen A) (n : nat) :
  (forall i, always P (body i)) ->
  forall i,
    always (fun l => List.length l = n /\ Forall P l) (forLoop n i body).
Proof.
  intros Hb. induction n as [| n IH]; intros i; simpl.
  - apply always_ret. auto.
  - eapply always_bind; [apply Hb | intros a Pa].
    eapply always_bind; [apply IH | intros l [L F]].
    apply always_ret. simpl. auto.
Qed.

Lemma varyColor_opt_some (c : string) (v : Q) (s : Z) :
  always (fun _ => True) (varyColor_opt (Some c) v s).
Proof. simpl. now apply always_ret. Qed.

End Stream.

Create HintDb gen.
#[local] Hint Resolve range_total gaussian_total chance_total : gen.
#[local] Hint Resolve pick_total varyColor_opt_some : gen.

(** Walk through a computation none of whose steps can fail.  A [pick] in
    a list known not to be empty is opened to the element it returns. *)
Ltac total :=
  cbv beta;
  lazymatch goal with
  | |- always _ (ret _) =>
      apply always_ret; first [exact I | reflexivity]
  | |- always _ (bind (pick ?arr) _) =>
      first
        [ apply (always_bind _ _ _ _
                   (pick_defined arr ltac:(first [assumption | discriminate])));
          intros ? (? & -> & _); total
        | apply (always_bind (fun _ => True));
          [ apply pick_total
          | let a := fresh "a" in
            intros a _;
            try (match type of a with
                 | option ShapeType => destruct a as [[] |]
                 end);
            total ] ]
  | |- always _ (bind _ _) =>
      apply (always_bind (fun _ => True)); [ total | intros ? _; total ]
  | |- always _ (if ?b then _ else _) => destruct b; total
  | |- always _ (match ?p with (_, _) => _ end) => destruct p; total
  | |- always _ _ => solve [eauto 2 with gen]
  end.

(** ** Free-form generation: counts and roles *)

Section FreeForm.
Context {M : js.JsMath} {F : FontTable}.

Lemma generateAnchors_always (w h : Q) (c : Controls) (p : Palette)
  (sd : Z) :
  anchors p <> [] ->
  always (fun l => List.length l = Z.to_nat (anchorCount c)
                   /\ Forall (isRole anchor) l)
    (generateAnchors w h c p sd).
Proof.
  intros Hp. unfold generateAnchors. apply forLoop_always.
  intros i. unfold isRole. total.
Qed.

Lemma generateAccents_always (w h : Q) (c : Controls) (p : Palette)
  (anchorShapes : list RoleShape) (sd : Z) :
  accents p <> [] \/ (accentCount c <= 0)%Z ->
  always (fun l => List.length l = Z.to_nat (accentCount c)
                   /\ Forall (isRole accent) l)
    (generateAccents w h c p anchorShapes sd).
Proof.
  intros [Hp | Hz]; unfold generateAccents.
  - apply forLoop_always.
    intros i. unfold isRole.
    destruct anchorShapes as [| a0 rest].
    + change (0 <? List.length (@nil RoleShape))%nat with false.
      rewrite andb_false_r. total.
    + total.
  - replace (Z.to_nat (accentCount c)) with 0%nat by lia.
    apply always_ret. auto.
Qed.

Lemma generateTexture_always (w h : Q) (c : Controls) (p : Palette) :
  always (fun l => List.length l
                   = (if js.ltb (density c) 40 then 0%nat
                      else Z.to_nat (textureCount c))
                   /\ Forall (isRole texture) l)
    (generateTexture w h c p).
Proof.
  unfold generateTexture. destruct (js.ltb (density c) 40).
  - apply always_ret. auto.
  - apply forLoop_always. intros i. unfold isRole. total.
Qed.

End FreeForm.

Section Counting.
Context {M : js.JsMath} {F : FontTable}.

Lemma countRole_app (r : Role) (l1 l2 : list RoleShape) :
  countRole r (l1 ++ l2) = (countRole r l1 + countRole r l2)%nat.
Proof. unfold countRole. now rewrite filter_app, length_app. Qed.

Lemma countRole_same (r : Role) (l : list RoleShape) :
  Forall (isRole r) l -> countRole r l = List.length l.
Proof.
  unfold countRole, isRole. induction 1 as [| s l Hs _ IH]; simpl.
  - reflexivity.
  - rewrite Hs. destruct r; simpl; now rewrite IH.
Qed.

Lemma countRole_other (r r' : Role) (l : list RoleShape) :
  r <> r' -> Forall (isRole r') l -> countRole r l = 0%nat.
Proof.
  unfold countRole, isRole. intros Hne.
  induction 1 as [| s l Hs _ IH]; simpl.
  - reflexivity.
  - rewrite Hs. destruct r, r'; simpl; try congruence; exact IH.
Qed.

(** The three phases in sequence: each contributes its own role only. *)
Lemma freeForm_always (config : GeneratorConfig) :
  anchors (palette config) <> [] ->
  accents (palette config) <> [] \/ (accentCount (controls config) <= 0)%Z ->
  always
    (fun l =>
       exists a b t,
         l = a ++ b ++ t
         /\ Forall (isRole anchor) a /\ Forall (isRole accent) b
         /\ Forall (isRole texture) t
         /\ List.length a = Z.to_nat (anchorCount (controls config))
         /\ List.length b = Z.to_nat (accentCount (controls config))
         /\ List.length t
            = (if js.ltb (density (controls config)) 40 then 0%nat
               else Z.to_nat (textureCount (controls config))))
    (freeForm config).
Proof.
  intros Ha Hb. unfold freeForm.
  eapply always_bind; [apply generateAnchors_always, Ha |].
  intros a [La Fa].
  eapply always_bind; [apply generateAccents_always, Hb |].
  intros b [Lb Fb].
  eapply always_bind; [apply generateTexture_always |].
  intros t [Lt Ft].
  apply always_ret. exists a, b, t. auto 10.
Qed.

Lemma freeForm_counts (config : GeneratorConfig) :
  textMode config = false ->
  anchors (palette config) <> [] ->
  accents (palette config) <> [] \/ (accentCount (controls config) <= 0)%Z ->
  exists shapes,
    generateComposition config = Some shapes
    /\ countRole anchor shapes = Z.to_nat (anchorCount (controls config))
    /\ countRole accent shapes = Z.to_nat (accentCount (controls config))
    /\ countRole texture shapes
       = (if js.ltb (density (controls config)) 40 then 0%nat
          else Z.to_nat (textureCount (controls config))).
Proof.
  intros Hm Ha Hb.
  destruct (freeForm_always config Ha Hb (createRandom (seed config)))
    as (l & t' & E & a & b & t & -> & Fa & Fb & Ft & La & Lb & Lt).
  exists (a ++ b ++ t). unfold generateComposition. rewrite Hm, E.
  split; [reflexivity |].
  rewrite !countRole_app.
  rewrite (countRole_same anchor a Fa), (countRole_same accent b Fb),
    (countRole_same texture t Ft).
  rewrite (countRole_other anchor accent b), (countRole_other anchor texture t),
    (countRole_other accent anchor a), (countRole_other accent texture t),
    (countRole_other texture anchor a), (countRole_other texture accent b)
    by (assumption || discriminate).
  rewrite La, Lb, Lt. repeat split; lia.
Qed.

Lemma anchorCount_eq (c : Controls) (d : Q) (n : Z) :
  density c == d -> Z.max 1 (Qfloor (1 + (d / 100) * 3)) = n ->
  anchorCount c = n.
Proof.
  intros Hd <-. unfold anchorCount, js.floor. now rewrite Hd.
Qed.

Lemma accentCount_eq (c : Controls) (d : Q) (n : Z) :
  density c == d -> Qfloor ((d / 100) * 15) = n -> accentCount c = n.
Proof.
  intros Hd <-. unfold accentCount, js.floor. now rewrite Hd.
Qed.

Lemma textureCount_eq (c : Controls) (d : Q) (n : Z) :
  density c == d -> Qfloor (((d - 40) / 60) * 50) = n -> textureCount c = n.
Proof.
  intros Hd <-. unfold textureCount, js.floor. now rewrite Hd.
Qed.

(** C4: in free-form mode, density 0 gives exactly 1 anchor, 0 accents and
    0 texture shapes (the anchor list of the palette not being empty),
    density 100 gives exactly 4, 15 and 50 (the anchor and accent lists not
    being empty), and below density 40 the texture phase returns no shape
    and draws nothing from the stream. *)
Theorem freeform_count_formulas (config : GeneratorConfig) :
  textMode config = false ->
  (density (controls config) == 0 ->
   anchors (palette config) <> [] ->
   exists shapes,
     generateComposition config = Some shapes
     /\ countRole anchor shapes = 1%nat
     /\ countRole accent shapes = 0%nat
     /\ countRole texture shapes = 0%nat)
  /\ (density (controls config) == 100 ->
      anchors (palette config) <> [] -> accents (palette config) <> [] ->
      exists shapes,
        generateComposition config = Some shapes
        /\ countRole anchor shapes = 4%nat
        /\ countRole accent shapes = 15%nat
        /\ countRole texture shapes = 50%nat)
  /\ (density (controls config) < 40 ->
      forall t,
        generateTexture (width config) (height config) (controls config)
          (palette config) t = Some ([], t)).
Proof.
  intros Hm. split; [| split].
  - intros Hd Ha.
    pose proof (accentCount_eq _ 0 0 Hd eq_refl) as Zb.
    assert (accentCount (controls config) <= 0)%Z as Zle by lia.
    destruct (freeForm_counts config Hm Ha (or_intror Zle))
      as (shapes & E & Ca & Cb & Ct).
    exists shapes.
    rewrite (anchorCount_eq _ 0 1 Hd eq_refl) in Ca.
    rewrite Zb in Cb.
    assert (js.ltb (density (controls config)) 40 = true) as L
        by (apply ltb_true; lra).
    rewrite L in Ct. auto.
  - intros Hd Ha Hb.
    destruct (freeForm_counts config Hm Ha (or_introl Hb))
      as (shapes & E & Ca & Cb & Ct).
    exists shapes.
    rewrite (anchorCount_eq _ 100 4 Hd eq_refl) in Ca.
    rewrite (accentCount_eq _ 100 15 Hd eq_refl) in Cb.
    assert (js.ltb (density (controls config)) 40 = false) as L
        by (apply ltb_false; lra).
    rewrite L, (textureCount_eq _ 100 50 Hd eq_refl) in Ct. auto.
  - intros Hd t. unfold generateTexture.
    apply ltb_true in Hd. now rewrite Hd.
Qed.

End Counting.

Lemma aurora_lists :
  anchors reference.aurora <> [] /\ accents reference.aurora <> [].
Proof. split; discriminate. Qed.

Lemma freeform_count_formulas_witness :
  (exists shapes,
      generateComposition (M := reference.approxMath)
        (F := reference.sampleTable)
        (reference.configAt (reference.controlsAt 0 circle full) None)
      = Some shapes
      /\ countRole anchor shapes = 1%nat
      /\ countRole accent shapes = 0%nat
      /\ countRole texture shapes = 0%nat)
  /\ (exists shapes,
         generateComposition (M := reference.approxMath)
           (F := reference.sampleTable)
           (reference.configAt (reference.controlsAt 100 circle full) None)
         = Some shapes
         /\ countRole anchor shapes = 4%nat
         /\ countRole accent shapes = 15%nat
         /\ countRole texture shapes = 50%nat).
Proof.
  split.
  - destruct (freeform_count_formulas (M := reference.approxMath)
                (F := reference.sampleTable)
                (reference.configAt (reference.controlsAt 0 circle full) None)
                eq_refl)
      as (H & _ & _).
    apply H; [reflexivity | discriminate].
  - destruct (freeform_count_formulas (M := reference.approxMath)
                (F := reference.sampleTable)
                (reference.configAt (reference.controlsAt 100 circle full) None)
                eq_refl)
      as (_ & H & _).
    apply H; [reflexivity | discriminate | discriminate].
Defined.

(** ** Text mode *)

Section TextMode.
Context {M : js.JsMath} {F : FontTable}.

Lemma textShapes_ensures (config : GeneratorConfig) (size chaosOffset : Q)
  (points : list PathPoint) :
  forall i,
    ensures (Forall (textShapeAt config size))
      (textShapes config size chaosOffset i points).
Proof.
  induction points as [| point rest IH]; intros i; simpl.
  - apply ensures_ret. constructor.
  - apply (ensures_bind (fun _ => True)); [apply ensures_any | intros g1 _].
    apply (ensures_bind (fun _ => True)); [apply ensures_any | intros g2 _].
    eapply ensures_bind; [apply always_ensures, range_always |].
    intros r (u & U0 & U1 & ->).
    apply (ensures_bind (fun _ => True)); [apply ensures_any | intros color _].
    eapply ensures_bind; [apply IH | intros more Hmore].
    apply ensures_ret. constructor; [| exact Hmore].
    unfold textShapeAt, jitter, orientFlowAngle.
    exists (px point + g1 * chaosOffset), (py point + g2 * chaosOffset),
      color, u, (hd_error rest).
    repeat split; assumption.
Qed.

Lemma textShapes_always (config : GeneratorConfig) (size chaosOffset : Q)
  (points : list PathPoint) :
  anchors (palette config) <> [] ->
  forall i, (0 <= i)%Z ->
    always (fun l => List.length l = List.length points)
      (textShapes config size chaosOffset i points).
Proof.
  intros Hp.
  induction points as [| point rest IH]; intros i Hi; simpl.
  - now apply always_ret.
  - apply (always_bind (fun _ => True)); [apply gaussian_total | intros g1 _].
    apply (always_bind (fun _ => True)); [apply gaussian_total | intros g2 _].
    apply (always_bind (fun _ => True)); [apply range_total | intros r _].
    set (n := List.length (anchors (palette config))).
    assert (0 < n)%nat as Hn.
    { subst n. destruct (anchors (palette config)); [congruence | simpl; lia]. }
    destruct (n =? 0)%nat eqn:E; [apply Nat.eqb_eq in E; lia |].
    destruct (nth_error (anchors (palette config))
                (Z.to_nat (js.rem i (Z.of_nat n)))) as [c |] eqn:N.
    + apply (always_bind (fun _ => True));
        [apply varyColor_opt_some | intros color _].
      eapply always_bind; [apply IH; lia | intros more Hmore].
      apply always_ret. simpl. now rewrite Hmore.
    + apply nth_error_None in N. fold n in N.
      assert (0 <= js.rem i (Z.of_nat n) < Z.of_nat n)%Z
        by (apply Z.rem_bound_pos; lia).
      lia.
Qed.

Lemma generateTextComposition_shapes (config : GeneratorConfig)
  (shapes : list RoleShape) :
  generateTextComposition config = Some shapes ->
  Forall (textShapeAt config (textSize config)) shapes.
Proof.
  unfold generateTextComposition. intros H.
  destruct (text config) as [[| ch txt] |];
    try (inversion H; subst; constructor).
  destruct (getTextPathPoints (String ch txt) (width config) (height config)
              (density (controls config))) as [points bounds].
  destruct (List.length points =? 0)%nat;
    [inversion H; subst; constructor |].
  match type of H with
  | option_map fst (textShapes ?c ?sz ?off ?i ?pts ?t) = _ =>
      destruct (textShapes c sz off i pts t) as [[l t'] |] eqn:E;
      [| discriminate H];
      pose proof (textShapes_ensures c sz off pts i t l t' E) as R;
      inversion H; subst; exact R
  end.
Qed.

Lemma generateTextComposition_total (config : GeneratorConfig) :
  anchors (palette config) <> [] ->
  exists shapes, generateTextComposition config = Some shapes.
Proof.
  intros Hp. unfold generateTextComposition.
  destruct (text config) as [[| ch txt] |]; try (eexists; reflexivity).
  destruct (getTextPathPoints (String ch txt) (width config) (height config)
              (density (controls config))) as [points bounds].
  destruct (List.length points =? 0)%nat; [eexists; reflexivity |].
  match goal with
  | |- exists _, option_map fst (textShapes ?c ?sz ?off ?i ?pts ?t) = _ =>
      destruct (textShapes_always c sz off pts Hp i ltac:(lia) t)
        as (l & t' & E & _);
      rewrite E; eexists; reflexivity
  end.
Qed.

Lemma textShapeAt_role (config : GeneratorConfig) (size : Q)
  (s : RoleShape) :
  textShapeAt config size s -> isRole anchor s.
Proof. intros (x & y & color & u & next & _ & _ & ->). reflexivity. Qed.


Lemma textShapes_length (config : GeneratorConfig) (size chaosOffset : Q)
  (points : list PathPoint) :
  forall i,
    ensures (fun l => List.length l = List.length points)
      (textShapes config size chaosOffset i points).
Proof.
  induction points as [| point rest IH]; intros i; cbn [textShapes].
  - now apply ensures_ret.
  - apply (ensures_bind (fun _ => True)); [apply ensures_any | intros g1 _].
    apply (ensures_bind (fun _ => True)); [apply ensures_any | intros g2 _].
    apply (ensures_bind (fun _ => True)); [apply ensures_any | intros r _].
    apply (ensures_bind (fun _ => True)); [apply ensures_any | intros col _].
    eapply ensures_bind; [apply IH | intros more Hmore].
    apply ensures_ret. cbn [List.length]. now rewrite Hmore.
Qed.

Lemma generateTextComposition_length (config : GeneratorConfig)
  (txt : string) (shapes : list RoleShape) :
  text config = Some txt ->
  generateTextComposition config = Some shapes ->
  List.length shapes
  = List.length (fst (getTextPathPoints txt (width config) (height config)
                        (density (controls config)))).
Proof.
  intros Ht. unfold generateTextComposition. rewrite Ht.
  destruct txt as [| ch rest].
  { intros [= <-]. reflexivity. }
  destruct (getTextPathPoints (String ch rest) (width config) (height config)
              (density (controls config))) as [points bounds].
  cbn [fst]. destruct points as [| p0 pr].
  { intros [= <-]. reflexivity. }
  cbn [List.length Nat.eqb]. intros H.
  match type of H with
  | option_map fst (textShapes ?c ?sz ?off ?i ?pts ?t) = _ =>
      destruct (textShapes c sz off i pts t) as [[l t'] |] eqn:E;
      [| discriminate H];
      pose proof (textShapes_length c sz off pts i t l t' E) as R
  end.
  injection H as <-. exact R.
Qed.

End TextMode.

Section Roles.
Context {M : js.JsMath} {F : FontTable}.

Lemma countRole_pos (r : Role) (l : list RoleShape) :
  (0 < countRole r l)%nat <-> hasRole r l.
Proof.
  unfold countRole, hasRole. induction l as [| s l IH]; simpl.
  - split; [lia | intros (s & [] & _)].
  - destruct (Role_eqb (role s) r) eqn:E.
    + split; [intros _ | simpl; lia].
      exists s. split; [now left |].
      destruct (role s), r; try discriminate E; reflexivity.
    + rewrite IH. split.
      * intros (s' & Hin & Hr). exists s'. split; [now right | exact Hr].
      * intros (s' & [-> | Hin] & Hr); [| now exists s'].
        rewrite Hr in E. destruct r; discriminate E.
Qed.

Lemma anchorCount_pos (c : Controls) : (1 <= anchorCount c)%Z.
Proof. unfold anchorCount. lia. Qed.

Lemma accentCount_pos (c : Controls) :
  40 <= density c -> (1 <= accentCount c)%Z.
Proof.
  intros H. unfold accentCount, js.floor. apply Qfloor_at_least.
  change (inject_Z 1) with 1. unfold Qdiv. change (/ 100) with (1 # 100).
  lra.
Qed.

Lemma textureCount_pos (c : Controls) :
  (1 <= textureCount c)%Z <-> (206 # 5) <= density c.
Proof.
  unfold textureCount, js.floor, Qdiv. change (/ 60) with (1 # 60). split.
  - intros H.
    destruct (Qlt_le_dec (density c) (206 # 5)) as [L | L]; [| exact L].
    assert (Qfloor ((density c - 40) * (1 # 60) * 50) < 1)%Z
      by (apply Qfloor_below; change (inject_Z 1) with 1; lra).
    lia.
  - intros H. apply Qfloor_at_least. change (inject_Z 1) with 1. lra.
Qed.

(** C2, as the code has it: every shape of the text mode is an anchor,
    and there is one for every sampled point of the text path (and the text
    mode returns when the anchor list of the palette is not empty); the
    free-form mode, on a palette whose anchor and accent lists
    are not empty, returns shapes among which an anchor is always present,
    an accent is present from density 40 on, a texture shape is present
    exactly when density is at least 41.2 (42 on the integer slider: the
    texture count at 40 and 41 is 0), and below density 40 every shape is
    an anchor or an accent. *)
Theorem roles_by_mode (config : GeneratorConfig) :
  (textMode config = true ->
   (forall shapes, generateComposition config = Some shapes ->
                   Forall (isRole anchor) shapes
                   /\ forall txt,
                       text config = Some txt ->
                       List.length shapes
                       = List.length
                           (fst (getTextPathPoints txt (width config)
                                   (height config)
                                   (density (controls config)))))
   /\ (anchors (palette config) <> [] ->
       exists shapes, generateComposition config = Some shapes))
  /\ (textMode config = false ->
      anchors (palette config) <> [] -> accents (palette config) <> [] ->
      exists shapes,
        generateComposition config = Some shapes
        /\ hasRole anchor shapes
        /\ (40 <= density (controls config) -> hasRole accent shapes)
        /\ (hasRole texture shapes <-> (206 # 5) <= density (controls config))
        /\ (density (controls config) < 40 ->
            Forall (fun s => isRole anchor s \/ isRole accent s) shapes)).
Proof.
  split.
  - intros Hm. unfold generateComposition. rewrite Hm. split.
    + intros shapes E. split.
      * eapply Forall_impl; [| exact (generateTextComposition_shapes _ _ E)].
        intros s. apply textShapeAt_role.
      * intros txt Ht.
        exact (generateTextComposition_length config txt shapes Ht E).
    + apply generateTextComposition_total.
  - intros Hm Ha Hb.
    destruct (freeForm_counts config Hm Ha (or_introl Hb))
      as (shapes & E & Ca & Cb & Ct).
    exists shapes. split; [exact E |].
    pose proof (anchorCount_pos (controls config)) as Pa.
    split; [| split; [| split]].
    + apply countRole_pos. lia.
    + intros Hd. apply countRole_pos.
      pose proof (accentCount_pos (controls config) Hd). lia.
    + rewrite <- countRole_pos, <- textureCount_pos, Ct.
      destruct (js.ltb (density (controls config)) 40) eqn:L.
      * apply ltb_true in L. split; [lia |].
        intros H. apply textureCount_pos in H. lra.
      * lia.
    + intros Hd.
      assert (js.ltb (density (controls config)) 40 = true) as L
          by now apply ltb_true.
      rewrite L in Ct.
      apply Forall_forall. intros s Hin. unfold isRole.
      destruct (role s) eqn:R; auto.
      assert (hasRole texture shapes) as Ht by (exists s; auto).
      apply countRole_pos in Ht. lia.
Qed.


End Roles.

Lemma roles_by_mode_witness :
  (exists shapes,
      generateComposition (M := reference.approxMath)
        (F := reference.sampleTable)
        (reference.configAt reference.defaultControls (Some "HI"%string))
      = Some shapes
      /\ Forall (isRole anchor) shapes
      /\ List.length shapes = 5%nat)
  /\ (exists shapes,
         generateComposition (M := reference.approxMath)
           (F := reference.sampleTable)
           (reference.configAt reference.defaultControls None)
         = Some shapes
         /\ hasRole anchor shapes /\ hasRole accent shapes
         /\ hasRole texture shapes).
Proof.
  split.
  - destruct (roles_by_mode (M := reference.approxMath)
                (F := reference.sampleTable)
                (reference.configAt reference.defaultControls
                   (Some "HI"%string))) as [T _].
    destruct (T eq_refl) as [R Tot].
    destruct (Tot ltac:(discriminate)) as [shapes E].
    destruct (R shapes E) as [Ro Le].
    exists shapes. split; [exact E |]. split; [exact Ro |].
    rewrite (Le "HI"%string eq_refl). vm_compute. reflexivity.
  - destruct (roles_by_mode (M := reference.approxMath)
                (F := reference.sampleTable)
                (reference.configAt reference.defaultControls None))
      as [_ Fr].
    destruct (Fr eq_refl ltac:(discriminate) ltac:(discriminate))
      as (shapes & E & Ha & Hb & Ht & _).
    exists shapes. split; [exact E |]. split; [exact Ha |].
    split; [apply Hb; vm_compute; discriminate |].
    apply Ht. vm_compute. discriminate.
Defined.

(** C2 as stated fails at density 40: the texture phase runs but its count
    [floor(((40 - 40) / 60) * 50)] is 0, so no texture shape is produced. *)
Lemma no_texture_at_density_40 :
  40 <= density (reference.controlsAt 40 circle full)
  /\ exists shapes,
      generateComposition (M := reference.approxMath)
        (F := reference.sampleTable)
        (reference.configAt (reference.controlsAt 40 circle full) None)
      = Some shapes
      /\ countRole texture shapes = 0%nat
      /\ ~ hasRole texture shapes.
Proof.
  split; [vm_compute; discriminate |].
  destruct (freeForm_counts (M := reference.approxMath)
              (F := reference.sampleTable)
              (reference.configAt (reference.controlsAt 40 circle full) None)
              eq_refl (proj1 aurora_lists) (or_introl (proj2 aurora_lists)))
    as (shapes & E & _ & _ & Ct).
  exists shapes. split; [exact E |].
  assert (countRole texture shapes = 0%nat) as Z0 by exact Ct.
  split; [exact Z0 |].
  intros H. apply countRole_pos in H. lia.
Qed.


(** ** The animation tick *)

Section Tick.
Context {M : js.JsMath}.

Lemma ticks_map (ts : list (Q * Q * Q)) (shapes : list AnimatedShape) :
  ticks ts shapes = map (tickShape ts) shapes.
Proof.
  revert shapes. induction ts as [| [[w h] d] rest IH]; intros shapes; simpl.
  - now rewrite map_id.
  - rewrite IH. unfold updateAnimatedShapes. now rewrite map_map.
Qed.




Lemma within_self (o : Q) : 0 < o -> within o o.
Proof. unfold within. intros H. split; lra. Qed.

Lemma within_pulse (o s : Q) :
  0 < o -> -1 <= s <= 1 -> within o (o * (1 + s * 0.15)).
Proof. unfold within. intros H [S0 S1]. split; nra. Qed.

Lemma updateShape_pulseBounded (w h dt : Q) (a : AnimatedShape) :
  (forall q, -1 <= js.sin q <= 1) ->
  pulseBounded (updateShape w h dt a).
Proof.
  intros Hsin. unfold pulseBounded, updateShape. cbn.
  set (f := 1 + js.sin (pulsePhase a + pulseSpeed a * dt) * 0.15).
  assert (forall o, 0 < o -> within o (o * f)) as W
      by (intros o Ho; apply within_pulse; auto).
  unfold pulseGeometry.
  destruct (geometry (shape (base a))) as [r | gw gh cr | x2 y2 | r | sz].
  - destruct (originalRadius a) as [o |].
    + destruct (js.truthy o) eqn:T; intros o' [= <-] Ho.
      * now apply W.
      * rewrite (truthy_pos o Ho) in T. discriminate T.
    + intros o' E. discriminate E.
  - destruct (originalWidth a) as [ow |], (originalHeight a) as [oh |];
      try (intros ? ? E1 E2; discriminate).
    destruct (js.truthy ow && js.truthy oh) eqn:T;
      intros ow' oh' [= <-] [= <-] Hw Hh.
    + split; now apply W.
    + rewrite (truthy_pos ow Hw), (truthy_pos oh Hh) in T. discriminate T.
  - exact I.
  - destruct (originalRadius a) as [o |].
    + destruct (js.truthy o) eqn:T; intros o' [= <-] Ho.
      * now apply W.
      * rewrite (truthy_pos o Ho) in T. discriminate T.
    + intros o' E. discriminate E.
  - destruct (originalSize a) as [o |].
    + destruct (js.truthy o) eqn:T; intros o' [= <-] Ho.
      * now apply W.
      * rewrite (truthy_pos o Ho) in T. discriminate T.
    + intros o' E. discriminate E.
Qed.

Lemma tickShape_pulseBounded (ts : list (Q * Q * Q)) (a : AnimatedShape) :
  (forall q, -1 <= js.sin q <= 1) ->
  ts <> [] \/ pulseBounded a -> pulseBounded (tickShape ts a).
Proof.
  intros Hsin. revert a.
  induction ts as [| [[w h] d] rest IH]; intros a H; simpl.
  - destruct H as [H | H]; [congruence | exact H].
  - apply IH. right. now apply updateShape_pulseBounded.
Qed.

Lemma animate_pulseBounded (chaos motion : Q) (st : bool) (sh : RoleShape)
  (i : nat) (s : Z) :
  pulseBounded (fst (animate chaos motion st sh i s)).
Proof.
  unfold pulseBounded, animate. cbn.
  destruct (geometry (shape sh)); try exact I;
    try (intros o [= <-]; apply within_self);
    intros ow oh [= <-] [= <-] Hw Hh; split; now apply within_self.
Qed.

Lemma animateFrom_pulseBounded (chaos motion : Q) (st : bool)
  (shapes : list RoleShape) :
  forall i s, Forall pulseBounded (animateFrom chaos motion st shapes i s).
Proof.
  induction shapes as [| sh rest IH]; intros i s; cbn [animateFrom].
  - constructor.
  - pose proof (animate_pulseBounded chaos motion st sh i s) as P.
    destruct (animate chaos motion st sh i s) as [a s'].
    constructor; [exact P | apply IH].
Qed.

Lemma updateShape_lineKept (w h dt : Q) (a : AnimatedShape) :
  lineKept a (updateShape w h dt a).
Proof.
  unfold lineKept, isLine, type, updateShape, pulseGeometry. cbn.
  destruct (geometry (shape (base a))); intros E; try discriminate E.
  split; reflexivity.
Qed.

Lemma tickShape_lineKept (ts : list (Q * Q * Q)) (a : AnimatedShape) :
  lineKept a (tickShape ts a).
Proof.
  revert a. induction ts as [| [[w h] d] rest IH]; intros a; simpl.
  - intros H. auto.
  - intros H.
    destruct (updateShape_lineKept w h (d * 0.06) a H) as [L1 G1].
    destruct (IH _ L1) as [L2 G2]. split; [exact L2 | congruence].
Qed.

(** C7: with a sine that stays in [[-1, 1]], a shape whose pulse baseline
    is positive has its size field(s) between 0.85 and 1.15 times the
    baseline after every run of ticks that is not empty, and after every
    run at all if it was in that band before; this holds in particular for
    all the shapes that [addAnimationProperties] returns.  A line keeps its
    kind and its geometry through every run of ticks. *)
Theorem pulse_boundedness :
  (forall q, -1 <= js.sin q <= 1) ->
  (forall ts shapes,
      ts <> [] \/ Forall pulseBounded shapes ->
      Forall pulseBounded (ticks ts shapes))
  /\ (forall ts shapes chaos motion seed stationaryMode,
         Forall pulseBounded
           (ticks ts (addAnimationProperties shapes chaos motion seed
                        stationaryMode)))
  /\ (forall ts shapes, Forall2 lineKept shapes (ticks ts shapes)).
Proof.
  intros Hsin.
  assert (forall ts shapes,
             ts <> [] \/ Forall pulseBounded shapes ->
             Forall pulseBounded (ticks ts shapes)) as A.
  { intros ts shapes H. rewrite ticks_map. apply Forall_map.
    destruct H as [H | H].
    - apply Forall_forall. intros a _.
      apply tickShape_pulseBounded; auto.
    - eapply Forall_impl; [| exact H].
      intros a Pa. apply tickShape_pulseBounded; auto. }
  split; [exact A | split].
  - intros. apply A. right. apply animateFrom_pulseBounded.
  - intros ts shapes. rewrite ticks_map.
    induction shapes as [| a rest IH]; simpl; constructor.
    + apply tickShape_lineKept.
    + exact IH.
Qed.

End Tick.

Lemma approxSin_range (q : Q) :
  -1 <= reference.approxSin q <= 1.
Proof.
  unfold reference.approxSin, reference.clamp1. split.
  - apply Q.le_max_l.
  - apply Q.max_lub; [lra | apply Q.le_min_l].
Qed.


Lemma pulse_boundedness_witness :
  Forall pulseBounded
    (ticks (M := reference.approxMath) [(800, 800, 16); (800, 800, 17)]
       (addAnimationProperties (M := reference.approxMath)
          [mkRoleShape (createCircle 100 100 40 noOptions) anchor;
           mkRoleShape (createRectangle 300 300 60 30 noOptions) accent]
          30 60 1 (js.VBool false))).
Proof.
  apply (proj1 (proj2 (pulse_boundedness (M := reference.approxMath)
                         approxSin_range))).
Defined.

(** ** Animation set-up *)

Section SetUp.
Context {M : js.JsMath} {F : FontTable}.

(** The velocity that [addAnimationProperties] assigns: the formula of the
    specification times the velocity scale, on two successive draws. *)
Lemma animate_velocity (chaos motion : Q) (st : bool) (sh : RoleShape)
  (i : nat) (s : Z) :
  let r1 := animation.random (advance i s) in
  let r2 := animation.random (snd r1) in
  let a := fst (animate chaos motion st sh i s) in
  base a = sh
  /\ vx a = (fst r1 - 0.5) * 3 * (chaos / 100) * roleMultiplier (role sh)
            * (motion / 100) * (if st then 0 else 1)
  /\ vy a = (fst r2 - 0.5) * 3 * (chaos / 100) * roleMultiplier (role sh)
            * (motion / 100) * (if st then 0 else 1).
Proof. cbv zeta. unfold animate. cbn [fst snd animation.random]. auto. Qed.

Lemma animateFrom_still (chaos motion : Q) (shapes : list RoleShape) :
  forall i s,
    Forall (fun a => vx a == 0 /\ vy a == 0)
      (animateFrom chaos motion true shapes i s).
Proof.
  induction shapes as [| sh rest IH]; intros i s; cbn [animateFrom].
  - constructor.
  - destruct (animate_velocity chaos motion true sh i s) as (_ & X & Y).
    cbv zeta in X, Y.
    destruct (animate chaos motion true sh i s) as [a s'].
    cbn [fst] in X, Y. constructor; [| apply IH].
    rewrite X, Y. split; ring.
Qed.

(** Every animation mode is a string that is not empty, so the flag that
    [Canvas] passes is truthy whatever the mode. *)
Lemma canvas_flag_truthy (m : AnimationMode) :
  js.to_boolean (js.VString (AnimationMode_string m)) = true.
Proof. destruct m; reflexivity. Qed.

(** As wired by [Canvas], every velocity is zero in every animation mode. *)
Lemma canvas_velocity_zero (c : Controls) (p : Palette) (w h : Q) (sd : Z)
  (txt : string) (shapes : list AnimatedShape) :
  Canvas.regenerate c p w h sd txt = Some shapes ->
  Forall (fun a => vx a == 0 /\ vy a == 0) shapes.
Proof.
  unfold Canvas.regenerate, addAnimationProperties. intros H.
  destruct (generateComposition (mkConfig w h c p sd (Some txt)))
    as [baseShapes |]; [| discriminate H].
  injection H as <-.
  change (negb (AnimationMode_string (animationMode c) =? "")%string)
    with (js.to_boolean (js.VString (AnimationMode_string (animationMode c)))).
  rewrite canvas_flag_truthy. apply animateFrom_still.
Qed.

Lemma assign_last (st : closures.Store) (v v' : Z) :
  closures.assign (List.length st) v' (st ++ [v]) = st ++ [v'].
Proof.
  induction st as [| x st IH]; cbn [List.length app closures.assign].
  - reflexivity.
  - now rewrite IH.
Qed.

Lemma nth_error_last (st : closures.Store) (v : Z) :
  nth_error (st ++ [v]) (List.length st) = Some v.
Proof.
  induction st as [| x st IH]; cbn [List.length app nth_error].
  - reflexivity.
  - exact IH.
Qed.

Lemma nth_error_assign (st : closures.Store) (r : closures.Closure) (t v : Z) :
  nth_error st r = Some t -> nth_error (closures.assign r v st) r = Some v.
Proof.
  revert r. induction st as [| x st IH]; intros [| r] H;
    cbn [closures.assign nth_error] in *; try discriminate H.
  - reflexivity.
  - now apply IH.
Qed.

Lemma assign_assign (st : closures.Store) (r : closures.Closure) (v v' : Z) :
  closures.assign r v (closures.assign r v' st) = closures.assign r v st.
Proof.
  revert r. induction st as [| x st IH]; intros [| r];
    cbn [closures.assign]; try reflexivity.
  now rewrite IH.
Qed.

(** Running a computation on the variable of a closure is running its
    steps on the store one after the other: each draw is a call of the
    closure, which reads its variable and writes it back. *)
Lemma drawFrom_bind {A B} (r : closures.Closure) (m : Gen A)
  (k : A -> Gen B) (st : closures.Store) :
  closures.drawFrom r (bind m k) st
  = closures.bind (closures.drawFrom r m)
      (fun a => closures.drawFrom r (k a)) st.
Proof.
  unfold closures.drawFrom, closures.bind, bind.
  destruct (nth_error st r) as [t |] eqn:N; [| reflexivity].
  destruct (m t) as [[a t'] |]; [| reflexivity].
  rewrite (nth_error_assign st r t t' N).
  destruct (k a t') as [[b t''] |]; [| reflexivity].
  now rewrite assign_assign.
Qed.

Lemma drawFrom_random (r : closures.Closure) (st : closures.Store) :
  closures.drawFrom r random.random st
  = match nth_error st r with
    | Some t => Some (fst (next t), closures.assign r (snd (next t)) st)
    | None => None
    end.
Proof.
  unfold closures.drawFrom, random.random.
  destruct (nth_error st r) as [t |]; [| reflexivity].
  now destruct (next t).
Qed.

(** A closure made and used on the spot: its variable is the only one that
    changes, and what the code returns does not depend on the store. *)
Lemma create_drawFrom {A} (v : Z) (body : Gen A) (st : closures.Store) :
  closures.bind (closures.create v) (fun r => closures.drawFrom r body) st
  = match body v with
    | Some (a, t') => Some (a, st ++ [t'])
    | None => None
    end.
Proof.
  unfold closures.bind, closures.create, closures.drawFrom.
  rewrite nth_error_last. destruct (body v) as [[a t'] |]; [| reflexivity].
  now rewrite assign_last.
Qed.

Lemma create_ret {A} (v : Z) (a : A) (st : closures.Store) :
  closures.bind (closures.create v) (fun _ => closures.ret a) st
  = Some (a, st ++ [v]).
Proof. reflexivity. Qed.

(** In the store, [generateComposition] returns what the stateless reading
    returns, and leaves one more variable behind. *)
Lemma generateComposition_store (config : GeneratorConfig)
  (st : closures.Store) :
  match closures.generateComposition config st with
  | Some (shapes, st1) =>
      generateComposition config = Some shapes /\ exists t, st1 = st ++ [t]
  | None => generateComposition config = None
  end.
Proof.
  unfold closures.generateComposition, generateComposition.
  destruct (textMode config).
  - unfold closures.generateTextComposition, generateTextComposition.
    destruct (text config) as [[| ch txt] |];
      try (rewrite create_ret; split; [reflexivity | eexists; reflexivity]).
    destruct (getTextPathPoints (String ch txt) (width config) (height config)
                (density (controls config))) as [points bounds].
    destruct (List.length points =? 0)%nat.
    + rewrite create_ret. split; [reflexivity | eexists; reflexivity].
    + cbv zeta. rewrite create_drawFrom.
      match goal with
      | |- context [textShapes ?c ?sz ?off ?i ?pts ?t] =>
          destruct (textShapes c sz off i pts t) as [[l t'] |]
      end; [split; [reflexivity | eexists; reflexivity] | reflexivity].
  - rewrite create_drawFrom.
    destruct (freeForm config (createRandom (seed config))) as [[l t'] |];
      [split; [reflexivity | eexists; reflexivity] | reflexivity].
Qed.

Lemma addAnimationProperties_store (shapes : list RoleShape)
  (chaos motion : Q) (sd : Z) (mode : js.value) (st : closures.Store) :
  exists s,
    closures.addAnimationProperties shapes chaos motion sd mode st
    = Some (addAnimationProperties shapes chaos motion sd mode, st ++ [s]).
Proof.
  unfold closures.addAnimationProperties. cbv zeta.
  rewrite create_drawFrom. eexists. reflexivity.
Qed.

Lemma pipeline_store (config : GeneratorConfig) (chaos motion : Q) (sd : Z)
  (mode : js.value) (st : closures.Store) :
  match closures.pipeline config chaos motion sd mode st with
  | Some (animated, st1) =>
      (exists shapes,
          generateComposition config = Some shapes
          /\ animated = addAnimationProperties shapes chaos motion sd mode)
      /\ exists t s, st1 = st ++ [t; s]
  | None => generateComposition config = None
  end.
Proof.
  unfold closures.pipeline, closures.bind.
  pose proof (generateComposition_store config st) as G.
  destruct (closures.generateComposition config st) as [[shapes st0] |];
    [| exact G].
  destruct G as (E & t & ->).
  destruct (addAnimationProperties_store shapes chaos motion sd mode
              (st ++ [t])) as (s & ->).
  split; [exists shapes; auto |].
  exists t, s. now rewrite <- app_assoc.
Qed.

(** C5: an invocation of [generateComposition] followed by
    [addAnimationProperties] returns the same shapes, field by field, in
    whatever state earlier invocations have left the closures that exist:
    each invocation draws from two closures that it makes itself, from
    [seed], and writes to no variable that was there before.  So the result
    is that of the stateless reading of the two functions, and a second
    invocation with the same arguments, after the first, returns the same
    shapes again. *)
Theorem pipeline_deterministic (config : GeneratorConfig) (chaos motion : Q)
  (sd : Z) (mode : js.value) (st st' : closures.Store) :
  let run := closures.pipeline config chaos motion sd mode in
  option_map fst (run st) = option_map fst (run st')
  /\ option_map fst (run st)
     = option_map
         (fun shapes => addAnimationProperties shapes chaos motion sd mode)
         (generateComposition config)
  /\ (forall animated st1,
         run st = Some (animated, st1) ->
         firstn (List.length st) st1 = st
         /\ List.length st1 = (List.length st + 2)%nat
         /\ exists st2, run st1 = Some (animated, st2)).
Proof.
  cbv zeta.
  assert (forall s0,
             option_map fst (closures.pipeline config chaos motion sd mode s0)
             = option_map
                 (fun shapes =>
                    addAnimationProperties shapes chaos motion sd mode)
                 (generateComposition config)) as P.
  { intros s0. pose proof (pipeline_store config chaos motion sd mode s0) as H.
    destruct (closures.pipeline config chaos motion sd mode s0)
      as [[animated st1] |].
    - destruct H as ((shapes & -> & ->) & _). reflexivity.
    - rewrite H. reflexivity. }
  split; [now rewrite !P |]. split; [apply P |].
  intros animated st1 E.
  pose proof (pipeline_store config chaos motion sd mode st) as H.
  rewrite E in H. destruct H as (_ & t & s & ->).
  split; [| split].
  - rewrite firstn_app, Nat.sub_diag, firstn_all. cbn [firstn].
    now rewrite app_nil_r.
  - rewrite length_app. reflexivity.
  - pose proof (P st) as P1. pose proof (P (st ++ [t; s])) as P2.
    rewrite E in P1. cbn [option_map fst] in P1. rewrite <- P1 in P2.
    destruct (closures.pipeline config chaos motion sd mode (st ++ [t; s]))
      as [[animated' st2] |]; [| discriminate P2].
    injection P2 as ->. now exists st2.
Qed.

End SetUp.

Lemma pipeline_deterministic_witness :
  exists animated st1 st2,
    closures.pipeline (M := reference.approxMath) (F := reference.sampleTable)
      (reference.configAt reference.defaultControls (Some "HI"%string))
      30 60 1 (js.VBool false) [7; 11]%Z
    = Some (animated, st1)
    /\ firstn 2 st1 = [7; 11]%Z
    /\ closures.pipeline (M := reference.approxMath)
         (F := reference.sampleTable)
         (reference.configAt reference.defaultControls (Some "HI"%string))
         30 60 1 (js.VBool false) st1
       = Some (animated, st2)
    /\ animated <> [].
Proof.
  destruct (closures.pipeline (M := reference.approxMath)
              (F := reference.sampleTable)
              (reference.configAt reference.defaultControls
                 (Some "HI"%string))
              30 60 1 (js.VBool false) [7; 11]%Z)
    as [[animated st1] |] eqn:E; [| vm_compute in E; discriminate E].
  destruct (pipeline_deterministic (M := reference.approxMath)
              (F := reference.sampleTable)
              (reference.configAt reference.defaultControls
                 (Some "HI"%string))
              30 60 1 (js.VBool false) [7; 11]%Z [])
    as (_ & _ & H).
  destruct (H animated st1 E) as (K & _ & st2 & E2).
  exists animated, st1, st2.
  split; [reflexivity |]. split; [exact K |]. split; [exact E2 |].
  intros ->. vm_compute in E. discriminate E.
Defined.

(** C1: at the default controls (mode "full", chaos 30, motion 60), seed 1
    and no text, the first shape that [Canvas] animates is an anchor whose
    two velocity components are 0, while the formula of the specification
    with scale factor 1 gives [(random() - 0.5) * 3 * 0.3 * 0.3 * 0.6] on
    the first draw, which is not 0. *)
Theorem canvas_full_mode_is_still :
  animationMode reference.defaultControls = full
  /\ exists a rest,
      Canvas.regenerate (M := reference.approxMath)
        (F := reference.sampleTable)
        reference.defaultControls reference.aurora 800 800 1 ""
      = Some (a :: rest)
      /\ role (base a) = anchor
      /\ vx a == 0 /\ vy a == 0
      /\ ~ (fst (animation.random 1) - 0.5) * 3 * (30 / 100)
           * roleMultiplier anchor * (60 / 100) * 1 == 0.
Proof.
  split; [reflexivity |].
  destruct (Canvas.regenerate (M := reference.approxMath)
              (F := reference.sampleTable)
              reference.defaultControls reference.aurora 800 800 1 "")
    as [[| a rest] |] eqn:E;
    try (vm_compute in E; discriminate E).
  exists a, rest. split; [reflexivity |].
  pose proof (canvas_velocity_zero _ _ _ _ _ _ _ E) as Z0.
  inversion Z0 as [| ? ? [X Y] _]; subst.
  split; [| split; [exact X | split; [exact Y |]]].
  - assert (option_map (fun l => map (fun a => role (base a)) (firstn 1 l))
              (Canvas.regenerate (M := reference.approxMath)
                 (F := reference.sampleTable)
                 reference.defaultControls reference.aurora 800 800 1 "")
            = Some [anchor]) as R by (vm_compute; reflexivity).
    rewrite E in R. cbn in R. congruence.
  - vm_compute. discriminate.
Qed.

(** ** Empty and blank text *)

Section BlankText.
Context {M : js.JsMath} {F : FontTable}.

Lemma upperChar_blank (c : ascii) :
  js.isWhiteSpace c = true -> js.upperChar c = c.
Proof.
  destruct c as [[] [] [] [] [] [] [] []]; vm_compute; intros H;
    try discriminate H; reflexivity.
Qed.

Lemma trimStart_blank (txt : string) :
  whitespaceOnly txt = true -> js.trimStart txt = ""%string.
Proof.
  unfold whitespaceOnly. induction txt as [| c r IH]; simpl.
  - reflexivity.
  - intros H. apply andb_true_iff in H. destruct H as [Hc Hr].
    rewrite Hc. exact (IH Hr).
Qed.

Lemma trim_blank (txt : string) :
  whitespaceOnly txt = true -> js.trim txt = ""%string.
Proof.
  intros H. unfold js.trim. now rewrite (trimStart_blank txt H).
Qed.

Lemma textMode_blank (config : GeneratorConfig) :
  text config = None
  \/ (exists txt, text config = Some txt /\ whitespaceOnly txt = true) ->
  textMode config = false.
Proof.
  unfold textMode. intros [-> | (txt & -> & H)]; [reflexivity |].
  rewrite (trim_blank txt H). apply andb_false_r.
Qed.

Lemma letters_blank (txt : string) :
  whitespaceOnly txt = true -> blankWhiteSpace F ->
  forall i startX startY lw lh ls rate,
    fst (letters (js.toUpperCase txt) i startX startY lw lh ls rate) = []
    /\ List.length
         (snd (letters (js.toUpperCase txt) i startX startY lw lh ls rate))
       = String.length txt.
Proof.
  unfold whitespaceOnly. intros H B.
  induction txt as [| c r IH]; intros i startX startY lw lh ls rate; simpl.
  - auto.
  - simpl in H. apply andb_true_iff in H. destruct H as [Hc Hr].
    rewrite (upperChar_blank c Hc).
    specialize (IH Hr (i + 1)%Z startX startY lw lh ls rate).
    destruct (letters (js.toUpperCase r) (i + 1) startX startY lw lh ls rate)
      as [points bounds].
    cbn [fst snd] in IH. destruct IH as [-> L].
    cbn [fst snd List.length]. rewrite L.
    destruct (B c Hc) as [-> | ->]; auto.
Qed.

Lemma toUpperCase_length (txt : string) :
  String.length (js.toUpperCase txt) = String.length txt.
Proof. induction txt as [| c r IH]; simpl; congruence. Qed.

(** C3, as the code has it: [getTextPathPoints] returns exactly
    [{points: [], letterBounds: []}] for the empty text; for a text of white
    space only it returns no point (the table holding none for white space)
    and one letter bound per character; and [generateComposition] with no
    text, the empty text or a text of white space only is the free-form
    generation on the stream of the seed, which on a palette whose anchor
    and accent lists are not empty returns at least one anchor. *)
Theorem blank_text_is_free_form (config : GeneratorConfig) :
  (forall w h d, getTextPathPoints "" w h d = ([], []))
  /\ (forall txt w h d,
         whitespaceOnly txt = true -> blankWhiteSpace F ->
         fst (getTextPathPoints txt w h d) = []
         /\ List.length (snd (getTextPathPoints txt w h d))
            = String.length txt)
  /\ (text config = None
      \/ (exists txt, text config = Some txt /\ whitespaceOnly txt = true) ->
      generateComposition config
      = option_map fst (freeForm config (createRandom (seed config)))
      /\ (anchors (palette config) <> [] -> accents (palette config) <> [] ->
          exists shapes,
            generateComposition config = Some shapes
            /\ hasRole anchor shapes)).
Proof.
  split; [reflexivity | split].
  - intros txt w h d H B. unfold getTextPathPoints.
    rewrite toUpperCase_length.
    destruct (String.length txt =? 0)%nat eqn:E.
    + apply Nat.eqb_eq in E. rewrite E. auto.
    + apply letters_blank; assumption.
  - intros H. pose proof (textMode_blank config H) as Hm. split.
    + unfold generateComposition. now rewrite Hm.
    + intros Ha Hb.
      destruct (freeForm_counts config Hm Ha (or_introl Hb))
        as (shapes & E & Ca & _).
      exists shapes. split; [exact E |].
      apply countRole_pos.
      pose proof (anchorCount_pos (controls config)). lia.
Qed.

End BlankText.

Lemma sampleTable_blank : blankWhiteSpace reference.sampleTable.
Proof.
  intros c. destruct c as [[] [] [] [] [] [] [] []]; vm_compute; intros H;
    try discriminate H; auto.
Qed.

Lemma blank_text_is_free_form_witness :
  List.length
    (snd (getTextPathPoints (F := reference.sampleTable) "  " 800 800 60))
  = 2%nat
  /\ exists shapes,
      generateComposition (M := reference.approxMath)
        (F := reference.sampleTable)
        (reference.configAt reference.defaultControls (Some "  "%string))
      = Some shapes
      /\ hasRole anchor shapes.
Proof.
  destruct (blank_text_is_free_form (M := reference.approxMath)
              (F := reference.sampleTable)
              (reference.configAt reference.defaultControls
                 (Some "  "%string))) as (_ & B & G).
  split.
  - exact (proj2 (B "  "%string 800 800 60 eq_refl sampleTable_blank)).
  - destruct (G (or_intror (ex_intro _ "  "%string (conj eq_refl eq_refl))))
      as [_ R].
    apply R; discriminate.
Defined.

(** C3 as stated fails on a one-space text: [getTextPathPoints] records a
    letter bound for the space, and [generateComposition] runs the free-form
    generator, whose result has accent and texture shapes. *)
Lemma blank_text_counterexample :
  whitespaceOnly " " = true
  /\ getTextPathPoints (F := reference.sampleTable) " " 800 800 60
     <> ([], [])
  /\ exists shapes,
      generateComposition (M := reference.approxMath)
        (F := reference.sampleTable)
        (reference.configAt reference.defaultControls (Some " "%string))
      = Some shapes
      /\ countRole accent shapes = 9%nat
      /\ countRole texture shapes = 16%nat.
Proof.
  split; [reflexivity | split].
  - intros H. vm_compute in H. discriminate H.
  - destruct (freeForm_counts (M := reference.approxMath)
                (F := reference.sampleTable)
                (reference.configAt reference.defaultControls
                   (Some " "%string))
                eq_refl (proj1 aurora_lists) (or_introl (proj2 aurora_lists)))
      as (shapes & E & _ & Cb & Ct).
    exists shapes. split; [exact E |]. split; [exact Cb | exact Ct].
Qed.

(* ================================================================== *)
(** * Part III: further properties of the code *)
(* ================================================================== *)

(** ** [random.ts] *)

Section StreamExtras.

Lemma toInt32_range (z : Z) :
  (-2147483648 <= js.toInt32 z < 2147483648)%Z.
Proof.
  unfold js.toInt32.
  pose proof (Z.mod_pos_bound (z + 2147483648) 4294967296 ltac:(lia)). lia.
Qed.




(** X1: whatever the state of the stream (so for every seed, negative
    ones included, and at every position), a draw returns a number in
    [[0, 1)] and leaves a state that is a signed 32-bit integer. *)
Theorem draw_in_unit_interval (t : Z) :
  exists u t',
    random.random t = Some (u, t')
    /\ 0 <= u /\ u < 1
    /\ (-2147483648 <= t' < 2147483648)%Z.
Proof.
  exists (fst (next t)), (snd (next t)).
  split; [unfold random.random; now destruct (next t) |].
  destruct (next_unit t) as [H0 H1]. split; [exact H0 |]. split; [exact H1 |].
  unfold next. cbn [snd]. unfold js.xor at 1. apply toInt32_range.
Qed.


(** X3: for [lo <= hi], [range(lo, hi)] returns a number between [lo] and
    [hi], below [hi] when [lo < hi], and takes one draw. *)
Theorem range_between (lo hi : Q) (t : Z) :
  lo <= hi ->
  exists r,
    range lo hi t = Some (r, snd (next t))
    /\ lo <= r /\ r <= hi /\ (lo < hi -> r < hi).
Proof.
  intros H. exists (lo + fst (next t) * (hi - lo)).
  destruct (next_unit t) as [U0 U1].
  split.
  - unfold range, bind, random.random, ret. now destruct (next t).
  - set (u := fst (next t)) in *. repeat split; try nra.
Qed.

(** X4: for integers [lo <= hi], [int(lo, hi)] returns an integer between
    [lo] and [hi], both included. *)
Theorem int_between (lo hi : Z) (t : Z) :
  (lo <= hi)%Z ->
  exists n,
    int (inject_Z lo) (inject_Z hi) t = Some (n, snd (next t))
    /\ (lo <= n <= hi)%Z.
Proof.
  intros H.
  exists (js.floor (inject_Z lo
                    + fst (next t) * (inject_Z hi - inject_Z lo + 1))).
  destruct (next_unit t) as [U0 U1].
  split.
  - unfold int, bind, random.random, ret. now destruct (next t).
  - set (u := fst (next t)) in *.
    assert (inject_Z lo <= inject_Z hi) as Hq by now rewrite <- Zle_Qle.
    split.
    + apply Qfloor_at_least. nra.
    + assert (js.floor (inject_Z lo + u * (inject_Z hi - inject_Z lo + 1))
              < hi + 1)%Z; [| lia].
      apply Qfloor_below. rewrite inject_Z_plus. change (inject_Z 1) with 1.
      nra.
Qed.

(** X5: [pick] takes one draw; on a list that is not empty it returns an
    element of the list, on the empty list it returns [undefined]. *)
Theorem pick_member_or_undefined {T} (arr : list T) (t : Z) :
  (arr <> [] ->
   exists v, pick arr t = Some (Some v, snd (next t)) /\ In v arr)
  /\ (arr = [] -> pick arr t = Some (None, snd (next t))).
Proof.
  split.
  - intros Hne.
    destruct (pick_defined arr Hne t) as (o & t' & E & v & -> & Hin).
    exists v. split; [| exact Hin].
    rewrite E. unfold pick, bind, random.random, ret in E.
    destruct (next t) as [u t1]. cbn [snd]. now inversion E.
  - intros ->. unfold pick, bind, random.random, ret.
    destruct (next t) as [u t1]. cbn [snd List.length].
    replace (u * inject_Z (Z.of_nat 0)) with (u * 0) by reflexivity.
    assert (js.floor (u * 0) = 0%Z) as ->.
    { unfold js.floor. rewrite (Qfloor_comp (u * 0) 0) by ring. reflexivity. }
    reflexivity.
Qed.

End StreamExtras.

Lemma range_between_witness :
  exists r,
    range 2 5 (createRandom 1) = Some (r, snd (next (createRandom 1)))
    /\ 2 <= r /\ r <= 5 /\ (2 < 5 -> r < 5).
Proof. apply range_between. vm_compute. discriminate. Defined.

Lemma int_between_witness :
  exists n,
    int (inject_Z 1) (inject_Z 6) (createRandom 1)
    = Some (n, snd (next (createRandom 1)))
    /\ (1 <= n <= 6)%Z.
Proof. apply int_between. lia. Defined.

Lemma pick_member_or_undefined_witness :
  exists v,
    pick [circle; rectangle; circle] (createRandom 1)
    = Some (Some v, snd (next (createRandom 1)))
    /\ In v [circle; rectangle; circle].
Proof.
  apply (proj1 (pick_member_or_undefined [circle; rectangle; circle]
                  (createRandom 1))).
  discriminate.
Defined.

(** ** [palettes.ts] *)

Section PaletteExtras.
Import palettes paletteTable.

Lemma adjust_scaled_nonneg (variation : Q) (seed : Z) :
  (0 <= seed)%Z -> 0 <= variation ->
  - ((3 # 10) * (variation / 100)) <= adjust variation seed
  /\ adjust variation seed <= (3 # 10) * (variation / 100).
Proof.
  intros Hs V0. destruct (rnd_unit_nonneg seed Hs) as [R0 R1].
  unfold adjust, variationAmount, Qdiv. change (/ 100) with (1 # 100).
  set (r := rnd seed) in *. split; nra.
Qed.

Lemma round_near (q : Q) :
  inject_Z (js.round q) <= q + (1 # 2) /\ q - (1 # 2) < inject_Z (js.round q).
Proof.
  unfold js.round.
  pose proof (Qfloor_le (q + (1 # 2))) as H1.
  pose proof (Qlt_floor (q + (1 # 2))) as H2.
  rewrite inject_Z_plus in H2. change (inject_Z 1) with 1 in H2.
  split; lra.
Qed.

(** X6: for a seed that is not negative and a variation of at least 0, a
    channel [v] in [[0, 255]] moves by at most 30 percent of [v], scaled by
    [variation / 100], plus the half unit of the rounding. *)
Theorem channel_drift_bound (v : Z) (variation : Q) (seed : Z) :
  (0 <= seed)%Z -> 0 <= variation -> (0 <= v <= 255)%Z ->
  exists n,
    newChannel (Some v) (adjust variation seed) = Some n
    /\ inject_Z v - ((3 # 10) * (variation / 100) * inject_Z v + (1 # 2))
       <= inject_Z n
    /\ inject_Z n
       <= inject_Z v + ((3 # 10) * (variation / 100) * inject_Z v + (1 # 2)).
Proof.
  intros Hs V0 [L0 L1].
  destruct (adjust_scaled_nonneg variation seed Hs V0) as [A0 A1].
  set (adj := adjust variation seed) in *.
  set (a := (3 # 10) * (variation / 100)) in *.
  assert (0 <= a) as Ha by lra.
  eexists. split; [reflexivity |].
  destruct (round_near (inject_Z v * (1 + adj))) as [R1 R0].
  set (k := js.round (inject_Z v * (1 + adj))) in *.
  assert (0 <= inject_Z v) as Q0
      by (change 0 with (inject_Z 0); now rewrite <- Zle_Qle).
  assert (inject_Z v <= 255) as Q1
      by (change 255 with (inject_Z 255); now rewrite <- Zle_Qle).
  assert (inject_Z v - (a * inject_Z v + (1 # 2)) <= inject_Z k) as K0 by nra.
  assert (inject_Z k <= inject_Z v + (a * inject_Z v + (1 # 2))) as K1 by nra.
  assert (0 <= a * inject_Z v) as P by nra.
  destruct (Z.max_spec 0 k) as [[M1 ->] | [M1 ->]];
    [destruct (Z.min_spec 255 k) as [[N1 ->] | [N1 ->]]
    | destruct (Z.min_spec 255 0) as [[N1 ->] | [N1 ->]]]; try lia.
  - rewrite Zlt_Qlt in N1. change (inject_Z 255) with 255 in *.
    split; lra.
  - split; assumption.
  - rewrite Zle_Qle in M1. change (inject_Z 0) with 0 in *.
    split; lra.
Qed.

(** X7: [varyColor] reads the six digits after the [#] and nothing else:
    what follows them (the alpha digits of an eight-digit colour) is
    dropped from the result. *)
Theorem varyColor_ignores_suffix (c suffix : string) (variation : Q)
  (seed : Z) :
  isHexColor c = true ->
  varyColor (c ++ suffix) variation seed = varyColor c variation seed.
Proof.
  intros H.
  destruct (hexColor_shape c H)
    as (a1 & a2 & a3 & a4 & a5 & a6 & -> & _).
  destruct suffix; reflexivity.
Qed.

(** X8: [getPalette] always returns a palette of the table: the one of
    the given name if there is one, the first one ("Aurora") otherwise. *)
Theorem getPalette_lookup (n : string) :
  exists p,
    getPalette n = Some p
    /\ In p palettes
    /\ ((exists q, In q palettes /\ name q = n) -> name p = n)
    /\ ((forall q, In q palettes -> name q <> n) ->
        nth_error palettes 0 = Some p /\ name p = "Aurora"%string).
Proof.
  unfold getPalette.
  destruct (find (fun p => String.eqb (name p) n) palettes) as [p |] eqn:E.
  - exists p. destruct (find_some _ _ E) as [Hin Hn].
    apply String.eqb_eq in Hn.
    split; [reflexivity |]. split; [exact Hin |]. split; [auto |].
    intros Hnone. exfalso. exact (Hnone p Hin Hn).
  - eexists. split; [reflexivity |]. split; [simpl; auto |]. split.
    + intros (q & Hin & Hq).
      pose proof (find_none _ _ E q Hin) as Hf. cbv beta in Hf.
      apply String.eqb_neq in Hf. contradiction.
    + intros _. split; reflexivity.
Qed.

End PaletteExtras.

Lemma channel_drift_bound_witness :
  exists n,
    palettes.newChannel (Some 200%Z) (palettes.adjust 100 7) = Some n
    /\ inject_Z 200 - ((3 # 10) * (100 / 100) * inject_Z 200 + (1 # 2))
       <= inject_Z n
    /\ inject_Z n
       <= inject_Z 200 + ((3 # 10) * (100 / 100) * inject_Z 200 + (1 # 2)).
Proof.
  apply channel_drift_bound; [lia | vm_compute; discriminate | lia].
Defined.

Lemma varyColor_ignores_suffix_witness :
  palettes.varyColor ("#1f6feb" ++ "33") 30 7
  = palettes.varyColor "#1f6feb" 30 7.
Proof. apply varyColor_ignores_suffix. reflexivity. Defined.

Lemma getPalette_lookup_witness :
  (exists p, paletteTable.getPalette "Ocean" = Some p
             /\ name p = "Ocean"%string)
  /\ (exists p, paletteTable.getPalette "Nowhere" = Some p
                /\ name p = "Aurora"%string).
Proof.
  split.
  - destruct (getPalette_lookup "Ocean") as (p & E & Hin & Hn & _).
    exists p. split; [exact E |]. apply Hn.
    exists (nth 2 paletteTable.palettes reference.aurora).
    split; [simpl; auto | reflexivity].
  - destruct (getPalette_lookup "Nowhere") as (p & E & _ & _ & Hd).
    exists p. split; [exact E |]. apply Hd.
    intros q Hin. simpl in Hin.
    repeat (destruct Hin as [<- | Hin]; [discriminate |]). destruct Hin.
Defined.

(** ** [generator.ts]: when it throws, and what it returns *)

Section GeneratorExtras.
Context {M : js.JsMath} {F : FontTable}.

Lemma bind_fails_left {A B} (m : Gen A) (k : A -> Gen B) :
  (forall t, m t = None) -> forall t, bind m k t = None.
Proof. intros H t. unfold bind. now rewrite H. Qed.

Lemma bind_fails_right {A B} (P : A -> Prop) (m : Gen A) (k : A -> Gen B) :
  always P m -> (forall a, P a -> forall t, k a t = None) ->
  forall t, bind m k t = None.
Proof.
  intros Hm Hk t. destruct (Hm t) as (a & t' & E & Pa).
  unfold bind. rewrite E. now apply Hk.
Qed.

Lemma forLoop_fails {A} (body : Z -> Gen A) (n : nat) (i : Z) :
  (0 < n)%nat -> (forall t, body i t = None) ->
  forall t, forLoop n i body t = None.
Proof.
  intros Hn Hb. destruct n as [| n]; [lia |].
  cbn [forLoop]. now apply bind_fails_left.
Qed.

Lemma pick_nil_undefined {T} :
  always (fun o => o = None) (pick (@nil T)).
Proof.
  unfold pick. eapply always_bind; [apply random_always | intros u _].
  apply always_ret. cbn [List.length].
  destruct (js.floor (u * inject_Z (Z.of_nat 0)) <? 0)%Z; [reflexivity |].
  now destruct (Z.to_nat (js.floor (u * inject_Z (Z.of_nat 0)))).
Qed.

Lemma generateAnchors_throws (w h : Q) (c : Controls) (p : Palette)
  (sd : Z) :
  anchors p = [] -> forall t, generateAnchors w h c p sd t = None.
Proof.
  intros Hp. unfold generateAnchors. apply forLoop_fails.
  - pose proof (anchorCount_pos c). lia.
  - apply (bind_fails_right (fun _ => True)); [total |].
    intros [x y] _.
    apply (bind_fails_right (fun _ => True)); [apply pick_total |].
    intros shapeType _. rewrite Hp.
    apply (bind_fails_right (fun o => o = None)); [apply pick_nil_undefined |].
    intros base ->. apply bind_fails_left. reflexivity.
Qed.

Lemma generateAccents_throws (w h : Q) (c : Controls) (p : Palette)
  (anchorShapes : list RoleShape) (sd : Z) :
  accents p = [] -> (1 <= accentCount c)%Z ->
  forall t, generateAccents w h c p anchorShapes sd t = None.
Proof.
  intros Hp Hc. unfold generateAccents. apply forLoop_fails; [lia |].
  apply (bind_fails_right (fun _ => True)).
  { destruct anchorShapes as [| a0 rest].
    - change (0 <? List.length (@nil RoleShape))%nat with false.
      rewrite andb_false_r. total.
    - total. }
  intros [x0 y0] _.
  apply (bind_fails_right (fun _ => True)); [total |].
  intros [x y] _. rewrite Hp.
  apply (bind_fails_right (fun o => o = None)); [apply pick_nil_undefined |].
  intros base ->. apply bind_fails_left. reflexivity.
Qed.

(** X9: in free-form mode [generateComposition] throws exactly when the
    anchor list of the palette is empty, or the accent list is empty and at
    least one accent is due ([floor((density / 100) * 15) >= 1]); an empty
    texture list never makes it throw. *)
Theorem freeform_throws_iff (config : GeneratorConfig) :
  textMode config = false ->
  (generateComposition config = None <->
   anchors (palette config) = []
   \/ (accents (palette config) = []
       /\ (1 <= accentCount (controls config))%Z)).
Proof.
  intros Hm. unfold generateComposition. rewrite Hm. split.
  - intros E.
    destruct (anchors (palette config)) as [| a0 ar] eqn:Ea; [now left |].
    right.
    destruct (accents (palette config)) as [| b0 br] eqn:Eb.
    + split; [reflexivity |].
      destruct (Z_lt_le_dec (accentCount (controls config)) 1) as [L | L];
        [| exact L].
      exfalso.
      assert (anchors (palette config) <> []) as Na
          by (rewrite Ea; discriminate).
      assert (accents (palette config) <> []
              \/ (accentCount (controls config) <= 0)%Z) as Nb
          by (right; lia).
      destruct (freeForm_always config Na Nb (createRandom (seed config)))
        as (l & t' & E' & _).
      rewrite E' in E. discriminate E.
    + exfalso.
      assert (anchors (palette config) <> []) as Na
          by (rewrite Ea; discriminate).
      assert (accents (palette config) <> []
              \/ (accentCount (controls config) <= 0)%Z) as Nb
          by (left; rewrite Eb; discriminate).
      destruct (freeForm_always config Na Nb (createRandom (seed config)))
        as (l & t' & E' & _).
      rewrite E' in E. discriminate E.
  - intros [Ha | [Hb Hc]]; unfold freeForm.
    + rewrite bind_fails_left; [reflexivity |].
      now apply generateAnchors_throws.
    + destruct (anchors (palette config)) as [| a0 ar] eqn:Ea.
      * rewrite bind_fails_left; [reflexivity |].
        now apply generateAnchors_throws.
      * rewrite (bind_fails_right (fun _ => True)); [reflexivity | |].
        -- eapply always_weaken;
             [apply generateAnchors_always; rewrite Ea; discriminate | auto].
        -- intros a _. apply bind_fails_left.
           now apply generateAccents_throws.
Qed.

Lemma textShapes_throws (config : GeneratorConfig) (size off : Q)
  (points : list PathPoint) (i : Z) :
  anchors (palette config) = [] -> points <> [] ->
  forall t, textShapes config size off i points t = None.
Proof.
  intros Hp Hne. destruct points as [| point rest]; [congruence |].
  cbn [textShapes].
  apply (bind_fails_right (fun _ => True)); [apply gaussian_total |].
  intros g1 _.
  apply (bind_fails_right (fun _ => True)); [apply gaussian_total |].
  intros g2 _.
  apply (bind_fails_right (fun _ => True)); [apply range_total |].
  intros r _. rewrite Hp. cbn [List.length Nat.eqb].
  apply bind_fails_left. reflexivity.
Qed.

(** X10: with a text, [generateTextComposition] returns one shape per
    sampled path point, in every case but one: when the path has points and
    the anchor list of the palette is empty it throws. *)
Theorem text_mode_one_shape_per_point (config : GeneratorConfig)
  (txt : string) :
  text config = Some txt -> txt <> ""%string ->
  let points :=
    fst (getTextPathPoints txt (width config) (height config)
           (density (controls config))) in
  (anchors (palette config) <> [] \/ points = [] ->
   exists shapes,
     generateTextComposition config = Some shapes
     /\ List.length shapes = List.length points)
  /\ (anchors (palette config) = [] /\ points <> [] ->
      generateTextComposition config = None).
Proof.
  intros Ht Hne. cbv zeta. unfold generateTextComposition. rewrite Ht.
  destruct txt as [| ch rest]; [congruence |].
  destruct (getTextPathPoints (String ch rest) (width config) (height config)
              (density (controls config))) as [points bounds].
  cbn [fst]. split.
  - intros H.
    destruct points as [| p0 pr].
    + exists []. split; reflexivity.
    + destruct H as [H | H]; [| discriminate H].
      cbn [List.length Nat.eqb].
      match goal with
      | |- exists _, option_map fst (textShapes ?c ?sz ?off ?i ?pts ?t) = _ /\ _ =>
          destruct (textShapes_always c sz off pts H i ltac:(lia) t)
            as (l & t' & E & L);
          rewrite E; exists l; split; [reflexivity | exact L]
      end.
  - intros [Ha Hp]. destruct points as [| p0 pr]; [congruence |].
    cbn [List.length Nat.eqb].
    rewrite textShapes_throws; [reflexivity | exact Ha | discriminate].
Qed.

Lemma generateComposition_returns (config : GeneratorConfig) :
  anchors (palette config) <> [] -> accents (palette config) <> [] ->
  exists shapes, generateComposition config = Some shapes.
Proof.
  intros Ha Hb. unfold generateComposition.
  destruct (textMode config).
  - now apply generateTextComposition_total.
  - destruct (freeForm_always config Ha (or_introl Hb)
                (createRandom (seed config))) as (l & t' & E & _).
    rewrite E. eexists. reflexivity.
Qed.

(** X11: with a palette of the table (whatever name [getPalette] was
    asked for), [generateComposition] never throws, for any size, controls,
    seed and text. *)
Theorem table_palettes_never_throw (n : string) (p : Palette)
  (config : GeneratorConfig) :
  paletteTable.getPalette n = Some p -> palette config = p ->
  exists shapes, generateComposition config = Some shapes.
Proof.
  intros Hg Hp.
  assert (In p paletteTable.palettes) as Hin.
  { unfold paletteTable.getPalette in Hg.
    destruct (find (fun q => String.eqb (name q) n) paletteTable.palettes)
      as [q |] eqn:E.
    - injection Hg as <-. exact (proj1 (find_some _ _ E)).
    - injection Hg as <-. simpl. auto. }
  apply generateComposition_returns; rewrite Hp; simpl in Hin;
    repeat (destruct Hin as [<- | Hin]; [discriminate |]); destruct Hin.
Qed.

(** X12: in free-form mode, on a palette whose anchor and accent lists are
    not empty, the result is the anchors, then the accents, then the
    texture shapes, and their numbers are
    [max(1, floor(1 + (density / 100) * 3))], [floor((density / 100) * 15)]
    and, from density 40 on, [floor(((density - 40) / 60) * 50)] (0 below):
    they depend on the density only, not on the seed, the size or the
    other controls. *)
Theorem freeform_layers (config : GeneratorConfig) :
  textMode config = false ->
  anchors (palette config) <> [] -> accents (palette config) <> [] ->
  exists a b t,
    generateComposition config = Some (a ++ b ++ t)
    /\ Forall (isRole anchor) a /\ Forall (isRole accent) b
    /\ Forall (isRole texture) t
    /\ Z.of_nat (List.length a)
       = Z.max 1 (Qfloor (1 + (density (controls config) / 100) * 3))
    /\ Z.of_nat (List.length b)
       = Z.max 0 (Qfloor ((density (controls config) / 100) * 15))
    /\ Z.of_nat (List.length t)
       = (if js.ltb (density (controls config)) 40 then 0
          else Z.max 0 (Qfloor (((density (controls config) - 40) / 60) * 50)))%Z.
Proof.
  intros Hm Ha Hb.
  destruct (freeForm_always config Ha (or_introl Hb)
              (createRandom (seed config)))
    as (l & t' & E & a & b & t & -> & Fa & Fb & Ft & La & Lb & Lt).
  exists a, b, t. unfold generateComposition. rewrite Hm, E.
  split; [reflexivity |]. repeat split; try assumption.
  - rewrite La. unfold anchorCount, js.floor. lia.
  - rewrite Lb. unfold accentCount, js.floor. lia.
  - rewrite Lt. destruct (js.ltb (density (controls config)) 40);
      [reflexivity |].
    unfold textureCount, js.floor. lia.
Qed.

(** X13: for a density in [[0, 100]] the free-form mode returns between 1
    and 4 anchors, at most 15 accents and at most 50 texture shapes, so
    between 1 and 69 shapes in all. *)
Theorem freeform_shape_budget (config : GeneratorConfig) :
  textMode config = false ->
  anchors (palette config) <> [] -> accents (palette config) <> [] ->
  0 <= density (controls config) <= 100 ->
  exists shapes,
    generateComposition config = Some shapes
    /\ (1 <= countRole anchor shapes <= 4)%nat
    /\ (countRole accent shapes <= 15)%nat
    /\ (countRole texture shapes <= 50)%nat
    /\ (1 <= List.length shapes <= 69)%nat.
Proof.
  intros Hm Ha Hb [D0 D1].
  destruct (freeForm_always config Ha (or_introl Hb)
              (createRandom (seed config)))
    as (l & t' & E & a & b & t & -> & Fa & Fb & Ft & La & Lb & Lt).
  exists (a ++ b ++ t). unfold generateComposition. rewrite Hm, E.
  split; [reflexivity |].
  rewrite !countRole_app, !length_app.
  rewrite (countRole_same anchor a Fa), (countRole_same accent b Fb),
    (countRole_same texture t Ft).
  rewrite (countRole_other anchor accent b), (countRole_other anchor texture t),
    (countRole_other accent anchor a), (countRole_other accent texture t),
    (countRole_other texture anchor a), (countRole_other texture accent b)
    by (assumption || discriminate).
  assert (1 <= anchorCount (controls config) <= 4)%Z as Ba.
  { unfold anchorCount, js.floor, Qdiv. change (/ 100) with (1 # 100).
    assert (Qfloor (1 + density (controls config) * (1 # 100) * 3) < 5)%Z
      by (apply Qfloor_below; change (inject_Z 5) with 5; lra).
    lia. }
  assert (accentCount (controls config) <= 15)%Z as Bb.
  { unfold accentCount, js.floor, Qdiv. change (/ 100) with (1 # 100).
    assert (Qfloor (density (controls config) * (1 # 100) * 15) < 16)%Z
      by (apply Qfloor_below; change (inject_Z 16) with 16; lra).
    lia. }
  assert (textureCount (controls config) <= 50)%Z as Bt.
  { unfold textureCount, js.floor, Qdiv. change (/ 60) with (1 # 60).
    assert (Qfloor ((density (controls config) - 40) * (1 # 60) * 50) < 51)%Z
      by (apply Qfloor_below; change (inject_Z 51) with 51; lra).
    lia. }
  assert (List.length t <= 50)%nat as Bt'
      by (rewrite Lt; destruct (js.ltb (density (controls config)) 40); lia).
  rewrite La, Lb in *. lia.
Qed.

End GeneratorExtras.

Lemma freeform_throws_iff_witness :
  generateComposition (M := reference.approxMath) (F := reference.sampleTable)
    (mkConfig 800 800 reference.defaultControls
       (mkPalette "Bare" "#000000" [] ["#388bfd"%string] []) 1 None)
  = None.
Proof.
  apply (freeform_throws_iff (M := reference.approxMath)
           (F := reference.sampleTable)
           (mkConfig 800 800 reference.defaultControls
              (mkPalette "Bare" "#000000" [] ["#388bfd"%string] []) 1 None)
           eq_refl).
  left. reflexivity.
Defined.

Lemma text_mode_one_shape_per_point_witness :
  exists shapes,
    generateTextComposition (M := reference.approxMath)
      (F := reference.sampleTable)
      (reference.configAt reference.defaultControls (Some "HI"%string))
    = Some shapes
    /\ List.length shapes = 5%nat.
Proof.
  destruct (text_mode_one_shape_per_point (M := reference.approxMath)
              (F := reference.sampleTable)
              (reference.configAt reference.defaultControls
                 (Some "HI"%string))
              "HI" eq_refl ltac:(discriminate)) as [H _].
  apply H. left. discriminate.
Defined.

Lemma table_palettes_never_throw_witness :
  exists shapes,
    generateComposition (M := reference.approxMath)
      (F := reference.sampleTable)
      (reference.configAt reference.defaultControls (Some "HI"%string))
    = Some shapes.
Proof.
  apply (table_palettes_never_throw (M := reference.approxMath)
           (F := reference.sampleTable) "Aurora" reference.aurora);
    reflexivity.
Defined.

Lemma freeform_layers_witness :
  exists a b t,
    generateComposition (M := reference.approxMath)
      (F := reference.sampleTable)
      (reference.configAt reference.defaultControls None)
    = Some (a ++ b ++ t)
    /\ Z.of_nat (List.length a) = 2%Z
    /\ Z.of_nat (List.length b) = 9%Z
    /\ Z.of_nat (List.length t) = 16%Z.
Proof.
  destruct (freeform_layers (M := reference.approxMath)
              (F := reference.sampleTable)
              (reference.configAt reference.defaultControls None)
              eq_refl (proj1 aurora_lists) (proj2 aurora_lists))
    as (a & b & t & E & _ & _ & _ & La & Lb & Lt).
  exists a, b, t. split; [exact E |].
  split; [exact La |]. split; [exact Lb | exact Lt].
Defined.

Lemma freeform_shape_budget_witness :
  exists shapes,
    generateComposition (M := reference.approxMath)
      (F := reference.sampleTable)
      (reference.configAt reference.defaultControls None)
    = Some shapes
    /\ (1 <= countRole anchor shapes <= 4)%nat
    /\ (countRole accent shapes <= 15)%nat
    /\ (countRole texture shapes <= 50)%nat
    /\ (1 <= List.length shapes <= 69)%nat.
Proof.
  apply (freeform_shape_budget (M := reference.approxMath)
           (F := reference.sampleTable)
           (reference.configAt reference.defaultControls None)
           eq_refl (proj1 aurora_lists) (proj2 aurora_lists)).
  split; vm_compute; discriminate.
Defined.

(** ** [generator.ts]: where the shapes are put *)

Section PlacementExtras.
Context {M : js.JsMath} {F : FontTable}.



(** State 0 is a fixed point of the stream, and its draw is 0: from the
    seed [-0x6d2b79f5] on, every draw is 0. *)
Lemma zero_stream :
  createRandom (-1831565813) = 0%Z
  /\ snd (next 0) = 0%Z /\ fst (next 0) == 0
  /\ forall n, streamspec.positiveDraws (S n) (createRandom (-1831565813))
               = false.
Proof. repeat split. Qed.


(** The size of the anchors. *)
Lemma anchor_size_bounds (w h sc : Q) :
  0 < w -> 0 < h -> 0 <= sc <= 100 ->
  let size := Qmin w h * 0.15 * (0.5 + (sc / 100) * 1.5) in
  0 < size /\ size + size <= w /\ size + size <= h.
Proof.
  intros Hw Hh [S0 S1]. cbv zeta.
  unfold Qdiv. change (/ 100) with (1 # 100).
  pose proof (Q.le_min_l w h) as M1. pose proof (Q.le_min_r w h) as M2.
  assert (0 < Qmin w h) as M0 by (apply Q.min_glb_lt; assumption).
  set (m := Qmin w h) in *. repeat split; nra.
Qed.

Lemma forLoop_result {A} (P : A -> Prop) (body : Z -> Gen A) (n : nat)
  (i t : Z) :
  (forall j, always P (body j)) ->
  exists l t', forLoop n i body t = Some (l, t') /\ Forall P l.
Proof.
  intros Hb. destruct (forLoop_always P body n Hb i t) as (l & t' & E & _ & Fl).
  exists l, t'. auto.
Qed.

(** X15: without the grid ([structure <= 50]), for a scale in [[0, 100]]
    and a canvas of positive size, every anchor is centred at least its
    size [min(w, h) * 0.15 * (0.5 + scale / 100 * 1.5)] away from each
    edge, a circle has a radius of at most that size and a rectangle sides
    of at most 1.5 times that size: an anchor circle lies entirely on the
    canvas. *)
Theorem anchors_inside_margin (w h : Q) (c : Controls) (p : Palette)
  (sd t : Z) :
  structure c <= 50 -> 0 <= scale c <= 100 -> 0 < w -> 0 < h ->
  anchors p <> [] ->
  let size := Qmin w h * 0.15 * (0.5 + (scale c / 100) * 1.5) in
  exists l t',
    generateAnchors w h c p sd t = Some (l, t')
    /\ Forall
         (fun s =>
            role s = anchor
            /\ size <= x (shape s) <= w - size
            /\ size <= y (shape s) <= h - size
            /\ match geometry (shape s) with
               | Circle r =>
                   0 <= x (shape s) - r /\ x (shape s) + r <= w
                   /\ 0 <= y (shape s) - r /\ y (shape s) + r <= h
               | Rectangle rw rh _ =>
                   rw <= 1.5 * size /\ rh <= 1.5 * size
               | _ => False
               end)
         l.
Proof.
  intros Hst Hsc Hw Hh Hp. cbv zeta.
  destruct (anchor_size_bounds w h (scale c) Hw Hh Hsc) as (Z0 & Zw & Zh).
  cbv zeta in Z0, Zw, Zh.
  unfold generateAnchors.
  set (size := Qmin w h * 0.15 * (0.5 + scale c / 100 * 1.5)) in *.
  assert (js.gtb (structure c) 50 = false) as ->
      by (unfold js.gtb; now apply ltb_false).
  apply forLoop_result. intros i.
  apply (always_bind
           (fun xy => size <= fst xy <= w - size
                      /\ size <= snd xy <= h - size)).
  { eapply always_bind; [apply range_always |].
    intros x0 (u & U0 & U1 & ->).
    eapply always_bind; [apply range_always |].
    intros y0 (v & V0 & V1 & ->).
    apply always_ret. cbn [fst snd]. repeat split; nra. }
  intros [x0 y0] [[Bx0 Bx1] [By0 By1]]. cbn [fst snd] in Bx0, Bx1, By0, By1.
  apply (always_bind (fun _ => True)); [apply pick_total |].
  intros shapeType _.
  apply (always_bind _ _ _ _ (pick_defined (anchors p) Hp)).
  intros base (col & -> & _).
  apply (always_bind (fun _ => True)); [apply varyColor_opt_some |].
  intros color _.
  apply (always_bind (fun _ => True)); [total |].
  intros rot _.
  apply (always_bind
           (fun s =>
              size <= x s <= w - size /\ size <= y s <= h - size
              /\ match geometry s with
                 | Circle r =>
                     0 <= x s - r /\ x s + r <= w
                     /\ 0 <= y s - r /\ y s + r <= h
                 | Rectangle rw rh _ => rw <= 1.5 * size /\ rh <= 1.5 * size
                 | _ => False
                 end)).
  - destruct shapeType as [[] |];
      first
        [ eapply always_bind; [apply range_always |];
          intros rw (u & U0 & U1 & ->);
          eapply always_bind; [apply range_always |];
          intros rh (v & V0 & V1 & ->);
          apply (always_bind (fun _ => True)); [apply chance_total |];
          intros round _; apply always_ret; cbn;
          repeat split; try assumption; nra
        | eapply always_bind; [apply range_always |];
          intros r (u & U0 & U1 & ->); apply always_ret; cbn;
          repeat split; try assumption; nra ].
  - intros s Hs. apply always_ret. cbn [role shape]. split; [reflexivity |].
    exact Hs.
Qed.

(** X16: on a canvas of positive size every texture shape starts inside
    the canvas ([0 <= x < w], [0 <= y < h]), is not rotated, and takes its
    colour unchanged from the texture list of the palette (as the fill of
    a circle, as the stroke of a line); on an empty list the colour is
    [undefined] and nothing throws. *)
Theorem texture_inside_canvas (w h : Q) (c : Controls) (p : Palette)
  (t : Z) :
  0 < w -> 0 < h ->
  exists l t',
    generateTexture w h c p t = Some (l, t')
    /\ Forall
         (fun s =>
            role s = texture
            /\ 0 <= x (shape s) /\ x (shape s) < w
            /\ 0 <= y (shape s) /\ y (shape s) < h
            /\ rotation (shape s) = 0
            /\ (textures p <> [] ->
                exists col,
                  In col (textures p)
                  /\ match geometry (shape s) with
                     | Circle _ => fill (shape s) = Some col
                     | _ => stroke (shape s) = Some col
                     end)
            /\ (textures p = [] ->
                fill (shape s) = None /\ stroke (shape s) = None))
         l.
Proof.
  intros Hw Hh. unfold generateTexture.
  destruct (js.ltb (density c) 40).
  { exists [], t. split; [reflexivity | constructor]. }
  apply forLoop_result. intros i.
  eapply always_bind; [apply range_always |].
  intros x0 (u & U0 & U1 & ->).
  eapply always_bind; [apply range_always |].
  intros y0 (v & V0 & V1 & ->).
  apply (always_bind
           (fun o => (textures p <> [] ->
                      exists col, o = Some col /\ In col (textures p))
                     /\ (textures p = [] -> o = None))).
  { destruct (textures p) as [| c0 cr] eqn:Et.
    - eapply always_weaken; [apply pick_nil_undefined |].
      intros o ->. split; [congruence | reflexivity].
    - eapply always_weaken;
        [apply (pick_defined (c0 :: cr)); discriminate |].
      intros o (col & -> & Hin). split; [| discriminate].
      intros _. exists col. auto. }
  intros color [Hc1 Hc0].
  apply (always_bind (fun _ => True)); [apply pick_total |].
  intros shapeType _.
  assert (0 <= 0 + u * (w - 0) /\ 0 + u * (w - 0) < w) as [X0 X1]
      by (split; nra).
  assert (0 <= 0 + v * (h - 0) /\ 0 + v * (h - 0) < h) as [Y0 Y1]
      by (split; nra).
  set (x0 := 0 + u * (w - 0)) in *. set (y0 := 0 + v * (h - 0)) in *.
  apply (always_bind
           (fun s =>
              x s = x0 /\ y s = y0 /\ rotation s = 0
              /\ match geometry s with
                 | Circle _ => fill s = color /\ stroke s = None
                 | _ => stroke s = color /\ fill s = None
                 end)).
  - destruct shapeType as [[] |];
      first
        [ apply (always_bind (fun _ => True)); [apply range_total |];
          intros k _;
          apply (always_bind (fun _ => True)); [total |];
          intros angle _; apply always_ret; cbn; auto
        | apply (always_bind (fun _ => True)); [apply range_total |];
          intros k _; apply always_ret; cbn; auto ].
  - intros s (Ex & Ey & Er & G). apply always_ret. cbn [role shape].
    rewrite Ex, Ey, Er.
    repeat (split; [first [reflexivity | assumption] |]). split.
    + intros Hne. destruct (Hc1 Hne) as (col & -> & Hin).
      exists col. split; [exact Hin |].
      destruct (geometry s); destruct G; assumption.
    + intros He. rewrite (Hc0 He) in G.
      destruct (geometry s); destruct G; auto.
Qed.

End PlacementExtras.

Lemma anchors_inside_margin_witness :
  exists l t',
    generateAnchors (M := reference.approxMath) 800 600
      reference.defaultControls reference.aurora 1 (createRandom 1)
    = Some (l, t')
    /\ Forall (fun s => role s = anchor
                        /\ 0 <= x (shape s) <= 800
                        /\ 0 <= y (shape s) <= 600) l.
Proof.
  assert (structure reference.defaultControls <= 50) as H1
      by (vm_compute; discriminate).
  assert (0 <= scale reference.defaultControls <= 100) as H2
      by (split; vm_compute; discriminate).
  assert (0 < 800) as H3 by reflexivity.
  assert (0 < 600) as H4 by reflexivity.
  destruct (anchors_inside_margin (M := reference.approxMath) 800 600
              reference.defaultControls reference.aurora 1 (createRandom 1)
              H1 H2 H3 H4 (proj1 aurora_lists))
    as (l & t' & E & Fl).
  exists l, t'. split; [exact E |].
  eapply Forall_impl; [| exact Fl]. cbv beta.
  intros s (R & [X0 X1] & [Y0 Y1] & _).
  assert (0 <= Qmin 800 600 * 0.15 * (0.5 + 50 / 100 * 1.5)) as P
      by (vm_compute; discriminate).
  change (scale reference.defaultControls) with 50 in X0, X1, Y0, Y1.
  repeat split; try assumption; lra.
Defined.

Lemma texture_inside_canvas_witness :
  exists l t',
    generateTexture (M := reference.approxMath) 800 600
      reference.defaultControls reference.aurora (createRandom 1)
    = Some (l, t')
    /\ Forall (fun s => role s = texture /\ rotation (shape s) = 0) l.
Proof.
  assert (0 < 800) as H3 by reflexivity.
  assert (0 < 600) as H4 by reflexivity.
  destruct (texture_inside_canvas (M := reference.approxMath) 800 600
              reference.defaultControls reference.aurora (createRandom 1)
              H3 H4)
    as (l & t' & E & Fl).
  exists l, t'. split; [exact E |].
  eapply Forall_impl; [| exact Fl]. cbv beta. tauto.
Defined.


(** ** [fontPaths.ts]: the layout of a text *)

Section LayoutExtras.
Context {F : FontTable}.
Import layoutspec.

Lemma letters_bounds_length (up : string) :
  forall i sx sy lw lh ls rate,
    List.length (snd (letters up i sx sy lw lh ls rate)) = String.length up.
Proof.
  induction up as [| c r IH]; intros; cbn [letters].
  - reflexivity.
  - specialize (IH (i + 1)%Z sx sy lw lh ls rate).
    destruct (letters r (i + 1) sx sy lw lh ls rate) as [pts bds].
    cbn [snd List.length String.length] in *. now rewrite IH.
Qed.

Lemma letters_bounds_nth (up : string) :
  forall i sx sy lw lh ls rate k b,
    nth_error (snd (letters up i sx sy lw lh ls rate)) k = Some b ->
    b = mkBound (sx + inject_Z (i + Z.of_nat k) * (lw + ls)) lw.
Proof.
  induction up as [| c r IH]; intros i sx sy lw lh ls rate k b; cbn [letters].
  - destruct k; discriminate.
  - specialize (IH (i + 1)%Z sx sy lw lh ls rate).
    destruct (letters r (i + 1) sx sy lw lh ls rate) as [pts bds].
    cbn [snd] in *. destruct k as [| k]; cbn [nth_error].
    + intros [= <-]. now replace (i + Z.of_nat 0)%Z with i by lia.
    + intros H. rewrite (IH k b H).
      now replace (i + 1 + Z.of_nat k)%Z with (i + Z.of_nat (S k))%Z by lia.
Qed.

Lemma sample_In {A} (rate : nat) (l : list A) :
  forall skip a, In a (sample rate skip l) -> In a l.
Proof.
  induction l as [| p r IH]; intros skip a; cbn [sample].
  - auto.
  - destruct skip as [| k].
    + intros [<- | H]; [now left | right; eapply IH, H].
    + intros H. right. eapply IH, H.
Qed.

Lemma sample_length_le {A} (rate : nat) (l : list A) :
  forall skip, (List.length (sample rate skip l) <= List.length l)%nat.
Proof.
  induction l as [| p r IH]; intros skip; cbn [sample List.length].
  - lia.
  - destruct skip as [| k]; cbn [List.length].
    + specialize (IH (rate - 1)%nat). lia.
    + specialize (IH k). lia.
Qed.

Lemma sample_every {A} (l : list A) : sample 1 0 l = l.
Proof.
  induction l as [| p r IH]; cbn [sample]; [reflexivity |].
  change (1 - 1)%nat with 0%nat. now rewrite IH.
Qed.

Lemma letters_points_In (up : string) :
  unitGlyphs F ->
  forall i sx sy lw lh ls rate p,
    In p (fst (letters up i sx sy lw lh ls rate)) ->
    exists k gx gy,
      (k < String.length up)%nat
      /\ 0 <= gx <= 1 /\ 0 <= gy <= 1
      /\ px p = sx + inject_Z (i + Z.of_nat k) * (lw + ls) + gx * lw
      /\ py p = sy + gy * lh.
Proof.
  intros HU.
  induction up as [| c r IH]; intros i sx sy lw lh ls rate p; cbn [letters].
  - intros [].
  - specialize (IH (i + 1)%Z sx sy lw lh ls rate p).
    destruct (letters r (i + 1) sx sy lw lh ls rate) as [pts bds].
    cbn [fst] in *. intros H. apply in_app_or in H. destruct H as [H | H].
    + destruct (fontPaths c) as [path |] eqn:Ec; [| destruct H].
      apply in_map_iff in H. destruct H as (g & <- & Hin).
      apply sample_In in Hin.
      pose proof (HU c path Ec) as U. rewrite Forall_forall in U.
      destruct (U g Hin) as [Gx Gy].
      exists 0%nat, (px g), (py g). cbn [px py String.length].
      replace (i + Z.of_nat 0)%Z with i by lia.
      repeat split; try apply Gx; try apply Gy; lia.
    + destruct (IH H) as (k & gx & gy & Hk & Gx & Gy & Ex & Ey).
      exists (S k), gx, gy. cbn [String.length].
      replace (i + Z.of_nat (S k))%Z with (i + 1 + Z.of_nat k)%Z by lia.
      repeat split; try apply Gx; try apply Gy; try assumption; lia.
Qed.

Lemma letters_points_count (up : string) :
  forall i sx sy lw lh ls rate,
    (List.length (fst (letters up i sx sy lw lh ls rate)) <= glyphCount up)%nat
    /\ (rate = 1%nat ->
        List.length (fst (letters up i sx sy lw lh ls rate)) = glyphCount up).
Proof.
  induction up as [| c r IH]; intros i sx sy lw lh ls rate;
    cbn [letters glyphCount].
  - split; [cbn; lia | reflexivity].
  - specialize (IH (i + 1)%Z sx sy lw lh ls rate).
    destruct (letters r (i + 1) sx sy lw lh ls rate) as [pts bds].
    cbn [fst] in *. rewrite length_app. destruct IH as [IH1 IH2].
    destruct (fontPaths c) as [path |].
    + rewrite length_map. split.
      * pose proof (sample_length_le rate path 0). lia.
      * intros ->. rewrite sample_every, IH2; reflexivity.
    + cbn [List.length]. split; [lia |]. intros Hr. now rewrite IH2.
Qed.

(** The arithmetic of the layout for a text of [n >= 1] characters. *)
Lemma layout_arith (w h : Q) (n : nat) :
  (1 <= n)%nat -> 0 < w -> 0 < h ->
  let lw := cellWidth w h n in
  let sx := firstCell w h n in
  0 < lw /\ lw <= h * 0.6
  /\ forall k, (k < n)%nat ->
       0 <= sx + inject_Z (Z.of_nat k) * (lw + lw * 0.1)
       /\ sx + inject_Z (Z.of_nat k) * (lw + lw * 0.1) + lw <= w.
Proof.
  intros Hn Hw Hh. cbv zeta. unfold firstCell.
  set (len := inject_Z (Z.of_nat n)).
  assert (1 <= len) as L1.
  { subst len. change 1 with (inject_Z 1). rewrite <- Zle_Qle. lia. }
  set (q := (w - w * 0.08 * 2) / len).
  assert (q * len == w - w * 0.08 * 2) as Hq
      by (subst q; field; lra).
  assert (0 < q) as Q0.
  { subst q. apply Qlt_shift_div_l; lra. }
  unfold cellWidth. fold len. fold q.
  pose proof (Q.le_min_l q (h * 0.6)) as M1.
  pose proof (Q.le_min_r q (h * 0.6)) as M2.
  assert (0 < Qmin q (h * 0.6)) as M0 by (apply Q.min_glb_lt; lra).
  set (lw := Qmin q (h * 0.6)) in *.
  assert (lw * len <= w - w * 0.08 * 2) as A by nra.
  split; [exact M0 |]. split; [exact M2 |].
  intros k Hk.
  set (kq := inject_Z (Z.of_nat k)).
  assert (0 <= kq) as K0.
  { subst kq. change 0 with (inject_Z 0). rewrite <- Zle_Qle. lia. }
  assert (kq <= len - 1) as K1.
  { assert (inject_Z (Z.of_nat k + 1) <= inject_Z (Z.of_nat n)) as T
        by (rewrite <- Zle_Qle; lia).
    rewrite inject_Z_plus in T. change (inject_Z 1) with 1 in T.
    subst kq len. lra. }
  assert (0 <= kq * lw) as P1 by nra.
  assert (kq * lw <= (len - 1) * lw) as P2 by nra.
  unfold Qdiv. change (/ 2) with (1 # 2). split; nra.
Qed.

(** X17: for a text whose upper-cased form has [n >= 1] characters, on a
    canvas of positive size, [getTextPathPoints] records one bound per
    character of the upper-cased text, all of the same positive width
    [min(0.84 w / n, 0.6 h)]; bound [k] starts 1.1 widths after bound
    [k - 1], so the bounds run left to right without overlapping, and every
    bound lies inside [[0, w]]. *)
Theorem letter_bounds_layout (txt : string) (w h d : Q) :
  js.toUpperCase txt <> ""%string -> 0 < w -> 0 < h ->
  let n := String.length (js.toUpperCase txt) in
  let lw := cellWidth w h n in
  let bounds := snd (getTextPathPoints txt w h d) in
  List.length bounds = n
  /\ 0 < lw
  /\ (forall k b,
         nth_error bounds k = Some b ->
         bwidth b = lw
         /\ bx b == firstCell w h n + inject_Z (Z.of_nat k) * (lw * 1.1)
         /\ 0 <= bx b /\ bx b + bwidth b <= w)
  /\ (forall k b b',
         nth_error bounds k = Some b -> nth_error bounds (S k) = Some b' ->
         bx b + bwidth b < bx b').
Proof.
  intros Hne Hw Hh. cbv zeta. unfold getTextPathPoints.
  set (up := js.toUpperCase txt) in *.
  assert (1 <= String.length up)%nat as Hn
      by (destruct up; [congruence | cbn; lia]).
  destruct (layout_arith w h (String.length up) Hn Hw Hh) as (L0 & _ & La).
  cbv zeta in L0, La.
  destruct (String.length up =? 0)%nat eqn:E;
    [apply Nat.eqb_eq in E; lia |].
  fold (cellWidth w h (String.length up)).
  set (lw := cellWidth w h (String.length up)) in *.
  fold (firstCell w h (String.length up)).
  set (sx := firstCell w h (String.length up)) in *.
  match goal with
  | |- context [letters ?u ?i ?a ?b ?c ?dd ?e ?r] =>
      pose proof (letters_bounds_length u i a b c dd e r) as Hlen;
      pose proof (letters_bounds_nth u i a b c dd e r) as Hnth;
      set (bounds := snd (letters u i a b c dd e r)) in *
  end.
  assert (forall k b, nth_error bounds k = Some b ->
                      (k < String.length up)%nat
                      /\ b = mkBound (sx + inject_Z (Z.of_nat k)
                                             * (lw + lw * 0.1)) lw) as Hb.
  { intros k b H. split.
    - rewrite <- Hlen. apply nth_error_Some. congruence.
    - rewrite (Hnth k b H). now replace (0 + Z.of_nat k)%Z with (Z.of_nat k)
        by lia. }
  split; [exact Hlen |]. split; [exact L0 |]. split.
  - intros k b H. destruct (Hb k b H) as [Hk ->]. cbn [bx bwidth].
    destruct (La k Hk) as [A0 A1].
    split; [reflexivity |]. split; [ring |]. split; assumption.
  - intros k b b' H H'.
    destruct (Hb k b H) as [_ ->]. destruct (Hb (S k) b' H') as [_ ->].
    cbn [bx bwidth]. rewrite Nat2Z.inj_succ. unfold Z.succ.
    rewrite inject_Z_plus. change (inject_Z 1) with 1. nra.
Qed.

(** X18: if every point of the glyph table is in the unit square, then on
    a canvas of positive size every point that [getTextPathPoints] returns
    lies on the canvas, and within the horizontal extent of one of the
    recorded letter bounds. *)
Theorem text_points_on_canvas (txt : string) (w h d : Q) :
  unitGlyphs F -> 0 < w -> 0 < h ->
  Forall
    (fun p =>
       0 <= px p <= w /\ 0 <= py p <= h
       /\ exists b,
           In b (snd (getTextPathPoints txt w h d))
           /\ bx b <= px p <= bx b + bwidth b)
    (fst (getTextPathPoints txt w h d)).
Proof.
  intros HU Hw Hh. apply Forall_forall. intros p Hin.
  unfold getTextPathPoints in *.
  set (up := js.toUpperCase txt) in *.
  destruct (String.length up =? 0)%nat eqn:E; [destruct Hin |].
  apply Nat.eqb_neq in E.
  destruct (layout_arith w h (String.length up) ltac:(lia) Hw Hh)
    as (L0 & L1 & La).
  cbv zeta in L0, L1, La. unfold firstCell in La.
  fold (cellWidth w h (String.length up)) in *.
  set (lw := cellWidth w h (String.length up)) in *.
  match type of Hin with
  | In p (fst (letters ?u ?i ?a ?b ?c ?dd ?e ?r)) =>
      destruct (letters_points_In u HU i a b c dd e r p Hin)
        as (k & gx & gy & Hk & [Gx0 Gx1] & [Gy0 Gy1] & Ex & Ey);
      pose proof (letters_bounds_nth u i a b c dd e r k) as Hnth;
      pose proof (letters_bounds_length u i a b c dd e r) as Hlen
  end.
  replace (0 + Z.of_nat k)%Z with (Z.of_nat k) in Ex, Hnth by lia.
  destruct (La k Hk) as [A0 A1].
  rewrite Ex, Ey. unfold Qdiv in *. change (/ 2) with (1 # 2) in *.
  split; [split; nra |]. split; [split; nra |].
  match type of Hlen with
  | List.length ?bs = _ =>
      destruct (nth_error bs k) as [b |] eqn:Eb;
      [| apply nth_error_None in Eb; lia]
  end.
  exists b. split; [eapply nth_error_In, Eb |].
  rewrite (Hnth b eq_refl). cbn [bx bwidth]. split; nra.
Qed.

(** X19: [getTextPathPoints] never returns more points than the table
    holds for the characters of the (upper-cased) text, and for a density
    above 85 the stride is 1 and it returns all of them. *)
Theorem text_points_count (txt : string) (w h d : Q) :
  (List.length (fst (getTextPathPoints txt w h d))
   <= glyphCount (js.toUpperCase txt))%nat
  /\ (85 < d ->
      List.length (fst (getTextPathPoints txt w h d))
      = glyphCount (js.toUpperCase txt)).
Proof.
  unfold getTextPathPoints.
  destruct (String.length (js.toUpperCase txt) =? 0)%nat eqn:E.
  - apply Nat.eqb_eq in E.
    destruct (js.toUpperCase txt); [| discriminate E].
    split; [cbn; lia | reflexivity].
  - match goal with
    | |- context [letters ?up ?i ?a ?b ?c ?dd ?e ?r] =>
        destruct (letters_points_count up i a b c dd e r) as [C1 C2]
    end.
    split; [exact C1 |]. intros Hd. apply C2.
    assert (js.floor ((100 - d) / 15) < 1)%Z.
    { apply Qfloor_below. change (inject_Z 1) with 1.
      unfold Qdiv. change (/ 15) with (1 # 15). lra. }
    lia.
Qed.

End LayoutExtras.

Lemma sampleTable_unit : layoutspec.unitGlyphs reference.sampleTable.
Proof.
  intros c path. unfold fontPaths, reference.sampleTable.
  destruct (Ascii.eqb c "I"); [| destruct (Ascii.eqb c "H");
                                 [| destruct (Ascii.eqb c " ")]];
    intros [= <-]; repeat constructor; vm_compute; discriminate.
Qed.

Lemma letter_bounds_layout_witness :
  List.length (snd (getTextPathPoints (F := reference.sampleTable)
                      "hi" 800 800 100)) = 2%nat
  /\ 0 < layoutspec.cellWidth 800 800 2.
Proof.
  destruct (letter_bounds_layout (F := reference.sampleTable) "hi" 800 800 100
              ltac:(vm_compute; discriminate) eq_refl eq_refl) as (L & P & _).
  split; [exact L | exact P].
Defined.

Lemma text_points_on_canvas_witness :
  Forall (fun p => 0 <= px p <= 800 /\ 0 <= py p <= 800)
    (fst (getTextPathPoints (F := reference.sampleTable) "HI" 800 800 100)).
Proof.
  eapply Forall_impl;
    [| exact (text_points_on_canvas (F := reference.sampleTable) "HI" 800 800
                100 sampleTable_unit eq_refl eq_refl)].
  cbv beta. tauto.
Defined.

Lemma text_points_count_witness :
  List.length (fst (getTextPathPoints (F := reference.sampleTable)
                      "hi" 800 800 100)) = 12%nat.
Proof.
  apply (proj2 (text_points_count (F := reference.sampleTable)
                  "hi" 800 800 100)).
  reflexivity.
Defined.

(** ** [scripts/extract-font-paths.js] *)

Section ExtractExtras.
Context {M : js.JsMath}.
Import extractFontPaths extractspec layoutspec.

Lemma pushUpTo_ends {A} (n : Z) (f : Z -> A) (d : A) :
  (0 <= n)%Z ->
  List.length (pushUpTo n f) = S (Z.to_nat n)
  /\ hd_error (pushUpTo n f) = Some (f 0%Z)
  /\ last (pushUpTo n f) d = f n.
Proof.
  intros Hn. unfold pushUpTo.
  destruct (n <? 0)%Z eqn:E; [apply Z.ltb_lt in E; lia |].
  split; [now rewrite length_map, length_seq |]. split; [reflexivity |].
  rewrite seq_S, map_app. cbn [map]. rewrite last_last.
  cbn [Nat.add]. now rewrite Z2Nat.id by lia.
Qed.

Lemma ratio_zero (n : Z) : inject_Z 0 / inject_Z n == 0.
Proof. unfold Qdiv. change (inject_Z 0) with 0. ring. Qed.

Lemma ratio_one (n : Z) : (1 <= n)%Z -> inject_Z n / inject_Z n == 1.
Proof.
  intros H. field. intros E.
  assert (inject_Z 1 <= inject_Z n) as L by now rewrite <- Zle_Qle.
  change (inject_Z 1) with 1 in L. lra.
Qed.

(** X20: the three samplers return at least two points, of which the
    first is the start of the segment and the last is its end: that is
    what lets [pathToPoints] drop the first point of every segment as "the
    current position".  [sampleQuadratic] and [sampleCubic] return
    [samples + 1] points. *)
Theorem samplers_hit_both_ends :
  (forall x0 y0 x1 y1 minDistance d,
      let l := interpolateLine x0 y0 x1 y1 minDistance in
      (2 <= List.length l)%nat
      /\ (exists p, hd_error l = Some p /\ px p == x0 /\ py p == y0)
      /\ px (last l d) == x1 /\ py (last l d) == y1)
  /\ (forall x0 y0 x1 y1 x2 y2 samples d,
         (1 <= samples)%Z ->
         let l := sampleQuadratic x0 y0 x1 y1 x2 y2 samples in
         List.length l = S (Z.to_nat samples)
         /\ (exists p, hd_error l = Some p /\ px p == x0 /\ py p == y0)
         /\ px (last l d) == x2 /\ py (last l d) == y2)
  /\ (forall x0 y0 x1 y1 x2 y2 x3 y3 samples d,
         (1 <= samples)%Z ->
         let l := sampleCubic x0 y0 x1 y1 x2 y2 x3 y3 samples in
         List.length l = S (Z.to_nat samples)
         /\ (exists p, hd_error l = Some p /\ px p == x0 /\ py p == y0)
         /\ px (last l d) == x3 /\ py (last l d) == y3).
Proof.
  split; [| split].
  - intros x0 y0 x1 y1 minDistance d. cbv zeta. unfold interpolateLine.
    set (n := Z.max 1 (js.ceil (js.sqrt ((x1 - x0) * (x1 - x0)
                                         + (y1 - y0) * (y1 - y0))
                                / minDistance))).
    assert (1 <= n)%Z as Hn by (subst n; lia).
    match goal with
    | |- context [pushUpTo n ?f] =>
        destruct (pushUpTo_ends n f d ltac:(lia)) as (L & H & T)
    end.
    rewrite L, H, T. split; [lia |]. split.
    + eexists. split; [reflexivity |]. cbn [px py].
      rewrite (ratio_zero n). split; ring.
    + cbn [px py]. rewrite (ratio_one n Hn). split; ring.
  - intros x0 y0 x1 y1 x2 y2 samples d Hs. cbv zeta. unfold sampleQuadratic.
    match goal with
    | |- context [pushUpTo samples ?f] =>
        destruct (pushUpTo_ends samples f d ltac:(lia)) as (L & H & T)
    end.
    rewrite L, H, T. split; [reflexivity |]. split.
    + eexists. split; [reflexivity |]. cbn [px py].
      rewrite (ratio_zero samples). split; ring.
    + cbn [px py]. rewrite (ratio_one samples Hs). split; ring.
  - intros x0 y0 x1 y1 x2 y2 x3 y3 samples d Hs. cbv zeta.
    unfold sampleCubic.
    match goal with
    | |- context [pushUpTo samples ?f] =>
        destruct (pushUpTo_ends samples f d ltac:(lia)) as (L & H & T)
    end.
    rewrite L, H, T. split; [reflexivity |]. split.
    + eexists. split; [reflexivity |]. cbn [px py].
      rewrite (ratio_zero samples). split; ring.
    + cbn [px py]. rewrite (ratio_one samples Hs). split; ring.
Qed.

Lemma bounds_step_boxed (seen : list PathPoint) (a b c d : Q)
  (p : PathPoint) :
  boxed seen a b c d ->
  boxed (seen ++ [p]) (Qmin a (px p)) (Qmax b (px p)) (Qmin c (py p))
    (Qmax d (py p)).
Proof.
  intros (Hall & (pa & Ia & Ea) & (pb & Ib & Eb) & (pc & Ic & Ec)
          & (pd & Id & Ed)).
  pose proof (Q.le_min_l a (px p)). pose proof (Q.le_min_r a (px p)).
  pose proof (Q.le_max_l b (px p)). pose proof (Q.le_max_r b (px p)).
  pose proof (Q.le_min_l c (py p)). pose proof (Q.le_min_r c (py p)).
  pose proof (Q.le_max_l d (py p)). pose proof (Q.le_max_r d (py p)).
  split.
  - intros q Hq. apply in_app_or in Hq. destruct Hq as [Hq | [<- | []]].
    + destruct (Hall q Hq) as [[? ?] [? ?]]. repeat split; lra.
    + repeat split; assumption.
  - repeat split.
    + destruct (Q.min_dec a (px p)) as [E | E].
      * exists pa. split; [apply in_or_app; now left | now rewrite E].
      * exists p. split; [apply in_or_app; right; now left | now rewrite E].
    + destruct (Q.max_dec b (px p)) as [E | E].
      * exists pb. split; [apply in_or_app; now left | now rewrite E].
      * exists p. split; [apply in_or_app; right; now left | now rewrite E].
    + destruct (Q.min_dec c (py p)) as [E | E].
      * exists pc. split; [apply in_or_app; now left | now rewrite E].
      * exists p. split; [apply in_or_app; right; now left | now rewrite E].
    + destruct (Q.max_dec d (py p)) as [E | E].
      * exists pd. split; [apply in_or_app; now left | now rewrite E].
      * exists p. split; [apply in_or_app; right; now left | now rewrite E].
Qed.

Lemma bounds_fold_boxed (rest seen : list PathPoint) (a b c d : Q) :
  boxed seen a b c d ->
  exists a' b' c' d',
    fold_left
      (fun '(minX, maxX, minY, maxY) p =>
         (minInto minX (px p), maxInto maxX (px p),
          minInto minY (py p), maxInto maxY (py p)))
      rest (Some a, Some b, Some c, Some d)
    = (Some a', Some b', Some c', Some d')
    /\ boxed (seen ++ rest) a' b' c' d'.
Proof.
  revert seen a b c d.
  induction rest as [| p rest IH]; intros seen a b c d H; cbn [fold_left].
  - exists a, b, c, d. rewrite app_nil_r. auto.
  - cbn [minInto maxInto].
    destruct (IH (seen ++ [p]) _ _ _ _ (bounds_step_boxed seen a b c d p H))
      as (a' & b' & c' & d' & E & B).
    exists a', b', c', d'. rewrite <- app_assoc in B. auto.
Qed.

Lemma bounds_boxed (points : list PathPoint) :
  points <> [] ->
  exists a b c d,
    bounds points = (Some a, Some b, Some c, Some d)
    /\ boxed points a b c d.
Proof.
  destruct points as [| p rest]; [congruence | intros _].
  unfold bounds. cbn [fold_left minInto maxInto].
  apply (bounds_fold_boxed rest [p]).
  split; [| repeat split; exists p; split; try (now left); reflexivity].
  intros q [<- | []]. repeat split; lra.
Qed.

Lemma orOne_pos (v : Q) : 0 <= v -> 0 < orOne v /\ v <= orOne v.
Proof.
  intros H. unfold orOne, js.truthy.
  destruct (Qeq_bool v 0) eqn:E; cbn [negb].
  - apply Qeq_bool_iff in E. split; lra.
  - apply Qeq_bool_neq in E. split; lra.
Qed.

Lemma orOne_same (v : Q) : ~ v == 0 -> orOne v = v.
Proof.
  intros H. unfold orOne, js.truthy.
  destruct (Qeq_bool v 0) eqn:E; [| reflexivity].
  apply Qeq_bool_iff in E. contradiction.
Qed.

Lemma normalizePoints_shape (points : list PathPoint) :
  points <> [] ->
  exists a b c d scale,
    boxed points a b c d
    /\ scale = Qmax (orOne (b - a)) (orOne (d - c))
    /\ 0 < scale /\ b - a <= scale /\ d - c <= scale
    /\ normalizePoints points
       = map (fun p => mkPoint ((px p - a) / scale) ((py p - c) / scale))
           points.
Proof.
  intros Hne. destruct (bounds_boxed points Hne) as (a & b & c & d & E & B).
  exists a, b, c, d, (Qmax (orOne (b - a)) (orOne (d - c))).
  assert (0 <= b - a /\ 0 <= d - c) as [Wx Wy].
  { destruct B as (Hall & (pa & Ia & Ea) & _).
    destruct (Hall pa Ia) as [[? ?] [? ?]]. split; lra. }
  destruct (orOne_pos (b - a) Wx) as [P1 P2].
  destruct (orOne_pos (d - c) Wy) as [P3 P4].
  pose proof (Q.le_max_l (orOne (b - a)) (orOne (d - c))).
  pose proof (Q.le_max_r (orOne (b - a)) (orOne (d - c))).
  split; [exact B |]. split; [reflexivity |].
  split; [lra |]. split; [lra |]. split; [lra |].
  unfold normalizePoints. rewrite E.
  destruct points; [congruence | reflexivity].
Qed.

Lemma div_unit (v s : Q) : 0 < s -> 0 <= v -> v <= s -> 0 <= v / s <= 1.
Proof.
  intros Hs H0 H1. split.
  - apply Qle_shift_div_l; lra.
  - apply Qle_shift_div_r; lra.
Qed.

(** X21: on a list that is not empty [normalizePoints] keeps the number
    and the order of the points, puts every point in the unit square, with
    a point on the left edge and a point on the top edge ([x = 0],
    [y = 0]); when the points differ both in [x] and in [y], some point has
    a coordinate equal to 1.  (When one extent is 0 it is replaced by 1, and
    the other axis need not reach 1.)  The empty list is returned as it
    is. *)
Theorem normalizePoints_unit_square (points : list PathPoint) :
  normalizePoints [] = []
  /\ (points <> [] ->
      let out := normalizePoints points in
      List.length out = List.length points
      /\ Forall inUnitSquare out
      /\ (exists p, In p out /\ px p == 0)
      /\ (exists p, In p out /\ py p == 0)
      /\ ((exists p q, In p points /\ In q points /\ ~ px p == px q) ->
          (exists p q, In p points /\ In q points /\ ~ py p == py q) ->
          exists p, In p out /\ (px p == 1 \/ py p == 1))).
Proof.
  split; [reflexivity |]. intros Hne. cbv zeta.
  destruct (normalizePoints_shape points Hne)
    as (a & b & c & d & scale & B & Es & S0 & Sx & Sy & ->).
  destruct B as (Hall & (pa & Ia & Ea) & (pb & Ib & Eb) & (pc & Ic & Ec)
                 & (pd & Id & Ed)).
  split; [apply length_map |]. split; [| split; [| split]].
  - apply Forall_map, Forall_forall. intros p Hp.
    destruct (Hall p Hp) as [[? ?] [? ?]]. unfold inUnitSquare. cbn [px py].
    split; apply div_unit; lra.
  - eexists. split; [apply in_map, Ia |]. cbn [px].
    rewrite Ea. unfold Qdiv. ring.
  - eexists. split; [apply in_map, Ic |]. cbn [py].
    rewrite Ec. unfold Qdiv. ring.
  - intros (p & q & Hp & Hq & Dx) (p' & q' & Hp' & Hq' & Dy).
    assert (~ b - a == 0) as Nx.
    { intros Z0. apply Dx.
      destruct (Hall p Hp) as [[? ?] _]. destruct (Hall q Hq) as [[? ?] _].
      lra. }
    assert (~ d - c == 0) as Ny.
    { intros Z0. apply Dy.
      destruct (Hall p' Hp') as [_ [? ?]]. destruct (Hall q' Hq') as [_ [? ?]].
      lra. }
    rewrite (orOne_same _ Nx), (orOne_same _ Ny) in Es.
    destruct (Q.max_dec (b - a) (d - c)) as [E | E]; rewrite <- Es in E.
    + eexists. split; [apply in_map, Ib |]. left. cbn [px].
      rewrite Eb, E. field. lra.
    + eexists. split; [apply in_map, Id |]. right. cbn [py].
      rewrite Ed, E. field. lra.
Qed.

Lemma round4_unit (v : Q) :
  0 <= v <= 1 -> 0 <= round4 v <= 1 /\ fourDecimals (round4 v).
Proof.
  intros [H0 H1]. unfold round4.
  destruct (round_near (v * 10000)) as [R1 R0].
  assert (0 <= js.round (v * 10000) <= 10000)%Z as [K0 K1].
  { split.
    - unfold js.round. apply Qfloor_nonneg. lra.
    - assert (js.round (v * 10000) < 10001)%Z; [| lia].
      unfold js.round. apply Qfloor_below. change (inject_Z 10001) with 10001.
      lra. }
  split; [| eexists; reflexivity].
  rewrite Zle_Qle in K0, K1.
  change (inject_Z 0) with 0 in K0. change (inject_Z 10000) with 10000 in K1.
  apply div_unit; lra.
Qed.

(** X22: whatever the outline and the units per em, the entry that the
    script stores for a glyph has all its points in the unit square, with
    coordinates of at most four decimals: the table it writes satisfies
    what the layout of a text needs. *)
Theorem stored_glyph_in_unit_square (pathCommands : list Command)
  (unitsPerEm : Q) :
  Forall
    (fun p => inUnitSquare p
              /\ fourDecimals (px p) /\ fourDecimals (py p))
    (glyphEntry pathCommands unitsPerEm).
Proof.
  unfold glyphEntry.
  set (raw := pathToPoints pathCommands unitsPerEm).
  apply Forall_map.
  destruct raw as [| p0 rest] eqn:Er; [constructor |].
  assert (raw <> []) as Hne by (rewrite Er; discriminate).
  rewrite <- Er.
  destruct (normalizePoints_shape raw Hne)
    as (a & b & c & d & scale & B & Es & S0 & Sx & Sy & ->).
  destruct B as (Hall & _).
  apply Forall_map, Forall_forall. intros p Hp.
  destruct (Hall p Hp) as [[? ?] [? ?]]. cbn [px py].
  destruct (round4_unit ((px p - a) / scale)) as [U1 G1];
    [apply div_unit; lra |].
  destruct (round4_unit ((py p - c) / scale)) as [U2 G2];
    [apply div_unit; lra |].
  unfold inUnitSquare. cbn [px py]. auto.
Qed.

End ExtractExtras.

Lemma samplers_hit_both_ends_witness :
  List.length (extractFontPaths.sampleQuadratic 0 0 50 100 100 0
                 extractFontPaths.CURVE_SAMPLES) = 9%nat
  /\ List.length (extractFontPaths.sampleCubic 0 0 30 100 70 100 100 0
                    extractFontPaths.CURVE_SAMPLES) = 9%nat.
Proof.
  destruct (samplers_hit_both_ends (M := reference.approxMath))
    as (_ & Hq & Hc).
  split.
  - exact (proj1 (Hq 0 0 50 100 100 0 extractFontPaths.CURVE_SAMPLES
                    (mkPoint 0 0) ltac:(unfold extractFontPaths.CURVE_SAMPLES; lia))).
  - exact (proj1 (Hc 0 0 30 100 70 100 100 0 extractFontPaths.CURVE_SAMPLES
                    (mkPoint 0 0) ltac:(unfold extractFontPaths.CURVE_SAMPLES; lia))).
Defined.

Lemma normalizePoints_unit_square_witness :
  Forall layoutspec.inUnitSquare
    (extractFontPaths.normalizePoints
       [mkPoint 100 200; mkPoint 300 1000; mkPoint 500 200]).
Proof.
  apply (proj2 (normalizePoints_unit_square
                  [mkPoint 100 200; mkPoint 300 1000; mkPoint 500 200])).
  discriminate.
Defined.

(** ** [animation.ts]: decoration and ticks *)

Section AnimationExtras.
Context {M : js.JsMath}.
Import animspec.

Lemma lcg_step (s : Z) :
  (0 <= s)%Z ->
  0 <= fst (animation.random s) /\ fst (animation.random s) < 1
  /\ (0 <= snd (animation.random s))%Z.
Proof.
  intros H. unfold animation.random. cbn [fst snd].
  assert (0 <= js.rem (s * 9301 + 49297) 233280 < 233280)%Z as B
      by (unfold js.rem; apply Z.rem_bound_pos; lia).
  destruct (ratio_unit _ 233280 B) as [R0 R1].
  split; [exact R0 |]. split; [exact R1 | lia].
Qed.

Lemma advance_nonneg (i : nat) :
  forall s, (0 <= s)%Z -> (0 <= advance i s)%Z.
Proof.
  induction i as [| i IH]; intros s H; cbn [advance]; [exact H |].
  apply IH. now apply lcg_step.
Qed.

Lemma tri_bound (r c m k : Q) :
  0 <= r -> r < 1 -> 0 <= c <= 1 -> 0 <= m <= 1 -> 0 <= k ->
  - (1.5 * k) <= (r - 0.5) * 3 * c * k * m
  /\ (r - 0.5) * 3 * c * k * m <= 1.5 * k.
Proof.
  intros R0 R1 [C0 C1] [M0 M1] K0.
  assert (0 <= c * m <= 1) as [T0 T1] by (split; nra).
  set (t := c * m) in *.
  assert (- 1.5 <= (r - 0.5) * 3 * t <= 1.5) as [U0 U1] by (split; nra).
  assert ((r - 0.5) * 3 * c * k * m == (r - 0.5) * 3 * t * k) as ->
      by (subst t; ring).
  set (u := (r - 0.5) * 3 * t) in *. split; nra.
Qed.

Lemma slider_unit (v : Q) : 0 <= v <= 100 -> 0 <= v / 100 <= 1.
Proof.
  intros [H0 H1]. unfold Qdiv. change (/ 100) with (1 # 100). split; lra.
Qed.

Lemma roleMultiplier_range (r : Role) :
  0 <= roleMultiplier r /\ roleMultiplier r <= 1.
Proof. destruct r; split; vm_compute; discriminate. Qed.

Ltac draw :=
  match goal with
  | |- context [animation.random ?s] =>
      let H := fresh "D" in
      assert (0 <= s)%Z as H by (first [assumption | now apply advance_nonneg]);
      let R0 := fresh "R" in
      let R1 := fresh "R" in
      let S0 := fresh "S" in
      destruct (lcg_step s H) as (R0 & R1 & S0);
      destruct (animation.random s) as [? ?];
      cbn [fst snd] in R0, R1, S0
  end.

Lemma animate_ranges (chaos motion : Q) (st : bool) (sh : RoleShape)
  (i : nat) (s : Z) :
  (0 <= s)%Z -> 0 <= chaos <= 100 -> 0 <= motion <= 100 ->
  inRanges (fst (animate chaos motion st sh i s))
  /\ (0 <= snd (animate chaos motion st sh i s))%Z.
Proof.
  intros Hs Hc Hm. unfold animate. cbv zeta.
  do 8 draw. cbn [fst snd]. split; [| assumption].
  pose proof (slider_unit chaos Hc) as C. pose proof (slider_unit motion Hm) as N.
  destruct (roleMultiplier_range (role sh)) as [K0 K1].
  unfold inRanges. cbv zeta.
  cbn [base vx vy vRotation pulseSpeed wobbleSpeed wobbleAmount].
  set (c := chaos / 100) in *. set (m := motion / 100) in *.
  set (k := roleMultiplier (role sh)) in *.
  destruct C as [C0 C1], N as [N0 N1].
  repeat match goal with
         | |- context [(?r - 0.5) * 3 * c * k * m] =>
             lazymatch goal with
             | _ : - (1.5 * k) <= (r - 0.5) * 3 * c * k * m |- _ => fail
             | _ => destruct (tri_bound r c m k) as [? ?];
                    try assumption; try (split; assumption)
             end
         end.
  assert (forall r, 0 <= r -> r < 1 -> 0 <= r * c * m <= 1) as P.
  { intros r A0 A1. assert (0 <= c * m <= 1) as [T0 T1] by (split; nra).
    assert (r * c * m == r * (c * m)) as -> by ring.
    set (t := c * m) in *. split; nra. }
  destruct st.
  - repeat split; try lra; try nra.
    + match goal with
      | |- 4 <= 4 + ?r * 8 * c * m =>
          destruct (P r) as [A0 A1]; try assumption;
          assert (r * 8 * c * m == 8 * (r * c * m)) as -> by ring; lra
      end.
    + match goal with
      | |- 4 + ?r * 8 * c * m <= 23 =>
          destruct (P r) as [A0 A1]; try assumption;
          assert (r * 8 * c * m == 8 * (r * c * m)) as -> by ring; lra
      end.
  - repeat split; try lra; try nra.
    + match goal with
      | |- 4 <= 8 + ?r * 15 * c * m =>
          destruct (P r) as [A0 A1]; try assumption;
          assert (r * 15 * c * m == 15 * (r * c * m)) as -> by ring; lra
      end.
    + match goal with
      | |- 8 + ?r * 15 * c * m <= 23 =>
          destruct (P r) as [A0 A1]; try assumption;
          assert (r * 15 * c * m == 15 * (r * c * m)) as -> by ring; lra
      end.
Qed.

Lemma animateFrom_ranges (chaos motion : Q) (st : bool)
  (shapes : list RoleShape) :
  0 <= chaos <= 100 -> 0 <= motion <= 100 ->
  forall i s, (0 <= s)%Z ->
    Forall inRanges (animateFrom chaos motion st shapes i s).
Proof.
  intros Hc Hm.
  induction shapes as [| sh rest IH]; intros i s Hs; cbn [animateFrom].
  - constructor.
  - destruct (animate_ranges chaos motion st sh i s Hs Hc Hm) as [R S0].
    destruct (animate chaos motion st sh i s) as [a s'].
    cbn [fst snd] in R, S0. constructor; [exact R | now apply IH].
Qed.

Lemma animate_fresh (chaos motion : Q) (st : bool) (sh : RoleShape)
  (i : nat) (s : Z) :
  base (fst (animate chaos motion st sh i s)) = sh
  /\ fresh (fst (animate chaos motion st sh i s)).
Proof.
  unfold animate, fresh. cbn [fst snd animation.random].
  cbn [base wobbleX wobbleY originalRadius originalWidth originalHeight
       originalSize].
  split; [reflexivity |]. split; [reflexivity |]. split; [reflexivity |].
  destruct (geometry (shape sh)); auto.
Qed.

Lemma animateFrom_fresh (chaos motion : Q) (st : bool)
  (shapes : list RoleShape) :
  forall i s,
    map base (animateFrom chaos motion st shapes i s) = shapes
    /\ Forall fresh (animateFrom chaos motion st shapes i s).
Proof.
  induction shapes as [| sh rest IH]; intros i s; cbn [animateFrom].
  - split; [reflexivity | constructor].
  - destruct (animate_fresh chaos motion st sh i s) as [B Fr].
    destruct (animate chaos motion st sh i s) as [a s'].
    cbn [fst] in B, Fr. destruct (IH (S i) s') as [Em Fm].
    cbn [map]. rewrite B, Em. split; [reflexivity |]. now constructor.
Qed.

(** X23: [addAnimationProperties] decorates every shape once, in order and
    unchanged: the shapes underneath the result are the input.  Each
    result has the shape's own size as its pulse baseline (radius, or width
    and height, or triangle size; none for a line) and no wobble offset
    yet. *)
Theorem decoration_keeps_shapes (shapes : list RoleShape) (chaos motion : Q)
  (seed : Z) (stationaryMode : js.value) :
  map base (addAnimationProperties shapes chaos motion seed stationaryMode)
  = shapes
  /\ Forall fresh
       (addAnimationProperties shapes chaos motion seed stationaryMode).
Proof. unfold addAnimationProperties. apply animateFrom_fresh. Qed.

(** X24: for a seed that is not negative and chaos and motion in
    [[0, 100]], every decorated shape has velocity components and angular
    velocity of magnitude at most 1.5 times its role weight (0.45 for an
    anchor, 1.05 for an accent, 1.5 for a texture shape), a pulse speed in
    [[0, 0.06]], a wobble speed in [[0, 0.045]] and a wobble amplitude in
    [[4, 23]]. *)
Theorem decoration_ranges (shapes : list RoleShape) (chaos motion : Q)
  (seed : Z) (stationaryMode : js.value) :
  (0 <= seed)%Z -> 0 <= chaos <= 100 -> 0 <= motion <= 100 ->
  Forall inRanges
    (addAnimationProperties shapes chaos motion seed stationaryMode).
Proof.
  intros Hs Hc Hm. unfold addAnimationProperties.
  now apply animateFrom_ranges.
Qed.

Lemma pulseGeometry_type (a : AnimatedShape) (f : Q) :
  match pulseGeometry a f, geometry (shape (base a)) with
  | Circle _, Circle _ | Rectangle _ _ _, Rectangle _ _ _ | Line _ _, Line _ _
  | Semicircle _, Semicircle _ | Triangle _, Triangle _ => True
  | _, _ => False
  end.
Proof.
  unfold pulseGeometry.
  destruct (geometry (shape (base a)));
    repeat match goal with
           | |- context [match ?o with Some _ => _ | None => _ end] =>
               destruct o
           | |- context [if ?b then _ else _] => destruct b
           end; exact I.
Qed.

Lemma kept_refl (a : AnimatedShape) : kept a a.
Proof. unfold kept. repeat split; reflexivity. Qed.

Lemma kept_trans (a b c : AnimatedShape) : kept a b -> kept b c -> kept a c.
Proof.
  unfold kept. intros H1 H2.
  repeat match goal with H : _ /\ _ |- _ => destruct H end.
  repeat split; try congruence; etransitivity; eassumption.
Qed.

Lemma Qabs_flip (v : Q) (b : bool) :
  Qabs (if b then v * -1 else v) == Qabs v.
Proof.
  destruct b; [| reflexivity].
  assert (v * -1 == - v) as -> by ring. apply Qabs_opp.
Qed.

Lemma updateShape_kept (w h dt : Q) (a : AnimatedShape) :
  kept a (updateShape w h dt a).
Proof.
  unfold kept, updateShape, setPosition, type.
  cbn [base shape role fill stroke strokeWidth vRotation pulseSpeed
       wobbleSpeed wobbleAmount originalRadius originalWidth originalHeight
       originalSize vx vy geometry].
  pose proof (pulseGeometry_type a
                (1 + js.sin (pulsePhase a + pulseSpeed a * dt) * 0.15)) as T.
  repeat split; try apply Qabs_flip.
  destruct (pulseGeometry a _), (geometry (shape (base a)));
    try destruct T; reflexivity.
Qed.

Lemma tickShape_kept (ts : list (Q * Q * Q)) :
  forall a, kept a (tickShape ts a).
Proof.
  induction ts as [| [[w h] d] rest IH]; intros a; cbn [tickShape].
  - apply kept_refl.
  - eapply kept_trans; [apply updateShape_kept | apply IH].
Qed.

Lemma Forall2_map_self {A} (R : A -> A -> Prop) (f : A -> A) (l : list A) :
  (forall a, R a (f a)) -> Forall2 R l (map f l).
Proof. intros H. induction l; cbn [map]; constructor; auto. Qed.

(** X25: through any run of ticks (any sizes, any time steps) the array
    keeps its length and every shape keeps its role, kind, fill, stroke,
    stroke width, angular velocity, pulse and wobble speeds, wobble
    amplitude and pulse baseline; a velocity component may change its sign
    but never its magnitude. *)
Theorem ticks_keep_identity (ts : list (Q * Q * Q))
  (shapes : list AnimatedShape) :
  List.length (ticks ts shapes) = List.length shapes
  /\ Forall2 kept shapes (ticks ts shapes).
Proof.
  rewrite ticks_map. split; [apply length_map |].
  apply Forall2_map_self, tickShape_kept.
Qed.

Lemma no_bounce (limit p : Q) :
  50 <= p <= limit - 50 -> js.ltb p 50 || js.gtb p (limit - 50) = false.
Proof.
  intros [H0 H1]. unfold js.gtb.
  assert (js.ltb p 50 = false) as -> by now apply ltb_false.
  assert (js.ltb (limit - 50) p = false) as -> by now apply ltb_false.
  reflexivity.
Qed.

Lemma updateShape_still (w h dt : Q) (a : AnimatedShape) :
  still w h a ->
  still w h (updateShape w h dt a) /\ samePlace a (updateShape w h dt a).
Proof.
  intros (Vx & Vy & [Bx0 Bx1] & [By0 By1]).
  assert (x (shape (base a)) + vx a * dt == x (shape (base a))) as Ex
      by (rewrite Vx; ring).
  assert (y (shape (base a)) + vy a * dt == y (shape (base a))) as Ey
      by (rewrite Vy; ring).
  unfold still, samePlace, inBox, updateShape, setPosition.
  cbn [base shape x y vx vy].
  rewrite (no_bounce w (x (shape (base a)) + vx a * dt)) by (split; lra).
  rewrite (no_bounce h (y (shape (base a)) + vy a * dt)) by (split; lra).
  repeat split; try assumption; lra.
Qed.

Lemma tickShape_still (w h : Q) (ds : list Q) :
  forall a,
    still w h a ->
    still w h (tickShape (map (fun d => (w, h, d)) ds) a)
    /\ samePlace a (tickShape (map (fun d => (w, h, d)) ds) a).
Proof.
  induction ds as [| d rest IH]; intros a H; cbn [map tickShape].
  - split; [exact H | split; reflexivity].
  - destruct (updateShape_still w h (d * 0.06) a H) as [S1 [Px Py]].
    destruct (IH _ S1) as [S2 [Qx Qy]].
    split; [exact S2 |]. split; etransitivity; eassumption.
Qed.

(** X26: a shape with zero velocity that is inside the inset box of the
    canvas stays exactly where it is, and stays such a shape, through any
    number of ticks on that canvas, whatever the time steps: only its
    rotation, its phases and its pulsed size change. *)
Theorem still_shapes_stay (w h : Q) (ds : list Q)
  (shapes : list AnimatedShape) :
  Forall (still w h) shapes ->
  Forall2 samePlace shapes (ticks (map (fun d => (w, h, d)) ds) shapes)
  /\ Forall (still w h) (ticks (map (fun d => (w, h, d)) ds) shapes).
Proof.
  intros H. rewrite ticks_map. split.
  - induction H as [| a l Ha _ IH]; cbn [map]; constructor; [| exact IH].
    exact (proj2 (tickShape_still w h ds a Ha)).
  - apply Forall_map. eapply Forall_impl; [| exact H].
    intros a Ha. exact (proj1 (tickShape_still w h ds a Ha)).
Qed.

End AnimationExtras.

Lemma decoration_ranges_witness :
  Forall animspec.inRanges
    (addAnimationProperties (M := reference.approxMath)
       [mkRoleShape (createCircle 100 100 40 noOptions) anchor;
        mkRoleShape (createLine 10 10 50 50 noOptions) texture]
       30 60 1 (js.VBool false)).
Proof.
  apply (decoration_ranges (M := reference.approxMath)); [lia | |];
    split; vm_compute; discriminate.
Defined.

Lemma still_shapes_stay_witness :
  Forall2 animspec.samePlace
    [mkAnimated (mkRoleShape (createCircle 400 300 40 noOptions) anchor)
       0 0 1 0 0 (Some 40) None None None 0 0 8 None None]
    (ticks (M := reference.approxMath)
       (map (fun d => (800, 600, d)) [16; 17; 33])
       [mkAnimated (mkRoleShape (createCircle 400 300 40 noOptions) anchor)
          0 0 1 0 0 (Some 40) None None None 0 0 8 None None]).
Proof.
  apply (still_shapes_stay (M := reference.approxMath) 800 600 [16; 17; 33]).
  repeat constructor; vm_compute; discriminate.
Defined.

(** ** Rendering: [shapes.ts], [animation.ts], [Canvas.tsx] *)

Section RenderExtras.
Context {M : js.JsMath}.
Import render CanvasLoop renderspec.

Lemma renderOrder_split (shapes : list AnimatedShape) :
  Permutation shapes (renderOrder shapes)
  /\ Forall (fun a => role (base a) = texture)
       (filter (hasRole texture) shapes)
  /\ Forall (fun a => role (base a) = accent)
       (filter (hasRole accent) shapes)
  /\ Forall (fun a => role (base a) = anchor)
       (filter (hasRole anchor) shapes).
Proof.
  split.
  - unfold renderOrder. cbv zeta.
    induction shapes as [| a l IH]; [constructor |].
    cbn [filter]. unfold hasRole in *.
    destruct (role (base a)); cbn [Role_eqb].
    + rewrite app_assoc. apply Permutation_cons_app.
      now rewrite <- app_assoc.
    + cbn [app]. apply Permutation_cons_app. exact IH.
    + cbn [app]. now constructor.
  - repeat split; apply Forall_forall; intros a Ha;
      apply filter_In in Ha; destruct Ha as [_ Hr]; unfold hasRole in Hr;
      destruct (role (base a)); try discriminate Hr; reflexivity.
Qed.

(** X27: a frame draws every shape of the array exactly once, all the
    texture shapes first, then all the accents, then all the anchors
    (within a role, in array order), after clearing the canvas with the
    background at an alpha between 0.15 and 0.45 (for motion in
    [[0, 100]]); the shapes it draws are the shapes after the tick. *)
Theorem frame_draws_by_layer (shapes : list AnimatedShape)
  (canvasWidth canvasHeight : Q) (background : string) (motion : Q)
  (isAnimating : bool) (lastTimeRef time : Q) :
  let frame := animate shapes canvasWidth canvasHeight background motion
                 isAnimating lastTimeRef time in
  exists alpha back middle front,
    calls frame
    = [ctx.fillStyle background; ctx.globalAlpha alpha;
       ctx.fillRect 0 0 canvasWidth canvasHeight; ctx.globalAlpha 1]
      ++ flat_map renderAnimatedShape (back ++ middle ++ front)
    /\ Permutation (shapesAfter frame) (back ++ middle ++ front)
    /\ back = filter (hasRole texture) (shapesAfter frame)
    /\ middle = filter (hasRole accent) (shapesAfter frame)
    /\ front = filter (hasRole anchor) (shapesAfter frame)
    /\ Forall (fun a => role (base a) = texture) back
    /\ Forall (fun a => role (base a) = accent) middle
    /\ Forall (fun a => role (base a) = anchor) front
    /\ List.length (shapesAfter frame) = List.length shapes
    /\ (0 <= motion <= 100 -> 0.15 <= alpha <= 0.45).
Proof.
  cbv zeta. unfold animate. cbn [calls shapesAfter].
  set (updated := updateAnimatedShapes shapes canvasWidth canvasHeight _).
  destruct (renderOrder_split updated) as (P & Ft & Fa & Fn).
  exists (0.15 + (1 - motion / 100) * 0.3),
    (filter (hasRole texture) updated), (filter (hasRole accent) updated),
    (filter (hasRole anchor) updated).
  split; [reflexivity |]. split; [exact P |].
  repeat (split; [first [reflexivity | assumption] |]).
  split.
  - subst updated. unfold updateAnimatedShapes. apply length_map.
  - intros [M0 M1]. unfold Qdiv. change (/ 100) with (1 # 100). split; lra.
Qed.

(** X28: for a preset of positive width and height the displayed canvas
    fits in 800 by 800, touches that square on its longer side and keeps
    the aspect ratio of the preset. *)
Theorem display_size_fits (presetWidth presetHeight : Q) :
  0 < presetWidth -> 0 < presetHeight ->
  let displayWidth := fst (displaySize presetWidth presetHeight) in
  let displayHeight := snd (displaySize presetWidth presetHeight) in
  0 < displayWidth /\ displayWidth <= 800
  /\ 0 < displayHeight /\ displayHeight <= 800
  /\ (displayWidth == 800 \/ displayHeight == 800)
  /\ displayWidth * presetHeight == displayHeight * presetWidth.
Proof.
  intros Hw Hh. cbv zeta. unfold displaySize. cbv zeta.
  set (r := presetWidth / presetHeight).
  assert (r * presetHeight == presetWidth) as Er by (subst r; field; lra).
  assert (0 < r) as R0 by (subst r; apply Qlt_shift_div_l; lra).
  set (q := 800 / r).
  assert (q * r == 800) as Eq by (subst q; field; lra).
  assert (0 < q) as Q0 by (subst q; apply Qlt_shift_div_l; lra).
  unfold js.gtb. destruct (js.ltb 800 q) eqn:E; cbn [fst snd].
  - apply ltb_true in E.
    assert (r < 1) as R1 by nra.
    repeat split; try nra; try (right; reflexivity).
  - apply ltb_false in E.
    repeat split; try lra; try nra; try (left; reflexivity).
Qed.

Lemma fillIf_calls (o : option string) :
  forallb (fun c => negb (stacks c)) (ctx.fillIf o) = true
  /\ existsb paints (ctx.fillIf o) = ctx.truthy o.
Proof.
  unfold ctx.fillIf, ctx.truthy.
  destruct o as [s |]; [destruct (String.eqb s "") |]; split; reflexivity.
Qed.

Lemma strokeIf_calls (o : option string) (w : option Q) (cap : bool) :
  forallb (fun c => negb (stacks c)) (ctx.strokeIf o w cap) = true
  /\ existsb paints (ctx.strokeIf o w cap) = ctx.truthy o.
Proof.
  unfold ctx.strokeIf, ctx.truthy.
  destruct o as [s |]; [destruct (String.eqb s "") |]; destruct cap;
    split; reflexivity.
Qed.

Lemma primitive_calls (sh : Shape) :
  forallb (fun c => negb (stacks c)) (primitive sh) = true
  /\ existsb paints (primitive sh)
     = match geometry sh with
       | Line _ _ => true
       | _ => ctx.truthy (fill sh) || ctx.truthy (stroke sh)
       end.
Proof.
  destruct (fillIf_calls (fill sh)) as [F1 F2].
  destruct (strokeIf_calls (stroke sh) (strokeWidth sh) true) as [S1 S2].
  destruct (strokeIf_calls (stroke sh) (strokeWidth sh) false) as [T1 T2].
  unfold primitive.
  destruct (geometry sh) as [r | gw gh cr | x2 y2 | r | sz];
    unfold renderCircle, renderRectangle, renderLine, renderSemicircle,
      renderTriangle; cbv zeta;
    try destruct (js.gtb (ctx.orNumber cr 0) 0);
    rewrite ?forallb_app, ?existsb_app, ?F1, ?F2, ?S1, ?S2, ?T1, ?T2;
    split; reflexivity.
Qed.

Lemma glow_calls (a : AnimatedShape) :
  forallb (fun c => negb (stacks c)) (glow a) = true
  /\ existsb paints (glow a) = false.
Proof.
  unfold glow.
  destruct (role (base a)), (fill (shape (base a))) as [s |];
    try destruct (String.eqb s ""); split; reflexivity.
Qed.

(** X29: [renderAnimatedShape] makes its calls between one [save] and one
    [restore]: it saves, translates to the stored position plus the wobble
    offset (no offset before the first tick), rotates by the rotation in
    radians, and restores at the end, with no other [save] or [restore] in
    between.  Ink is put on the canvas exactly when the shape is a line, or
    has a fill or a stroke that is not empty: a circle, rectangle,
    semicircle or triangle with neither is drawn as nothing. *)
Theorem animated_shape_calls (a : AnimatedShape) :
  exists body,
    renderAnimatedShape a
    = [ctx.save;
       ctx.translate
         (x (shape (base a)) + ctx.orNumber (wobbleX a) 0)
         (y (shape (base a)) + ctx.orNumber (wobbleY a) 0);
       ctx.rotate ((rotation (shape (base a)) * js.PI) / 180)]
      ++ body ++ [ctx.restore]
    /\ forallb (fun c => negb (stacks c)) body = true
    /\ existsb paints body
       = match geometry (shape (base a)) with
         | Line _ _ => true
         | _ => ctx.truthy (fill (shape (base a)))
                || ctx.truthy (stroke (shape (base a)))
         end
    /\ (wobbleX a = None -> ctx.orNumber (wobbleX a) 0 = 0)
    /\ (wobbleY a = None -> ctx.orNumber (wobbleY a) 0 = 0).
Proof.
  exists (glow a ++ primitive (shape (base a))).
  destruct (glow_calls a) as [G1 G2].
  destruct (primitive_calls (shape (base a))) as [P1 P2].
  split; [unfold renderAnimatedShape; cbv zeta; now rewrite <- app_assoc |].
  split; [now rewrite forallb_app, G1, P1 |].
  split; [now rewrite existsb_app, G2, P2 |].
  split; intros ->; reflexivity.
Qed.

(** X30: [renderShape] of [shapes.ts] makes its calls between one [save]
    and one [restore], after a translation to the position of the shape and
    a rotation.  It puts ink on the canvas when the shape is a line, or a
    circle or rectangle with a fill or a stroke that is not empty, and
    never for a semicircle or a triangle, whatever their fill and stroke;
    whatever it paints, [renderAnimatedShape] paints too, and a filled or
    stroked semicircle or triangle is painted by [renderAnimatedShape]
    alone. *)
Theorem renderShape_calls (a : AnimatedShape) :
  let sh := shape (base a) in
  exists body,
    renderShape sh
    = [ctx.save; ctx.translate (x sh) (y sh);
       ctx.rotate ((rotation sh * js.PI) / 180)]
      ++ body ++ [ctx.restore]
    /\ forallb (fun c => negb (stacks c)) body = true
    /\ existsb paints (renderShape sh)
       = match geometry sh with
         | Line _ _ => true
         | Circle _ | Rectangle _ _ _ =>
             ctx.truthy (fill sh) || ctx.truthy (stroke sh)
         | Semicircle _ | Triangle _ => false
         end
    /\ (existsb paints (renderShape sh) = true ->
        existsb paints (renderAnimatedShape a) = true)
    /\ (existsb paints (renderAnimatedShape a) = true ->
        existsb paints (renderShape sh) = false ->
        type sh = semicircle \/ type sh = triangle).
Proof.
  cbv zeta. set (sh := shape (base a)).
  destruct (glow_calls a) as [G1 G2].
  pose proof (primitive_calls sh) as [P1 P2].
  assert (existsb paints (renderAnimatedShape a)
          = existsb paints (primitive sh)) as Ea.
  { unfold renderAnimatedShape. cbv zeta. fold sh.
    rewrite !existsb_app, G2. cbn [existsb paints].
    now rewrite !orb_false_r. }
  assert (existsb paints (renderShape sh)
          = match geometry sh with
            | Semicircle _ | Triangle _ => false
            | _ => existsb paints (primitive sh)
            end) as Es.
  { unfold renderShape, primitive.
    destruct (geometry sh); rewrite !existsb_app; cbn [existsb paints];
      now rewrite ?orb_false_r. }
  exists (match geometry sh with
          | Semicircle _ | Triangle _ => []
          | _ => primitive sh
          end).
  split; [| split; [| split; [| split]]].
  - unfold renderShape, primitive. destruct (geometry sh); reflexivity.
  - destruct (geometry sh); try exact P1; reflexivity.
  - rewrite Es, P2. destruct (geometry sh); reflexivity.
  - rewrite Es, Ea. destruct (geometry sh); auto; discriminate.
  - rewrite Es, Ea. unfold type.
    destruct (geometry sh); intros H1 H2; auto; congruence.
Qed.

End RenderExtras.

Lemma frame_draws_by_layer_witness :
  exists alpha back middle front,
    CanvasLoop.calls
      (CanvasLoop.animate (M := reference.approxMath)
         [mkAnimated (mkRoleShape (createCircle 400 300 40 noOptions) anchor)
            0 0 1 0 0 (Some 40) None None None 0 0 8 None None]
         800 600 "#0d1117" 60 true 0 100)
    = [ctx.fillStyle "#0d1117"; ctx.globalAlpha alpha;
       ctx.fillRect 0 0 800 600; ctx.globalAlpha 1]
      ++ flat_map (render.renderAnimatedShape (M := reference.approxMath))
           (back ++ middle ++ front)
    /\ 0.15 <= alpha <= 0.45.
Proof.
  destruct (frame_draws_by_layer (M := reference.approxMath)
              [mkAnimated
                 (mkRoleShape (createCircle 400 300 40 noOptions) anchor)
                 0 0 1 0 0 (Some 40) None None None 0 0 8 None None]
              800 600 "#0d1117" 60 true 0 100)
    as (alpha & back & middle & front & E & _ & _ & _ & _ & _ & _ & _ & _ & A).
  exists alpha, back, middle, front. split; [exact E |].
  apply A. split; vm_compute; discriminate.
Defined.

Lemma display_size_fits_witness :
  fst (CanvasLoop.displaySize 675 1200) <= 800
  /\ snd (CanvasLoop.displaySize 675 1200) == 800.
Proof.
  destruct (display_size_fits 675 1200 eq_refl eq_refl)
    as (_ & W & _ & _ & _ & _).
  split; [exact W | reflexivity].
Defined.

Lemma animated_shape_calls_witness :
  ctx.orNumber
    (wobbleX
       (mkAnimated (mkRoleShape (createCircle 400 300 40 noOptions) accent)
          0 0 1 0 0 (Some 40) None None None 0 0 8 None None)) 0 = 0.
Proof.
  destruct (animated_shape_calls (M := reference.approxMath)
              (mkAnimated
                 (mkRoleShape (createCircle 400 300 40 noOptions) accent)
                 0 0 1 0 0 (Some 40) None None None 0 0 8 None None))
    as (body & _ & _ & _ & W & _).
  apply W. reflexivity.
Defined.

Lemma renderShape_calls_witness :
  existsb renderspec.paints
    (render.renderAnimatedShape (M := reference.approxMath)
       (mkAnimated (mkRoleShape (createCircle 400 300 40
                                   (mkOptions (Some "#58a6ff"%string) None
                                      None None None)) accent)
          0 0 1 0 0 (Some 40) None None None 0 0 8 None None))
  = true.
Proof.
  destruct (renderShape_calls (M := reference.approxMath)
              (mkAnimated (mkRoleShape (createCircle 400 300 40
                                          (mkOptions (Some "#58a6ff"%string)
                                             None None None None)) accent)
                 0 0 1 0 0 (Some 40) None None None 0 0 8 None None))
    as (body & _ & _ & _ & H & _).
  apply H. reflexivity.
Defined.
